(** * Credit-risk data preparation: a shallow embedding of [src/data_preparation.py]

    The pipeline reads five tables, aggregates three of them per client,
    left-joins the aggregates onto the application table and runs a final
    cleaning pass.  The pandas operations the module calls are modelled
    on column-oriented frames whose columns carry their dtype; floating
    point values are IEEE binary64 numbers as specified by the standard
    library's [SpecFloat]. *)

From Stdlib Require Import ZArith Ascii String Floats.SpecFloat.
From stdpp Require Import base option list gmap strings pretty sorting.

Local Open Scope Z_scope.
Local Open Scope string_scope.

(** ** Binary64 values *)

Module F64.
Definition prec : Z := 53.
Definition emax : Z := 1024.

Definition nan : spec_float := S754_nan.
Definition inf : spec_float := S754_infinity false.
Definition neg_inf : spec_float := S754_infinity true.
Definition zero : spec_float := S754_zero false.

Definition add : spec_float → spec_float → spec_float := SFadd prec emax.
Definition sub : spec_float → spec_float → spec_float := SFsub prec emax.
Definition div : spec_float → spec_float → spec_float := SFdiv prec emax.
Definition leb : spec_float → spec_float → bool := SFleb.

(** Conversion of an integer, rounding to nearest even. *)
Definition of_Z (z : Z) : spec_float := binary_normalize prec emax z 0 false.
Definition of_bool (b : bool) : spec_float := of_Z (if b then 1 else 0).

Definition is_nan (x : spec_float) : bool :=
  match x with S754_nan => true | _ => false end.
Definition is_inf (x : spec_float) : bool :=
  match x with S754_infinity _ => true | _ => false end.
Definition is_zero (x : spec_float) : bool :=
  match x with S754_zero _ => true | _ => false end.
End F64.

Abbreviation float := spec_float.

Global Instance float_eq_dec : EqDecision float.
Proof. solve_decision. Defined.

(** ** Exceptions *)

Inductive error :=
  | FileNotFoundError (file : string)
  | KeyError (label : string)
  | TypeError
  | ValueError
  | MergeError
  | Unsupported.

Inductive result (A : Type) :=
  | Ok (a : A)
  | Raise (e : error).
Arguments Ok {A} a.
Arguments Raise {A} e.

Global Instance result_ret : MRet result := λ A a, Ok a.
Global Instance result_bind : MBind result := λ A B f m,
  match m with Ok a => f a | Raise e => Raise e end.
Global Instance result_fmap : FMap result := λ A B f m,
  match m with Ok a => Ok (f a) | Raise e => Raise e end.

Fixpoint mapR {A B} (f : A → result B) (l : list A) : result (list B) :=
  match l with
  | [] => Ok []
  | x :: l => y ← f x; ys ← mapR f l; Ok (y :: ys)
  end.

(** ** Columns and frames *)

(** A cell of an [object] column: a string, or a boolean that lost its
    [bool] dtype when a missing value was introduced next to it. *)
Inductive pyobj :=
  | PStr (s : string)
  | PBool (b : bool).

Global Instance pyobj_eq_dec : EqDecision pyobj.
Proof. solve_decision. Defined.

(** The dtypes the pipeline meets.  In [Float64] (numpy float64) the
    missing value is NaN; [Int64] and [Boolean] cannot hold a missing
    value; in [Object] it is [None]; [NullableFloat64] is the pandas
    extension dtype written "Float64", whose missing marker [pd.NA] is
    kept apart from the float payload. *)
Inductive column :=
  | Float64 (xs : list float)
  | Int64 (xs : list Z)
  | Boolean (xs : list bool)
  | Object (xs : list (option pyobj))
  | NullableFloat64 (xs : list (option float)).

Global Instance column_eq_dec : EqDecision column.
Proof. solve_decision. Defined.

Definition col_len (c : column) : nat :=
  match c with
  | Float64 xs => length xs
  | Int64 xs => length xs
  | Boolean xs => length xs
  | Object xs => length xs
  | NullableFloat64 xs => length xs
  end.

(** [isna], cell by cell. *)
Definition col_isna (c : column) : list bool :=
  match c with
  | Float64 xs => F64.is_nan <$> xs
  | Int64 xs => (λ _, false) <$> xs
  | Boolean xs => (λ _, false) <$> xs
  | Object xs => (λ o, bool_decide (o = None)) <$> xs
  | NullableFloat64 xs => (λ o, bool_decide (o = None)) <$> xs
  end.

(** A frame: the length of its index and its labelled columns, in
    order.  Labels are unique in every frame [read_csv] returns. *)
Record DataFrame := mkFrame {
  nrows : nat;
  columns : list (string * column)
}.

Global Instance DataFrame_eq_dec : EqDecision DataFrame.
Proof. solve_decision. Defined.

Fixpoint assoc {A} (name : string) (l : list (string * A)) : option A :=
  match l with
  | [] => None
  | (n, a) :: l => if decide (n = name) then Some a else assoc name l
  end.

(** [df[name]]. *)
Definition get_column (name : string) (df : DataFrame) : result column :=
  match assoc name (columns df) with
  | Some c => Ok c
  | None => Raise (KeyError name)
  end.

Fixpoint set_assoc {A} (name : string) (a : A) (l : list (string * A))
  : list (string * A) :=
  match l with
  | [] => [(name, a)]
  | (n, b) :: l =>
      if decide (n = name) then (n, a) :: l else (n, b) :: set_assoc name a l
  end.

(** [df[name] = c]: replaces the column in place or appends it. *)
Definition set_column (name : string) (c : column) (df : DataFrame) : DataFrame :=
  mkFrame (nrows df) (set_assoc name c (columns df)).

(** [df[[n1, ..., nk]]]. *)
Definition select_columns (names : list string) (df : DataFrame) : result DataFrame :=
  cs ← mapR (λ n, c ← get_column n df; Ok (n, c)) names;
  Ok (mkFrame (nrows df) cs).

(** [df.drop(columns=[name])]. *)
Definition drop_column (name : string) (df : DataFrame) : result DataFrame :=
  match assoc name (columns df) with
  | Some _ => Ok (mkFrame (nrows df) (filter (λ nc, nc.1 ≠ name) (columns df)))
  | None => Raise (KeyError name)
  end.

(** ** Join and group keys *)

(** Keys are compared by value, whatever the dtype that holds them: a
    number is kept as an odd mantissa and a binary exponent, so that the
    int64 [2] and the float64 [2.0] are one key; all missing markers are
    one key, as pandas matches them with each other in a merge.  The
    integers that a join rounds to float64 first are those of
    [join_keys]. *)
Inductive key :=
  | KNum (m e : Z)
  | KInf (neg : bool)
  | KStr (s : string)
  | KMissing.

Global Instance key_eq_dec : EqDecision key.
Proof. solve_decision. Defined.

Fixpoint strip_zeros (m : positive) (e : Z) : Z * Z :=
  match m with
  | xO p => strip_zeros p (e + 1)
  | _ => (Zpos m, e)
  end.

Definition dyadic (neg : bool) (m : positive) (e : Z) : key :=
  let '(m', e') := strip_zeros m e in KNum (if neg then - m' else m') e'.

Definition key_of_Z (z : Z) : key :=
  match z with
  | Z0 => KNum 0 0
  | Zpos p => dyadic false p 0
  | Zneg p => dyadic true p 0
  end.

Definition key_of_float (x : float) : key :=
  match x with
  | S754_zero _ => KNum 0 0
  | S754_infinity s => KInf s
  | S754_nan => KMissing
  | S754_finite s m e => dyadic s m e
  end.

Definition key_of_bool (b : bool) : key := key_of_Z (if b then 1 else 0).

Definition key_of_obj (o : option pyobj) : key :=
  match o with
  | None => KMissing
  | Some (PStr s) => KStr s
  | Some (PBool b) => key_of_bool b
  end.

Definition col_keys (c : column) : list key :=
  match c with
  | Float64 xs => key_of_float <$> xs
  | Int64 xs => key_of_Z <$> xs
  | Boolean xs => key_of_bool <$> xs
  | Object xs => key_of_obj <$> xs
  | NullableFloat64 xs => from_option key_of_float KMissing <$> xs
  end.

(** The order in which [groupby] sorts its keys. *)
Definition num_compare (m1 e1 m2 e2 : Z) : comparison :=
  let e := Z.min e1 e2 in
  Z.compare (m1 * 2 ^ (e1 - e)) (m2 * 2 ^ (e2 - e)).

Definition key_leb (k1 k2 : key) : bool :=
  match k1, k2 with
  | KMissing, KMissing => true
  | KMissing, _ => false
  | _, KMissing => true
  | KStr s1, KStr s2 => String.leb s1 s2
  | KStr _, _ => false
  | _, KStr _ => true
  | KInf true, _ => true
  | _, KInf false => true
  | KInf false, _ => false
  | _, KInf true => false
  | KNum m1 e1, KNum m2 e2 =>
      match num_compare m1 e1 m2 e2 with Gt => false | _ => true end
  end.

Definition key_le (k1 k2 : key) : Prop := key_leb k1 k2.

Global Instance key_le_dec : RelDecision key_le.
Proof. intros k1 k2. unfold key_le. apply _. Defined.

(** ** Positional selection ([take]) *)

(** The cell at a position of an indexer; [None] stands for the [-1]
    that pandas uses for "no row". *)
Definition cell_at {A} (xs : list A) (oi : option nat) : option A :=
  i ← oi; xs !! i.

(** [take] with fill: a column that cannot hold a missing value is
    promoted when the indexer asks for one (int64 to float64, bool to
    object); it keeps its dtype otherwise. *)
Definition take_col (c : column) (idx : list (option nat)) : column :=
  match c with
  | Float64 xs => Float64 ((λ oi, default F64.nan (cell_at xs oi)) <$> idx)
  | Int64 xs =>
      match mapM (cell_at xs) idx with
      | Some ys => Int64 ys
      | None =>
          Float64 ((λ oi, from_option F64.of_Z F64.nan (cell_at xs oi)) <$> idx)
      end
  | Boolean xs =>
      match mapM (cell_at xs) idx with
      | Some ys => Boolean ys
      | None => Object ((λ oi, PBool <$> cell_at xs oi) <$> idx)
      end
  | Object xs => Object ((λ oi, mjoin (cell_at xs oi)) <$> idx)
  | NullableFloat64 xs =>
      NullableFloat64 ((λ oi, mjoin (cell_at xs oi)) <$> idx)
  end.

(** ** [DataFrame.merge(right, on=..., how="left")] *)

(** Positions of the rows of [ks] whose key is [k], counted from [i]. *)
Fixpoint positions_from (i : nat) (ks : list key) (k : key) : list nat :=
  match ks with
  | [] => []
  | k' :: ks =>
      if decide (k' = k) then i :: positions_from (S i) ks k
      else positions_from (S i) ks k
  end.

Definition positions (ks : list key) (k : key) : list nat :=
  positions_from 0 ks k.

(** The pair of indexers of a left join: every left row, in order, with
    each right row that carries its key, or with no row when there is
    none. *)
Fixpoint left_join_from (i : nat) (lk rk : list key) : list (nat * option nat) :=
  match lk with
  | [] => []
  | k :: lk =>
      match positions rk k with
      | [] => [(i, None)]
      | js => (λ j, (i, Some j)) <$> js
      end ++ left_join_from (S i) lk rk
  end.

Definition left_join_indexer (lk rk : list key) : list (nat * option nat) :=
  left_join_from 0 lk rk.

(** What [lib.infer_dtype] answers on a key column, as far as the check
    of the key dtypes looks at it. *)
Inductive inferred := IInteger | IFloating | IBoolean | IString | IMixed | IEmpty.

Global Instance inferred_eq_dec : EqDecision inferred.
Proof. solve_decision. Defined.

Definition is_pstr (o : option pyobj) : bool :=
  match o with Some (PStr _) => true | _ => false end.
Definition is_pbool (o : option pyobj) : bool :=
  match o with Some (PBool _) => true | _ => false end.

Definition infer_dtype (c : column) : inferred :=
  match c with
  | Int64 _ => IInteger
  | Float64 _ | NullableFloat64 _ => IFloating
  | Boolean _ => IBoolean
  | Object [] => IEmpty
  | Object xs =>
      if forallb is_pstr xs then IString
      else if forallb is_pbool xs then IBoolean
      else IMixed
  end.

Definition is_object (c : column) : bool :=
  match c with Object _ => true | _ => false end.
Definition is_numeric (c : column) : bool :=
  match c with Float64 _ | Int64 _ | NullableFloat64 _ => true | _ => false end.

Definition bool_types : list inferred := [IInteger; IBoolean; IEmpty].
Definition string_types : list inferred := [IString; IMixed; IEmpty].

(** The check of [_maybe_coerce_merge_keys]: skipped when exactly one
    side has no row; an object column is refused next to a numeric one
    when one of them looks like strings and the other does not. *)
Definition merge_keys_refused (lk rk : column) : bool :=
  let one_empty := xorb (bool_decide (col_len lk = 0%nat))
                        (bool_decide (col_len rk = 0%nat)) in
  let l := infer_dtype lk in
  let r := infer_dtype rk in
  negb one_empty
  && ((is_object lk && is_numeric rk) || (is_numeric lk && is_object rk))
  && negb (bool_decide (l ∈ bool_types) && bool_decide (r ∈ bool_types))
  && (xorb (bool_decide (l ∈ string_types)) (bool_decide (r ∈ string_types))).

Definition labels (df : DataFrame) : list string := fst <$> columns df.

(** A label other than the key that both frames carry gets the suffix
    of its side. *)
Definition suffixed (on : string) (other : list string) (suffix : string)
    (name : string) : string :=
  if bool_decide (name ≠ on ∧ name ∈ other) then name +:+ suffix else name.

(** [Index.duplicated()]: whether a label occurred earlier in the
    list. *)
Fixpoint duplicated_from (seen l : list string) : list bool :=
  match l with
  | [] => []
  | x :: l => bool_decide (x ∈ seen) :: duplicated_from (x :: seen) l
  end.

Definition duplicated (l : list string) : list bool := duplicated_from [] l.

(** Whether the suffixes made a label a duplicate that was none before
    in the labels of its side. *)
Definition suffix_duplicates (old new : list string) : bool :=
  existsb (λ p : bool * bool, p.1 && negb p.2) (zip (duplicated new) (duplicated old)).

(** The keys as the join compares them.  Key columns of different
    dtypes are brought to a common dtype first: an int64 column next
    to a float64 (or nullable Float64) column is cast to float64, so
    that two integers beyond 2^53 that round to the same float are one
    key; every other pair of dtypes compares the values as they are. *)
Definition is_floating (c : column) : bool :=
  match c with Float64 _ | NullableFloat64 _ => true | _ => false end.

Definition join_keys (c other : column) : list key :=
  match c with
  | Int64 xs =>
      if is_floating other then (λ z, key_of_float (F64.of_Z z)) <$> xs
      else col_keys c
  | _ => col_keys c
  end.

(** The left join on one key column: the columns of the left frame
    under the left indexer, then the columns of the right frame other
    than the key under the right indexer, which fills the rows without a
    match with missing values.  A [MergeError] is raised when the
    suffixes turn a label into a duplicate among the labels of its
    side. *)
Definition merge (left right : DataFrame) (on : string) : result DataFrame :=
  rk ← get_column on right;
  lk ← get_column on left;
  if merge_keys_refused lk rk then Raise ValueError else
  let ix := left_join_indexer (join_keys lk rk) (join_keys rk lk) in
  let li := (λ p, Some p.1) <$> ix in
  let ri := snd <$> ix in
  let others := filter (λ nc, nc.1 ≠ on) (columns right) in
  let llabels := suffixed on (labels right) "_x" <$> labels left in
  let rlabels := suffixed on (labels left) "_y" <$> others.*1 in
  if suffix_duplicates (labels left) llabels || suffix_duplicates others.*1 rlabels
  then Raise MergeError else
  Ok (mkFrame (length ix)
        (((λ nc, (suffixed on (labels right) "_x" nc.1, take_col nc.2 li))
            <$> columns left)
         ++ ((λ nc, (suffixed on (labels left) "_y" nc.1, take_col nc.2 ri))
            <$> others))).

(** ** Aggregation functions of [groupby] *)

Definition not_nan (x : float) : bool := negb (F64.is_nan x).

(** Sum, mean and maximum skip missing values.  pandas accumulates
    group sums with a compensated (Kahan) loop; the running sum below
    is the plain left-to-right one, which agrees with it whenever the
    additions are exact. *)
Definition nansum (xs : list float) : float :=
  foldl F64.add F64.zero (filter not_nan xs).

Definition nanmean (xs : list float) : float :=
  match filter not_nan xs with
  | [] => F64.nan
  | ys => F64.div (foldl F64.add F64.zero ys) (F64.of_Z (Z.of_nat (length ys)))
  end.

Definition fmax (x y : float) : float := if F64.leb x y then y else x.

Definition nanmax (xs : list float) : float :=
  match filter not_nan xs with
  | [] => F64.nan
  | y :: ys => foldl fmax y ys
  end.

(** Signed 64-bit wrap-around of integer arithmetic. *)
Definition wrap64 (z : Z) : Z := (z + 2 ^ 63) `mod` 2 ^ 64 - 2 ^ 63.

(** The float64 view of a column in arithmetic.  Strings have none,
    but an object column without a cell (every column of a file that
    has only its header line) is an operand like another: there is no
    cell to compute on.  The nullable extension dtype never comes out
    of [read_csv] and its arithmetic is left out. *)
Definition as_floats (c : column) : result (list float) :=
  match c with
  | Float64 xs => Ok xs
  | Int64 xs => Ok (F64.of_Z <$> xs)
  | Boolean xs => Ok (F64.of_bool <$> xs)
  | Object [] => Ok []
  | Object _ => Raise TypeError
  | NullableFloat64 _ => Raise Unsupported
  end.

Inductive aggfn := Mean | Sum | Count | Max.

Definition aggfn_name (fn : aggfn) : string :=
  match fn with
  | Mean => "mean"
  | Sum => "sum"
  | Count => "count"
  | Max => "max"
  end.

(** The cells of [xs] in the rows whose key is [k]. *)
Definition group_values {A} (ks : list key) (xs : list A) (k : key) : list A :=
  snd <$> filter (λ p, p.1 = k) (zip ks xs).

(** The group keys: the distinct keys that are present (a row whose
    key is missing belongs to no group), in increasing order. *)
Definition group_keys (ks : list key) : list key :=
  merge_sort key_le (remove_dups (filter (λ k, k ≠ KMissing) ks)).

Definition count_true (bs : list bool) : Z :=
  Z.of_nat (length (filter (λ b, b = true) bs)).

Definition zmax_list (zs : list Z) : Z :=
  match zs with [] => 0 | z :: zs => foldl Z.max z zs end.

(** One aggregated column.  A function that has no meaning on objects
    fails on the first group it is applied to; where there is no group
    it is never applied, and the column comes out empty. *)
Definition agg_column (fn : aggfn) (c : column) (ks gk : list key) : result column :=
  match fn, c with
  | Count, _ =>
      Ok (Int64 ((λ k, count_true (negb <$> group_values ks (col_isna c) k)) <$> gk))
  | Sum, Int64 xs =>
      Ok (Int64 ((λ k, wrap64 (foldl Z.add 0 (group_values ks xs k))) <$> gk))
  | Sum, Boolean xs =>
      Ok (Int64 ((λ k, count_true (group_values ks xs k)) <$> gk))
  | (Sum | Max | Mean), Object _ =>
      if bool_decide (gk = []) then Ok (Object []) else Raise TypeError
  | Sum, _ =>
      xs ← as_floats c; Ok (Float64 ((λ k, nansum (group_values ks xs k)) <$> gk))
  | Max, Int64 xs =>
      Ok (Int64 ((λ k, zmax_list (group_values ks xs k)) <$> gk))
  | Max, _ =>
      xs ← as_floats c; Ok (Float64 ((λ k, nanmax (group_values ks xs k)) <$> gk))
  | Mean, _ =>
      xs ← as_floats c; Ok (Float64 ((λ k, nanmean (group_values ks xs k)) <$> gk))
  end.

(** The key of each group, in the dtype of the key column: the cell of
    the first row of the group. *)
Definition first_of {A} (d : A) (ks : list key) (xs : list A) (k : key) : A :=
  default d (head (group_values ks xs k)).

Definition col_firsts (c : column) (ks gk : list key) : column :=
  match c with
  | Float64 xs => Float64 (first_of F64.nan ks xs <$> gk)
  | Int64 xs => Int64 (first_of 0 ks xs <$> gk)
  | Boolean xs => Boolean (first_of false ks xs <$> gk)
  | Object xs => Object (first_of None ks xs <$> gk)
  | NullableFloat64 xs => NullableFloat64 (first_of None ks xs <$> gk)
  end.

(** The result of an aggregation: the group keys as a named index and
    the aggregated columns under labels of type [L] (pairs of a column
    and a function name after [agg] with a dictionary). *)
Record Grouped (L : Type) := mkGrouped {
  index_name : string;
  index : column;
  body : list (L * column)
}.
Arguments mkGrouped {L} _ _ _.
Arguments index_name {L} _.
Arguments index {L} _.
Arguments body {L} _.

(** [df.groupby(by).agg({c1: [f, ...], ...})]. *)
Definition groupby_agg (df : DataFrame) (by_ : string)
    (spec : list (string * list aggfn)) : result (Grouped (string * string)) :=
  kc ← get_column by_ df;
  let ks := col_keys kc in
  let gk := group_keys ks in
  cols ← mapR (λ cf,
            c ← get_column cf.1 df;
            mapR (λ fn, a ← agg_column fn c ks gk; Ok ((cf.1, aggfn_name fn), a))
                 cf.2) spec;
  Ok (mkGrouped by_ (col_firsts kc ks gk) (concat cols)).

(** [df.groupby(by).mean()]: the mean of every other column. *)
Definition groupby_mean (df : DataFrame) (by_ : string) : result (Grouped string) :=
  kc ← get_column by_ df;
  let ks := col_keys kc in
  let gk := group_keys ks in
  cols ← mapR (λ nc, a ← agg_column Mean nc.2 ks gk; Ok (nc.1, a))
              (filter (λ nc, nc.1 ≠ by_) (columns df));
  Ok (mkGrouped by_ (col_firsts kc ks gk) cols).

(** [g.columns = [f(col) for col in g.columns]]. *)
Definition relabel {L} (f : L → string) (g : Grouped L) : Grouped string :=
  mkGrouped (index_name g) (index g) ((λ lc, (f lc.1, lc.2)) <$> body g).

(** [g.reset_index()]: the index becomes the first column. *)
Definition reset_index (g : Grouped string) : DataFrame :=
  mkFrame (col_len (index g)) ((index_name g, index g) :: body g).

(** ** Column arithmetic *)

Definition col_sub (a b : column) : result column :=
  match a, b with
  | Int64 xs, Int64 ys => Ok (Int64 (zip_with (λ x y, wrap64 (x - y)) xs ys))
  | Boolean _, Boolean _ => Raise TypeError
  | _, _ => xs ← as_floats a; ys ← as_floats b; Ok (Float64 (zip_with F64.sub xs ys))
  end.

(** True division: always in float64, a zero divisor gives an
    infinity or NaN and never raises. *)
Definition col_div (a b : column) : result (list float) :=
  xs ← as_floats a; ys ← as_floats b; Ok (zip_with F64.div xs ys).

(** [s.fillna(v)] on float64 cells. *)
Definition fillna_floats (v : float) (xs : list float) : list float :=
  (λ x, if F64.is_nan x then v else x) <$> xs.

(** [s.replace([inf, -inf], <missing>)] on float64 cells. *)
Definition replace_inf (xs : list float) : list float :=
  (λ x, if F64.is_inf x then F64.nan else x) <$> xs.

(** [s.astype("Float64")]: NaN becomes the missing marker. *)
Definition astype_Float64 (xs : list float) : list (option float) :=
  (λ x, if F64.is_nan x then None else Some x) <$> xs.

(** [s == 0], cell by cell. *)
Definition col_eq_zero (c : column) : result (list bool) :=
  match c with
  | Float64 xs => Ok (F64.is_zero <$> xs)
  | Int64 xs => Ok ((λ z, bool_decide (z = 0)) <$> xs)
  | Boolean xs => Ok (negb <$> xs)
  | Object xs => Ok ((λ o, bool_decide (o = Some (PBool false))) <$> xs)
  | NullableFloat64 _ => Raise Unsupported
  end.

(** ** [pd.get_dummies(df, columns=[col])] *)

Definition str_le (s1 s2 : string) : Prop := String.leb s1 s2.
Definition Z_le (z1 z2 : Z) : Prop := (z1 ≤ z2)%Z.

Definition str_of (o : option pyobj) : option string :=
  match o with Some (PStr s) => Some s | _ => None end.

(** One boolean indicator column per observed value, in increasing
    order of the values, appended after the other columns; a missing
    value sets no indicator.  Modelled for a column of strings and for
    an integer column. *)
Definition get_dummies (df : DataFrame) (col : string) : result DataFrame :=
  c ← get_column col df;
  dummies ←
    match c with
    | Object xs =>
        if forallb (λ o, is_pstr o || bool_decide (o = None)) xs then
          Ok ((λ s, (col +:+ "_" +:+ s,
                     Boolean ((λ o, bool_decide (o = Some (PStr s))) <$> xs)))
                <$> merge_sort str_le (remove_dups (omap str_of xs)))
        else Raise Unsupported
    | Int64 xs =>
        Ok ((λ z, (col +:+ "_" +:+ pretty z,
                   Boolean ((λ x, bool_decide (x = z)) <$> xs)))
              <$> merge_sort Z_le (remove_dups xs))
    | _ => Raise Unsupported
    end;
  Ok (mkFrame (nrows df) (filter (λ nc, nc.1 ≠ col) (columns df) ++ dummies)).

(** [str.upper] on ASCII letters. *)
Definition upper_ascii (a : ascii) : ascii :=
  let n := Ascii.N_of_ascii a in
  if ((97 <=? n) && (n <=? 122))%N then Ascii.ascii_of_N (n - 32) else a.

Fixpoint upper (s : string) : string :=
  match s with
  | EmptyString => EmptyString
  | String a s => String (upper_ascii a) (upper s)
  end.

(** ** The data directory *)

(** The tables [read_csv] finds under the data directory, already
    parsed; [None] is a file that does not exist. *)
Record Directory := mkDirectory {
  application_train_csv : option DataFrame;
  application_test_csv : option DataFrame;
  bureau_csv : option DataFrame;
  bureau_balance_csv : option DataFrame;
  previous_application_csv : option DataFrame;
  installments_payments_csv : option DataFrame
}.

Definition read_csv (file : option DataFrame) (name : string) : result DataFrame :=
  match file with
  | Some df => Ok df
  | None => Raise (FileNotFoundError name)
  end.

(** ** The functions of [data_preparation.py] *)

Definition load_application_data (path : Directory) (is_train : bool)
  : result DataFrame :=
  let file_name := if is_train then "application_train.csv" else "application_test.csv" in
  let file := if is_train then application_train_csv path
              else application_test_csv path in
  if bool_decide (file = None) then Raise (FileNotFoundError file_name)
  else read_csv file file_name.

(** The joined labels are stripped of surrounding white space, of which
    the labels of the dictionary have none. *)
Definition preprocess_bureau_data (path : Directory) : result DataFrame :=
  bureau ← read_csv (bureau_csv path) "bureau.csv";
  bureau_balance ← read_csv (bureau_balance_csv path) "bureau_balance.csv";
  g ← groupby_agg bureau "SK_ID_CURR"
        [("AMT_CREDIT_SUM", [Mean; Sum]);
         ("AMT_CREDIT_SUM_DEBT", [Mean; Sum]);
         ("DAYS_CREDIT", [Mean]);
         ("SK_ID_BUREAU", [Count])];
  let bureau_agg := reset_index (relabel (λ col, col.1 +:+ "_" +:+ col.2) g) in
  debt ← get_column "AMT_CREDIT_SUM_DEBT_sum" bureau_agg;
  credit ← get_column "AMT_CREDIT_SUM_sum" bureau_agg;
  ratio ← col_div debt credit;
  let bureau_agg := set_column "DEBT_CREDIT_RATIO" (Float64 ratio) bureau_agg in
  let bureau_agg :=
    set_column "DEBT_CREDIT_RATIO" (Float64 (fillna_floats F64.zero ratio))
               bureau_agg in
  bb_onehot ← get_dummies bureau_balance "STATUS";
  bb_agg ← reset_index <$> groupby_mean bb_onehot "SK_ID_BUREAU";
  ids ← select_columns ["SK_ID_BUREAU"; "SK_ID_CURR"] bureau;
  bureau_bb ← merge ids bb_agg "SK_ID_BUREAU";
  dropped ← drop_column "SK_ID_BUREAU" bureau_bb;
  bb_final ← reset_index <$> groupby_mean dropped "SK_ID_CURR";
  merge bureau_agg bb_final "SK_ID_CURR".

Definition preprocess_previous_applications (path : Directory) : result DataFrame :=
  prev ← read_csv (previous_application_csv path) "previous_application.csv";
  g ← groupby_agg prev "SK_ID_CURR"
        [("AMT_APPLICATION", [Mean; Sum]);
         ("AMT_CREDIT", [Mean; Sum]);
         ("AMT_DOWN_PAYMENT", [Mean]);
         ("AMT_ANNUITY", [Mean]);
         ("CNT_PAYMENT", [Mean]);
         ("DAYS_DECISION", [Mean]);
         ("SK_ID_PREV", [Count])];
  let prev_agg :=
    reset_index (relabel (λ col, "PREV_" +:+ upper (col.1 +:+ "_" +:+ col.2)) g) in
  credit ← get_column "PREV_AMT_CREDIT_SUM" prev_agg;
  application ← get_column "PREV_AMT_APPLICATION_SUM" prev_agg;
  ratio ← col_div credit application;
  let prev_agg :=
    set_column "PREV_CREDIT_TO_APPLICATION_RATIO" (Float64 ratio) prev_agg in
  let prev_agg :=
    set_column "PREV_CREDIT_TO_APPLICATION_RATIO"
               (NullableFloat64 (astype_Float64 (replace_inf ratio))) prev_agg in
  Ok prev_agg.

(** [replace([inf, -inf], None)] leaves a missing value where the ratio
    was infinite; the mean of the group skips it.  The ratio is held
    here as float64 with NaN in these cells: the numbers are those of
    the code, the dtype is not, since pandas turns the column, and the
    mean taken from it, into a column of objects. *)
Definition preprocess_installments (path : Directory) : result DataFrame :=
  df ← read_csv (installments_payments_csv path) "installments_payments.csv";
  entry ← get_column "DAYS_ENTRY_PAYMENT" df;
  instalment ← get_column "DAYS_INSTALMENT" df;
  delay ← col_sub entry instalment;
  let df := set_column "PAYMENT_DELAY" delay df in
  paid ← get_column "AMT_PAYMENT" df;
  due ← get_column "AMT_INSTALMENT" df;
  ratio ← col_div paid due;
  let df := set_column "PAYMENT_RATIO" (Float64 ratio) df in
  let df := set_column "PAYMENT_RATIO" (Float64 (replace_inf ratio)) df in
  paid ← get_column "AMT_PAYMENT" df;
  zero ← col_eq_zero paid;
  let df :=
    set_column "MISSED_PAYMENT" (Boolean (zip_with orb (col_isna paid) zero)) df in
  g ← groupby_agg df "SK_ID_CURR"
        [("PAYMENT_DELAY", [Mean; Max]);
         ("PAYMENT_RATIO", [Mean]);
         ("MISSED_PAYMENT", [Sum]);
         ("AMT_PAYMENT", [Sum])];
  Ok (reset_index (relabel (λ col, "INSTALL_" +:+ upper (col.1 +:+ "_" +:+ col.2)) g)).

Fixpoint merge_all_features (app_df : DataFrame) (feature_dfs : list DataFrame)
  : result DataFrame :=
  match feature_dfs with
  | [] => Ok app_df
  | feature_df :: feature_dfs =>
      app_df ← merge app_df feature_df "SK_ID_CURR";
      merge_all_features app_df feature_dfs
  end.

(** *** The final cleaning *)

Definition float_le (x y : float) : Prop := F64.leb x y.

(** The median of the values that are present: the middle one, or the
    mean of the two middle ones; NaN when there is none.  For an odd
    count [DataFrame.median] takes, on a block of less than 600 rows,
    the mean of the middle value with itself: that is the middle value
    unless their sum overflows, see [settles]. *)
Definition median (xs : list float) : float :=
  let ys := merge_sort float_le (filter not_nan xs) in
  let n := length ys in
  if bool_decide (n = 0%nat) then F64.nan
  else if Nat.odd n then default F64.nan (ys !! (n `div` 2)%nat)
  else F64.div (F64.add (default F64.nan (ys !! (n `div` 2 - 1)%nat))
                        (default F64.nan (ys !! (n `div` 2)%nat)))
               (F64.of_Z 2).

(** [select_dtypes(include=['float64', 'int64'])]: the scalar type of
    the nullable "Float64" dtype is float64 as well. *)
Definition is_number_dtype (c : column) : bool :=
  match c with
  | Float64 _ | Int64 _ | NullableFloat64 _ => true
  | _ => false
  end.

Definition present_floats (xs : list (option float)) : list float :=
  omap id xs.

Definition col_median (c : column) : float :=
  match c with
  | Float64 xs => median xs
  | Int64 xs => median (F64.of_Z <$> xs)
  | NullableFloat64 xs => median (present_floats xs)
  | _ => F64.nan
  end.

(** [fillna(v)] on a numeric column; filling with NaN fills nothing. *)
Definition col_fillna (v : float) (c : column) : column :=
  match c with
  | Float64 xs => Float64 (fillna_floats v xs)
  | NullableFloat64 xs =>
      if F64.is_nan v then c
      else NullableFloat64 ((λ o, match o with None => Some v | _ => o end) <$> xs)
  | _ => c
  end.

(** The distinct values in the order of their first occurrence. *)
Definition seen_step {A} `{EqDecision A} (acc : list A) (x : A) : list A :=
  if decide (x ∈ acc) then acc else (acc ++ [x])%list.

Definition first_seen {A} `{EqDecision A} (xs : list A) : list A :=
  foldl seen_step [] xs.

Definition present {A} (xs : list (option A)) : list A := omap id xs.

(** [s.nunique()]: missing values are not counted. *)
Definition nunique (xs : list (option pyobj)) : nat :=
  length (first_seen (present xs)).

Definition code_of (uniques : list pyobj) (o : option pyobj) : Z :=
  match o with
  | None => -1
  | Some v =>
      match list_find (λ u, u = v) uniques with
      | Some (i, _) => Z.of_nat i
      | None => -1
      end
  end.

(** [pd.factorize(s)[0]]: the position of each value among the distinct
    values in first-seen order, and [-1] for a missing value. *)
Definition factorize (xs : list (option pyobj)) : list Z :=
  code_of (first_seen (present xs)) <$> xs.

Definition fill_numeric (c : column) : column :=
  if is_number_dtype c then col_fillna (col_median c) c else c.

Definition encode_binary (c : column) : column :=
  match c with
  | Object xs => if bool_decide (nunique xs = 2%nat) then Int64 (factorize xs) else c
  | _ => c
  end.

(** [df[num_cols] = df[num_cols].fillna(df[num_cols].median())]. *)
Definition fill_numeric_columns (df : DataFrame) : DataFrame :=
  mkFrame (nrows df) ((λ nc, (nc.1, fill_numeric nc.2)) <$> columns df).

(** The loop over the object columns.  Labels being unique, each
    assignment replaces the column it was computed from. *)
Definition encode_binary_columns (df : DataFrame) : DataFrame :=
  mkFrame (nrows df) ((λ nc, (nc.1, encode_binary nc.2)) <$> columns df).

(** The value the frame holds when [preprocess_final] returns; the
    function works on the frame it is given, see [Heap.preprocess_final]
    for the object it returns. *)
Definition preprocess_final (df : DataFrame) (is_train : bool) : DataFrame :=
  encode_binary_columns (fill_numeric_columns df).

Definition prepare_dataset (path : Directory) (is_train : bool) : result DataFrame :=
  app_df ← load_application_data path is_train;
  bureau_df ← preprocess_bureau_data path;
  prev_app_df ← preprocess_previous_applications path;
  inst_df ← preprocess_installments path;
  full_df ← merge_all_features app_df [bureau_df; prev_app_df; inst_df];
  let full_df := preprocess_final full_df is_train in
  Ok full_df.


(** ** Frames as objects *)

(** Python passes frames by reference.  The heap maps the identity of
    each live frame object to its current value; [merge] builds a new
    object, an assignment [df[...] = ...] updates the object in place. *)
Module Heap.
Definition alloc (h : gmap nat DataFrame) (df : DataFrame)
  : nat * gmap nat DataFrame :=
  let l := fresh (dom h) in (l, <[l := df]> h).

Definition deref (h : gmap nat DataFrame) (l : nat) : result DataFrame :=
  match h !! l with
  | Some df => Ok df
  | None => Raise Unsupported
  end.

Fixpoint merge_all_features (h : gmap nat DataFrame) (app_df : nat)
    (feature_dfs : list nat) : result (nat * gmap nat DataFrame) :=
  match feature_dfs with
  | [] => Ok (app_df, h)
  | feature_df :: feature_dfs =>
      a ← deref h app_df;
      f ← deref h feature_df;
      m ← merge a f "SK_ID_CURR";
      let '(app_df, h) := alloc h m in
      merge_all_features h app_df feature_dfs
  end.

Definition preprocess_final (h : gmap nat DataFrame) (df : nat)
    (is_train : bool) : result (nat * gmap nat DataFrame) :=
  d ← deref h df;
  let h := <[df := fill_numeric_columns d]> h in
  d ← deref h df;
  let h := <[df := encode_binary_columns d]> h in
  Ok (df, h).

(** Each table built along the way is a new object; the cleaning then
    works on the frame the merge returned. *)
Definition prepare_dataset (h : gmap nat DataFrame) (path : Directory)
    (is_train : bool) : result (nat * gmap nat DataFrame) :=
  app ← load_application_data path is_train;
  let '(app_df, h) := alloc h app in
  bureau ← preprocess_bureau_data path;
  let '(bureau_df, h) := alloc h bureau in
  prev ← preprocess_previous_applications path;
  let '(prev_app_df, h) := alloc h prev in
  inst ← preprocess_installments path;
  let '(inst_df, h) := alloc h inst in
  r ← merge_all_features h app_df [bureau_df; prev_app_df; inst_df];
  preprocess_final r.2 r.1 is_train.
End Heap.

(** ** Vocabulary of the statements *)

(** Every column has one cell per row. *)
Definition wf_frame (df : DataFrame) : Prop :=
  Forall (λ nc, col_len nc.2 = nrows df) (columns df).

(** The keys of the rows of a frame under a key column. *)
Definition frame_keys (on : string) (df : DataFrame) : list key :=
  match assoc on (columns df) with
  | Some c => col_keys c
  | None => []
  end.

(** The keys of the rows of a frame as a join with [other] on the same
    key compares them. *)
Definition frame_join_keys (on : string) (df other : DataFrame) : list key :=
  match assoc on (columns df), assoc on (columns other) with
  | Some c, Some o => join_keys c o
  | _, _ => []
  end.

(** The key column of a grouped table holds, for each group, the key
    of its first row in the dtype of the input column. *)
Definition keyed_by (input ft : DataFrame) : Prop :=
  ∃ kc, get_column "SK_ID_CURR" input = Ok kc
        ∧ get_column "SK_ID_CURR" ft
          = Ok (col_firsts kc (col_keys kc) (group_keys (col_keys kc))).

(** An integer that float64 holds exactly, and a key column whose
    integers are all of this kind (a column of another dtype is
    compared as it is). *)
Definition exact_key (z : Z) : Prop := key_of_float (F64.of_Z z) = key_of_Z z.

Definition exact_ids (c : column) : Prop :=
  match c with
  | Int64 zs => Forall exact_key zs
  | _ => True
  end.

(** The identifiers of the auxiliary files are compared exactly with
    those of the application table: this can only fail when the
    application table holds its identifiers as floats and an auxiliary
    file holds integers beyond 2^53. *)
Definition identifiers_compared_exactly (app_df : DataFrame) (path : Directory)
  : Prop :=
  ∀ ids, get_column "SK_ID_CURR" app_df = Ok ids → is_floating ids = true →
    ∀ df c,
      Some df ∈ [bureau_csv path; previous_application_csv path;
                 installments_payments_csv path] →
      get_column "SK_ID_CURR" df = Ok c → exact_ids c.

(** The mean of a value with itself is the value again; it is not for
    a float whose double overflows.  The library averages the two
    middle values of a column, and on some of its paths the middle one
    with itself when the count is odd. *)
Definition settles (m : float) : Prop :=
  F64.div (F64.add m m) (F64.of_Z 2) = m.

(** The cells of a column, [None] for a missing one. *)
Inductive scalar :=
  | SFloat (x : float)
  | SInt (z : Z)
  | SBool (b : bool)
  | SObj (o : pyobj).

Definition cells (c : column) : list (option scalar) :=
  match c with
  | Float64 xs => (λ x, if F64.is_nan x then None else Some (SFloat x)) <$> xs
  | Int64 xs => (λ z, Some (SInt z)) <$> xs
  | Boolean xs => (λ b, Some (SBool b)) <$> xs
  | Object xs => (λ o : option pyobj, SObj <$> o) <$> xs
  | NullableFloat64 xs => (λ o : option float, SFloat <$> o) <$> xs
  end.

(** [df.dropna(subset=[on])]: the rows whose key is present. *)
Definition keep {A} (mask : list bool) (xs : list A) : list A :=
  snd <$> filter (λ p, p.1 = true) (zip mask xs).

Definition col_keep (mask : list bool) (c : column) : column :=
  match c with
  | Float64 xs => Float64 (keep mask xs)
  | Int64 xs => Int64 (keep mask xs)
  | Boolean xs => Boolean (keep mask xs)
  | Object xs => Object (keep mask xs)
  | NullableFloat64 xs => NullableFloat64 (keep mask xs)
  end.

Definition present_mask (ks : list key) : list bool :=
  (λ k, bool_decide (k ≠ KMissing)) <$> ks.

Definition drop_missing_keys (on : string) (df : DataFrame) : DataFrame :=
  let mask := present_mask (frame_keys on df) in
  mkFrame (length (keep mask mask)) ((λ nc, (nc.1, col_keep mask nc.2)) <$> columns df).

(** How many rows of a right table carry each key of the left one. *)
Definition matches (rk : list key) (k : key) : nat := length (positions rk k).

Definition joined_rows (lk rk : list key) : nat :=
  sum_list ((λ k, Nat.max 1 (matches rk k)) <$> lk).


(** The rows of a grouped table: one per group key of the input. *)
Definition grouped_from (input ft : DataFrame) : Prop :=
  frame_keys "SK_ID_CURR" ft = group_keys (frame_keys "SK_ID_CURR" input)
  ∧ nrows ft = length (frame_keys "SK_ID_CURR" ft).

(** A feature table with exactly one row for each client identifier
    that is present in the input records. *)
Definition one_row_per_client (input ft : DataFrame) : Prop :=
  NoDup (frame_keys "SK_ID_CURR" ft)
  ∧ (∀ k, k ∈ frame_keys "SK_ID_CURR" ft
          ↔ k ∈ frame_keys "SK_ID_CURR" input ∧ k ≠ KMissing)
  ∧ nrows ft = length (frame_keys "SK_ID_CURR" ft).

(** What the cleaning does to one column. *)
Definition clean_column (c : column) : column := encode_binary (fill_numeric c).

(** A missing cell takes the value [v]. *)
Definition filled (v : float) (o : option scalar) : option scalar :=
  match o with
  | None => Some (SFloat v)
  | Some s => Some s
  end.

(** ** Sample data *)

(** A small data directory.  Client 1 has two bureau records (credit
    100 and 300, debt 50 and 0) and one earlier application (200 asked,
    180 granted); client 2 appears in no auxiliary table; client 3 has
    one bureau record with no credit but a debt of 50, and one earlier
    application that asked for nothing.  The last row of the bureau,
    previous-application and installment tables has no client
    identifier. *)
Module Sample.
Definition num (z : Z) : float := F64.of_Z z.
Definition str (s : string) : option pyobj := Some (PStr s).

Definition application_train : DataFrame :=
  mkFrame 3
    [("SK_ID_CURR", Int64 [1; 2; 3]);
     ("TARGET", Int64 [0; 1; 0]);
     ("CODE_GENDER", Object [str "M"; str "F"; str "M"]);
     ("AMT_INCOME_TOTAL", Float64 [num 1000; F64.nan; num 3000])].

Definition application_test : DataFrame :=
  mkFrame 2
    [("SK_ID_CURR", Int64 [3; 4]);
     ("CODE_GENDER", Object [str "F"; str "F"]);
     ("AMT_INCOME_TOTAL", Float64 [num 500; num 700])].

Definition bureau : DataFrame :=
  mkFrame 4
    [("SK_ID_CURR", Float64 [num 1; num 1; num 3; F64.nan]);
     ("SK_ID_BUREAU", Int64 [10; 11; 12; 13]);
     ("AMT_CREDIT_SUM", Float64 [num 100; num 300; num 0; num 5]);
     ("AMT_CREDIT_SUM_DEBT", Float64 [num 50; num 0; num 50; num 1]);
     ("DAYS_CREDIT", Int64 [-5; -7; -9; -1])].

Definition bureau_balance : DataFrame :=
  mkFrame 3
    [("SK_ID_BUREAU", Int64 [10; 10; 12]);
     ("MONTHS_BALANCE", Int64 [0; -1; 0]);
     ("STATUS", Object [str "C"; str "0"; str "X"])].

Definition previous_application : DataFrame :=
  mkFrame 3
    [("SK_ID_CURR", Float64 [num 1; num 3; F64.nan]);
     ("SK_ID_PREV", Int64 [100; 101; 102]);
     ("AMT_APPLICATION", Float64 [num 200; num 0; num 7]);
     ("AMT_CREDIT", Float64 [num 180; num 50; num 7]);
     ("AMT_DOWN_PAYMENT", Float64 [num 0; F64.nan; num 1]);
     ("AMT_ANNUITY", Float64 [num 10; num 5; num 1]);
     ("CNT_PAYMENT", Float64 [num 12; num 6; num 1]);
     ("DAYS_DECISION", Int64 [-100; -50; -1])].

Definition installments_payments : DataFrame :=
  mkFrame 3
    [("SK_ID_CURR", Float64 [num 1; num 1; F64.nan]);
     ("DAYS_ENTRY_PAYMENT", Float64 [num (-10); num (-20); num (-3)]);
     ("DAYS_INSTALMENT", Float64 [num (-12); num (-20); num (-3)]);
     ("AMT_PAYMENT", Float64 [num 100; num 0; num 5]);
     ("AMT_INSTALMENT", Float64 [num 100; num 0; num 5])].

Definition directory : Directory :=
  mkDirectory (Some application_train) (Some application_test)
              (Some bureau) (Some bureau_balance)
              (Some previous_application) (Some installments_payments).

(** A feature table in which client 1 has two rows. *)
Definition duplicated_features : DataFrame :=
  mkFrame 2
    [("SK_ID_CURR", Int64 [1; 1]);
     ("SCORE", Float64 [num 7; num 9])].

(** A feature table with one row per client. *)
Definition scores : DataFrame :=
  mkFrame 2
    [("SK_ID_CURR", Int64 [3; 1]);
     ("SCORE", Float64 [num 7; num 9])].

(** A frame with a numeric column that has no value at all. *)
Definition empty_measure : DataFrame :=
  mkFrame 2
    [("SK_ID_CURR", Int64 [1; 2]);
     ("INSTALL_AMT_PAYMENT_SUM", Float64 [F64.nan; F64.nan])].

(** A frame with a two-valued column that has a missing cell. *)
Definition yes_no : DataFrame :=
  mkFrame 3
    [("SK_ID_CURR", Int64 [1; 2; 3]);
     ("FLAG_OWN_CAR", Object [str "Y"; None; str "N"])].
End Sample.

(** ** The script [run_data_preparation.py] *)

(** What a run of the script leaves behind: the files of the processed
    directory, each held as the table [to_csv] wrote into it, and the
    lines printed. *)
Record Outcome := mkOutcome {
  processed : gmap string DataFrame;
  stdout : list string;
  raised : option error
}.

(** [main]: the training table is prepared and written, then the test
    table; an exception of [prepare_dataset] ends the run where it is
    raised.  [makedirs] with [exist_ok] only makes sure that the
    directory exists, and [to_csv] replaces the file of its name.  The
    run is that of a processed directory that can be made and written
    and of a standard output that takes the lines: [makedirs], [to_csv]
    and [print] raise nothing here, so that [raised] tells of the
    exceptions of [prepare_dataset] only. *)
Definition main (raw : Directory) (processed_dir : gmap string DataFrame) : Outcome :=
  let out := ["Preparing training data..."] in
  match prepare_dataset raw true with
  | Raise e => mkOutcome processed_dir out (Some e)
  | Ok train_data =>
      let processed_dir := <["train_clean.csv" := train_data]> processed_dir in
      let out := (out ++ ["Preparing test data..."])%list in
      match prepare_dataset raw false with
      | Raise e => mkOutcome processed_dir out (Some e)
      | Ok test_data =>
          let processed_dir := <["test_clean.csv" := test_data]> processed_dir in
          mkOutcome processed_dir
                    (out ++ ["✅ Data preparation completed and saved."])%list None
      end
  end.

(** The name of the application file of a mode, and the file itself. *)
Definition application_file_name (is_train : bool) : string :=
  if is_train then "application_train.csv" else "application_test.csv".

Definition application_file (path : Directory) (is_train : bool) : option DataFrame :=
  if is_train then application_train_csv path else application_test_csv path.

(** The right indexer of a left join on a unique key: for each left
    row the row of the right table with its key, if there is one. *)
Definition lookup_rows (lk rk : list key) : list (option nat) :=
  (λ k, head (positions rk k)) <$> lk.

(** The aggregated columns [agg] is asked for, in the order of the
    result: each column of the dictionary with each of its functions. *)
Definition agg_specs (spec : list (string * list aggfn)) : list (string * aggfn) :=
  spec ≫= λ cf, (λ fn, (cf.1, fn)) <$> cf.2.

(** The label of a cell of [suffixed]: kept, or with the suffix. *)
Definition kept_or_suffixed (name suffix name' : string) : Prop :=
  name' = name ∨ name' = name +:+ suffix.

(** The errors of a file that is not there. *)
Definition is_file_error (e : error) : Prop :=
  match e with FileNotFoundError _ => True | _ => False end.

(** A column the final cleaning has nothing to do on: it has no missing
    number to fill, and it is not a two-valued column of objects. *)
Definition settled (c : column) : Prop :=
  match c with
  | Object xs => nunique xs ≠ 2%nat
  | Boolean _ => True
  | _ => None ∉ cells c
  end.

(** ** The aggregations of the three feature tables *)

(** The dictionaries given to [agg], and the labels made of the pairs
    of a column and a function. *)
Definition bureau_spec : list (string * list aggfn) :=
  [("AMT_CREDIT_SUM", [Mean; Sum]);
   ("AMT_CREDIT_SUM_DEBT", [Mean; Sum]);
   ("DAYS_CREDIT", [Mean]);
   ("SK_ID_BUREAU", [Count])].

Definition bureau_label (col : string * string) : string :=
  col.1 +:+ "_" +:+ col.2.

Definition previous_application_spec : list (string * list aggfn) :=
  [("AMT_APPLICATION", [Mean; Sum]);
   ("AMT_CREDIT", [Mean; Sum]);
   ("AMT_DOWN_PAYMENT", [Mean]);
   ("AMT_ANNUITY", [Mean]);
   ("CNT_PAYMENT", [Mean]);
   ("DAYS_DECISION", [Mean]);
   ("SK_ID_PREV", [Count])].

Definition previous_application_label (col : string * string) : string :=
  "PREV_" +:+ upper (col.1 +:+ "_" +:+ col.2).

Definition installments_spec : list (string * list aggfn) :=
  [("PAYMENT_DELAY", [Mean; Max]);
   ("PAYMENT_RATIO", [Mean]);
   ("MISSED_PAYMENT", [Sum]);
   ("AMT_PAYMENT", [Sum])].

Definition installments_label (col : string * string) : string :=
  "INSTALL_" +:+ upper (col.1 +:+ "_" +:+ col.2).

(** The number of rows with the key [k] and the mark [b]. *)
Definition rows_where (ks : list key) (bs : list bool) (k : key) (b : bool) : nat :=
  length (filter (λ p, p.1 = k ∧ p.2 = b) (zip ks bs)).

(** The number of rows with a key and the mark [b]. *)
Definition keyed_rows_where (ks : list key) (bs : list bool) (b : bool) : nat :=
  length (filter (λ p, p.1 ≠ KMissing ∧ p.2 = b) (zip ks bs)).

(** The cell [i] of [c] is the cell [r] of [c0], as it is or in the
    dtype a column is promoted to when it has to hold a missing value
    (int64 to float64, bool to object). *)
Definition same_cell (c0 : column) (r : nat) (c : column) (i : nat) : Prop :=
  match c0, c with
  | Float64 xs, Float64 ys => ∃ x, xs !! r = Some x ∧ ys !! i = Some x
  | Int64 xs, Int64 ys => ∃ z, xs !! r = Some z ∧ ys !! i = Some z
  | Int64 xs, Float64 ys => ∃ z, xs !! r = Some z ∧ ys !! i = Some (F64.of_Z z)
  | Boolean xs, Boolean ys => ∃ b, xs !! r = Some b ∧ ys !! i = Some b
  | Boolean xs, Object ys =>
      ∃ b, xs !! r = Some b ∧ ys !! i = Some (Some (PBool b))
  | Object xs, Object ys => ∃ o, xs !! r = Some o ∧ ys !! i = Some o
  | NullableFloat64 xs, NullableFloat64 ys =>
      ∃ o, xs !! r = Some o ∧ ys !! i = Some o
  | _, _ => False
  end.

(** ** More sample data *)

(** The sample directory before the test applications have arrived. *)
Definition directory_without_test : Directory :=
  mkDirectory (Some Sample.application_train) None
              (Some Sample.bureau) (Some Sample.bureau_balance)
              (Some Sample.previous_application)
              (Some Sample.installments_payments).


Definition example_bureau : DataFrame :=
  mkFrame 2
    [("SK_ID_CURR", Int64 [1; 1]);
     ("SK_ID_BUREAU", Int64 [10; 11]);
     ("AMT_CREDIT_SUM", Float64 [Sample.num 100; Sample.num 300]);
     ("AMT_CREDIT_SUM_DEBT", Float64 [Sample.num 50; Sample.num 0]);
     ("DAYS_CREDIT", Int64 [-5; -7])].

Definition example_previous_application : DataFrame :=
  mkFrame 1
    [("SK_ID_CURR", Int64 [1]);
     ("SK_ID_PREV", Int64 [100]);
     ("AMT_APPLICATION", Float64 [Sample.num 200]);
     ("AMT_CREDIT", Float64 [Sample.num 180]);
     ("AMT_DOWN_PAYMENT", Float64 [Sample.num 0]);
     ("AMT_ANNUITY", Float64 [Sample.num 10]);
     ("CNT_PAYMENT", Float64 [Sample.num 12]);
     ("DAYS_DECISION", Int64 [-100])].

Definition header_only_installments : DataFrame :=
  mkFrame 0
    [("SK_ID_CURR", Object []);
     ("DAYS_ENTRY_PAYMENT", Object []);
     ("DAYS_INSTALMENT", Object []);
     ("AMT_PAYMENT", Object []);
     ("AMT_INSTALMENT", Object [])].


(** The same clients in an application file that holds the
    identifiers as floats. *)
Definition float_application : DataFrame :=
  mkFrame 2
    [("SK_ID_CURR", Float64 [Sample.num 1; Sample.num 2]);
     ("TARGET", Int64 [0; 1])].

Definition float_directory : Directory :=
  mkDirectory (Some float_application) (Some float_application)
              (Some example_bureau) (Some Sample.bureau_balance)
              (Some example_previous_application)
              (Some header_only_installments).




Definition directory_without_train : Directory :=
  mkDirectory None (Some Sample.application_test)
              (Some Sample.bureau) (Some Sample.bureau_balance)
              (Some Sample.previous_application)
              (Some Sample.installments_payments).

(** A processed directory that holds the output of an earlier run and
    a file of another program. *)
Definition earlier_outputs : gmap string DataFrame :=
  <["test_clean.csv" := Sample.application_test]>
    (<["notes.csv" := Sample.scores]> ∅).

(** * Properties *)

(** ** The exception monad *)

Lemma bind_Ok {A B} (m : result A) (f : A → result B) (b : B) :
  m ≫= f = Ok b → ∃ a, m = Ok a ∧ f a = Ok b.
Proof. destruct m as [a|e]; [eauto | discriminate]. Qed.

Lemma fmap_Ok {A B} (m : result A) (f : A → B) (b : B) :
  f <$> m = Ok b → ∃ a, m = Ok a ∧ b = f a.
Proof. destruct m as [a|e]; [intros [= <-]; eauto | discriminate]. Qed.

Lemma get_column_Ok name df c :
  get_column name df = Ok c ↔ assoc name (columns df) = Some c.
Proof.
  unfold get_column. destruct (assoc name (columns df)); split; congruence.
Qed.

(** Inversion of a successful run, one bind at a time. *)
Ltac inv_bind_as H a E :=
  lazymatch type of H with
  | fmap _ _ = Ok _ => apply fmap_Ok in H as (a & E & H)
  | _ => apply bind_Ok in H as (a & E & H)
  end.

Tactic Notation "inv_bind" hyp(H) "as" ident(a) ident(E) := inv_bind_as H a E.
Tactic Notation "inv_bind" hyp(H) :=
  let a := fresh "a" in let E := fresh "E" in inv_bind_as H a E.

(** ** Positional selection *)

Lemma col_len_take c idx : col_len (take_col c idx) = length idx.
Proof.
  destruct c; simpl; rewrite ?length_fmap; try done.
  - destruct (mapM _ _) as [ys|] eqn:E; simpl; rewrite ?length_fmap; try done.
    apply length_mapM in E. done.
  - destruct (mapM _ _) as [ys|] eqn:E; simpl; rewrite ?length_fmap; try done.
    apply length_mapM in E. done.
Qed.

(** ** The left join *)

Lemma positions_from_absent i ks k : k ∉ ks → positions_from i ks k = [].
Proof.
  revert i. induction ks as [|k' ks IH]; intros i Hk; simpl; [done|].
  rewrite not_elem_of_cons in Hk. destruct Hk as [Hne Hk].
  destruct (decide (k' = k)); [congruence | auto].
Qed.

Lemma positions_from_NoDup i ks k :
  NoDup ks → (length (positions_from i ks k) ≤ 1)%nat.
Proof.
  revert i. induction ks as [|k' ks IH]; intros i Hnd; simpl; [lia|].
  apply NoDup_cons in Hnd as [Hk' Hnd].
  destruct (decide (k' = k)) as [->|Hne]; simpl.
  - rewrite positions_from_absent by done. simpl. lia.
  - apply IH. done.
Qed.

Lemma matches_NoDup rk k : NoDup rk → (matches rk k ≤ 1)%nat.
Proof. apply positions_from_NoDup. Qed.

Lemma joined_rows_cons k lk rk :
  joined_rows (k :: lk) rk = (Nat.max 1 (matches rk k) + joined_rows lk rk)%nat.
Proof. reflexivity. Qed.

Lemma left_join_from_length i lk rk :
  length (left_join_from i lk rk) = joined_rows lk rk.
Proof.
  revert i. induction lk as [|k lk IH]; intros i; [done|].
  rewrite joined_rows_cons. simpl. rewrite length_app, IH. f_equal.
  unfold matches. destruct (positions rk k); simpl; [done|].
  by rewrite length_fmap.
Qed.


Lemma joined_rows_NoDup lk rk : NoDup rk → joined_rows lk rk = length lk.
Proof.
  intros Hnd. induction lk as [|k lk IH]; [done|].
  rewrite joined_rows_cons, IH. simpl length.
  pose proof (matches_NoDup rk k Hnd). lia.
Qed.

Lemma frame_keys_get on df c :
  get_column on df = Ok c → frame_keys on df = col_keys c.
Proof. rewrite get_column_Ok. unfold frame_keys. by intros ->. Qed.

Lemma join_keys_length c o : length (join_keys c o) = col_len c.
Proof.
  destruct c; simpl; rewrite ?length_fmap; try done.
  destruct (is_floating o); simpl; by rewrite length_fmap.
Qed.

Lemma frame_join_keys_get on df other c o :
  get_column on df = Ok c → get_column on other = Ok o →
  frame_join_keys on df other = join_keys c o.
Proof.
  rewrite !get_column_Ok. unfold frame_join_keys. by intros -> ->.
Qed.

(** Inversion of a merge that returns. *)
Lemma merge_Ok l r on m :
  merge l r on = Ok m →
  ∃ lk rk,
    get_column on l = Ok lk ∧ get_column on r = Ok rk
    ∧ let ix := left_join_indexer (join_keys lk rk) (join_keys rk lk) in
      m = mkFrame (length ix)
            (((λ nc, (suffixed on (labels r) "_x" nc.1,
                      take_col nc.2 ((λ p, Some p.1) <$> ix))) <$> columns l)
             ++ ((λ nc, (suffixed on (labels l) "_y" nc.1, take_col nc.2 (snd <$> ix)))
                   <$> filter (λ nc, nc.1 ≠ on) (columns r))).
Proof.
  unfold merge. intros H. inv_bind H as rk Hrk. inv_bind H as lk Hlk.
  destruct (merge_keys_refused _ _); [discriminate|].
  destruct (_ || _); [discriminate|]. injection H as <-.
  by exists lk, rk.
Qed.

Lemma merge_nrows l r on m :
  merge l r on = Ok m →
  nrows m = joined_rows (frame_join_keys on l r) (frame_join_keys on r l).
Proof.
  intros (lk & rk & Hlk & Hrk & ->)%merge_Ok. simpl.
  rewrite (frame_join_keys_get _ _ _ _ _ Hlk Hrk),
    (frame_join_keys_get _ _ _ _ _ Hrk Hlk).
  apply left_join_from_length.
Qed.

Lemma merge_wf l r on m : merge l r on = Ok m → wf_frame m.
Proof.
  intros (lk & rk & Hlk & Hrk & ->)%merge_Ok. unfold wf_frame. simpl.
  apply Forall_app. split; apply Forall_fmap, Forall_forall; intros [n c] _; simpl;
    rewrite col_len_take, length_fmap; done.
Qed.

Lemma wf_frame_keys on df c :
  wf_frame df → get_column on df = Ok c → col_len c = nrows df.
Proof.
  unfold wf_frame. rewrite get_column_Ok. intros Hwf.
  induction Hwf as [|[n c'] cs Hc Hwf IH]; simpl; [done|].
  destruct (decide (n = on)); [by intros [= <-] | done].
Qed.

Lemma col_keys_length c : length (col_keys c) = col_len c.
Proof. destruct c; simpl; by rewrite length_fmap. Qed.

Lemma merge_raises l r on e :
  merge l r on = Raise e →
  e = KeyError on ∨ e = ValueError ∨ e = MergeError.
Proof.
  unfold merge, get_column.
  destruct (assoc on (columns r)); simpl; [|intros [= <-]; by left].
  destruct (assoc on (columns l)); simpl; [|intros [= <-]; by left].
  destruct (merge_keys_refused _ _); [intros [= <-]; right; by left|].
  destruct (_ || _); [intros [= <-]; right; by right | discriminate].
Qed.

Lemma merge_left_rows l r on m :
  wf_frame l → merge l r on = Ok m →
  nrows m = joined_rows (frame_join_keys on l r) (frame_join_keys on r l)
  ∧ length (frame_join_keys on l r) = nrows l.
Proof.
  intros Hwf H. split; [by apply merge_nrows|].
  apply merge_Ok in H as (lk & rk & Hlk & Hrk & _).
  rewrite (frame_join_keys_get _ _ _ _ _ Hlk Hrk), join_keys_length.
  by apply wf_frame_keys with on.
Qed.

(** ** Grouping *)

Lemma group_keys_NoDup ks : NoDup (group_keys ks).
Proof.
  unfold group_keys. rewrite merge_sort_Permutation. apply NoDup_remove_dups.
Qed.

Lemma elem_of_group_keys ks k : k ∈ group_keys ks ↔ k ∈ ks ∧ k ≠ KMissing.
Proof.
  unfold group_keys. rewrite merge_sort_Permutation, elem_of_remove_dups.
  rewrite list_elem_of_filter. tauto.
Qed.

Lemma group_values_fmap {A} (f : A → key) (xs : list A) k :
  group_values (f <$> xs) xs k = filter (λ x, f x = k) xs.
Proof.
  unfold group_values. induction xs as [|x xs IH]; [done|].
  rewrite fmap_cons. cbn [zip_with]. rewrite !filter_cons. cbn [fst].
  destruct (decide (f x = k)); [rewrite fmap_cons; cbn [snd]; f_equal|]; apply IH.
Qed.

Lemma first_of_key {A} (f : A → key) (d : A) xs k :
  k ∈ f <$> xs → f (first_of d (f <$> xs) xs k) = k.
Proof.
  unfold first_of. rewrite group_values_fmap.
  intros (x & -> & Hx)%list_elem_of_fmap.
  induction xs as [|y xs IH]; [by apply elem_of_nil in Hx|].
  rewrite filter_cons. destruct (decide (f y = f x)) as [E|E]; [done|].
  apply IH. apply elem_of_cons in Hx as [->|]; [done|done].
Qed.

Lemma firsts_keys {A} (f : A → key) (d : A) xs gk :
  gk ⊆ f <$> xs → f <$> (first_of d (f <$> xs) xs <$> gk) = gk.
Proof.
  intros Hsub. rewrite <-list_fmap_compose.
  rewrite <-(list_fmap_id gk) at 2. apply list_fmap_ext.
  intros i k Hk%list_elem_of_lookup_2. simpl. apply first_of_key. auto.
Qed.

Lemma col_firsts_keys c gk :
  gk ⊆ col_keys c → col_keys (col_firsts c (col_keys c) gk) = gk.
Proof. destruct c; simpl; apply firsts_keys. Qed.

Lemma group_keys_subseteq ks : group_keys ks ⊆ ks.
Proof. intros k. rewrite elem_of_group_keys. tauto. Qed.

Lemma groupby_agg_index df by_ spec g :
  groupby_agg df by_ spec = Ok g →
  index_name g = by_ ∧ col_keys (index g) = group_keys (frame_keys by_ df).
Proof.
  unfold groupby_agg. intros H. inv_bind H. inv_bind H. injection H as <-. simpl.
  rewrite (frame_keys_get _ _ _ E). split; [done|].
  apply col_firsts_keys, group_keys_subseteq.
Qed.

Lemma groupby_mean_index df by_ g :
  groupby_mean df by_ = Ok g →
  index_name g = by_ ∧ col_keys (index g) = group_keys (frame_keys by_ df).
Proof.
  unfold groupby_mean. intros H. inv_bind H. inv_bind H. injection H as <-. simpl.
  rewrite (frame_keys_get _ _ _ E). split; [done|].
  apply col_firsts_keys, group_keys_subseteq.
Qed.

Lemma frame_keys_reset_index g :
  frame_keys (index_name g) (reset_index g) = col_keys (index g).
Proof. unfold frame_keys, reset_index. simpl. by rewrite decide_True. Qed.

Lemma nrows_reset_index g : nrows (reset_index g) = length (col_keys (index g)).
Proof. by rewrite col_keys_length. Qed.

Lemma assoc_set_assoc_ne {A} n n' (a : A) l :
  n ≠ n' → assoc n' (set_assoc n a l) = assoc n' l.
Proof.
  intros Hne. induction l as [|[m b] l IH]; simpl.
  - by rewrite decide_False.
  - destruct (decide (m = n)) as [->|]; simpl.
    + by rewrite !decide_False.
    + destruct (decide (m = n')); [done | apply IH].
Qed.

Lemma assoc_set_assoc_eq {A} n (a : A) l : assoc n (set_assoc n a l) = Some a.
Proof.
  induction l as [|[m b] l IH]; simpl.
  - by rewrite decide_True.
  - destruct (decide (m = n)) as [->|]; simpl.
    + by rewrite decide_True.
    + by rewrite decide_False.
Qed.

Lemma frame_keys_set_column on n c df :
  n ≠ on → frame_keys on (set_column n c df) = frame_keys on df.
Proof. intros Hne. unfold frame_keys, set_column. simpl. by rewrite assoc_set_assoc_ne. Qed.

Lemma get_set_column_ne n n' c df :
  n ≠ n' → get_column n' (set_column n c df) = get_column n' df.
Proof. intros Hne. unfold get_column, set_column. simpl. by rewrite assoc_set_assoc_ne. Qed.

Lemma get_set_column_eq n c df : get_column n (set_column n c df) = Ok c.
Proof. unfold get_column, set_column. simpl. by rewrite assoc_set_assoc_eq. Qed.

Lemma nrows_set_column n c df : nrows (set_column n c df) = nrows df.
Proof. done. Qed.

(** ** A left join on a unique key keeps the left rows as they are *)

Lemma left_join_from_fst i lk rk :
  NoDup rk → (fst <$> left_join_from i lk rk) = seq i (length lk).
Proof.
  intros Hnd. revert i. induction lk as [|k lk IH]; intros i; [done|].
  simpl. rewrite fmap_app, IH. f_equal.
  pose proof (positions_from_NoDup 0 rk k Hnd) as Hle. unfold positions.
  destruct (positions_from 0 rk k) as [|j [|j' js]]; simpl in *; [done|done|lia].
Qed.

Lemma lookup_seq_all {A} (xs : list A) :
  (λ i, xs !! i) <$> seq 0 (length xs) = Some <$> xs.
Proof.
  apply list_eq. intros i. rewrite !list_lookup_fmap.
  destruct (decide (i < length xs)%nat) as [Hlt|Hge].
  - rewrite lookup_seq_lt by done. simpl.
    destruct (lookup_lt_is_Some_2 xs i Hlt) as [x Hx]. by rewrite Hx.
  - rewrite lookup_seq_ge by lia. rewrite lookup_ge_None_2 by lia. done.
Qed.

Lemma cell_at_seq {A} (xs : list A) :
  cell_at xs <$> (Some <$> seq 0 (length xs)) = Some <$> xs.
Proof. rewrite <-list_fmap_compose. apply lookup_seq_all. Qed.

Lemma fmap_cell_at_seq {A B} (g : option A → B) (xs : list A) :
  (λ oi, g (cell_at xs oi)) <$> (Some <$> seq 0 (length xs)) = (λ x, g (Some x)) <$> xs.
Proof.
  rewrite (list_fmap_compose (cell_at xs) g), cell_at_seq.
  by rewrite <-list_fmap_compose.
Qed.

Lemma mapM_cell_at_seq {A} (xs : list A) :
  mapM (cell_at xs) (Some <$> seq 0 (length xs)) = Some xs.
Proof.
  apply mapM_Some. rewrite Forall2_fmap_l.
  apply Forall2_same_length_lookup_2.
  - by rewrite length_seq.
  - intros i j x [-> _]%lookup_seq Hx. simpl. done.
Qed.

Lemma take_col_all c : take_col c (Some <$> seq 0 (col_len c)) = c.
Proof.
  destruct c; simpl.
  - by rewrite (fmap_cell_at_seq (default F64.nan)), list_fmap_id.
  - by rewrite mapM_cell_at_seq.
  - by rewrite mapM_cell_at_seq.
  - by rewrite (fmap_cell_at_seq mjoin), list_fmap_id.
  - by rewrite (fmap_cell_at_seq mjoin), list_fmap_id.
Qed.

Lemma left_join_from_snd i lk rk :
  NoDup rk → (snd <$> left_join_from i lk rk) = lookup_rows lk rk.
Proof.
  intros Hnd. revert i. induction lk as [|k lk IH]; intros i; [done|].
  unfold lookup_rows in *. simpl. rewrite fmap_app, IH. f_equal.
  pose proof (positions_from_NoDup 0 rk k Hnd) as Hle. unfold positions.
  destruct (positions_from 0 rk k) as [|j [|j' js]]; simpl in *; [done|done|lia].
Qed.

Lemma suffixed_key on other suffix : suffixed on other suffix on = on.
Proof. unfold suffixed. rewrite bool_decide_false; [done|]. by intros [? _]. Qed.

Lemma suffixed_absent on other suffix name :
  name ∉ other → suffixed on other suffix name = name.
Proof. intros Hn. unfold suffixed. rewrite bool_decide_false; [done|]. by intros [_ ?]. Qed.

Lemma unique_left_indexer lk rk :
  NoDup rk →
  (λ p : nat * option nat, Some p.1) <$> left_join_indexer lk rk
  = Some <$> seq 0 (length lk).
Proof.
  intros Hnd. unfold left_join_indexer.
  rewrite <-(left_join_from_fst 0 lk rk Hnd). by rewrite <-list_fmap_compose.
Qed.

Lemma merge_unique_columns l r on m :
  wf_frame l → NoDup (frame_join_keys on r l) → merge l r on = Ok m →
  columns m
  = (((λ nc, (suffixed on (labels r) "_x" nc.1, nc.2)) <$> columns l)
     ++ ((λ nc, (suffixed on (labels l) "_y" nc.1,
                 take_col nc.2 (lookup_rows (frame_join_keys on l r)
                                            (frame_join_keys on r l))))
           <$> filter (λ nc, nc.1 ≠ on) (columns r)))%list.
Proof.
  intros Hwf Hnd (lk & rk & Hlk & Hrk & ->)%merge_Ok.
  rewrite (frame_join_keys_get _ _ _ _ _ Hrk Hlk) in *.
  rewrite (frame_join_keys_get _ _ _ _ _ Hlk Hrk).
  simpl. rewrite unique_left_indexer by done.
  unfold left_join_indexer. rewrite left_join_from_snd by done.
  f_equal. apply Forall_fmap_ext_1.
  eapply Forall_impl; [exact Hwf|]. intros [n c] Hc. simpl in *. f_equal.
  rewrite join_keys_length, (wf_frame_keys _ _ _ Hwf Hlk), <-Hc.
  apply take_col_all.
Qed.

Lemma merge_first_column l r on m c rest :
  columns l = (on, c) :: rest →
  NoDup (frame_join_keys on r l) →
  merge l r on = Ok m →
  ∃ rest', columns m = (on, c) :: rest'.
Proof.
  intros Hl Hnd (lk & rk & Hlk & Hrk & ->)%merge_Ok.
  assert (lk = c) as ->.
  { apply get_column_Ok in Hlk. rewrite Hl in Hlk. simpl in Hlk.
    rewrite decide_True in Hlk by done. congruence. }
  rewrite (frame_join_keys_get _ _ _ _ _ Hrk Hlk) in Hnd.
  simpl. rewrite Hl. simpl. eexists. f_equal. f_equal.
  - apply suffixed_key.
  - rewrite unique_left_indexer by done.
    rewrite join_keys_length. apply take_col_all.
Qed.

(** The key column of the result is the key column of the left frame,
    when no label becomes the key's label by getting the suffix. *)
Lemma assoc_relabel {A} (g : string → string) on (l : list (string * A)) :
  (∀ n, g n = on ↔ n = on) →
  assoc on ((λ nc, (g nc.1, nc.2)) <$> l) = assoc on l.
Proof.
  intros Hg. induction l as [|[n a] l IH]; simpl; [done|].
  destruct (decide (n = on)) as [->|Hne].
  - by rewrite decide_True by (by apply Hg).
  - rewrite decide_False by (by rewrite Hg). apply IH.
Qed.

Lemma assoc_app_Some {A} on (l1 l2 : list (string * A)) a :
  assoc on l1 = Some a → assoc on (l1 ++ l2) = Some a.
Proof.
  induction l1 as [|[n b] l1 IH]; simpl; [done|].
  destruct (decide (n = on)); [done | apply IH].
Qed.

Lemma merge_key_column l r on m :
  (∀ name, name +:+ "_x" ≠ on) →
  wf_frame l → NoDup (frame_join_keys on r l) → merge l r on = Ok m →
  assoc on (columns m) = assoc on (columns l).
Proof.
  intros Hon Hwf Hnd H.
  rewrite (merge_unique_columns _ _ _ _ Hwf Hnd H).
  apply merge_Ok in H as (lk & rk & Hlk & _).
  apply get_column_Ok in Hlk. rewrite Hlk.
  apply assoc_app_Some. rewrite assoc_relabel; [done|].
  intros n. split; [|intros ->; apply suffixed_key].
  unfold suffixed. destruct (bool_decide _); [|done].
  intros Hn. by apply Hon in Hn.
Qed.

Lemma frame_join_keys_merge l r on m :
  (∀ name, name +:+ "_x" ≠ on) →
  wf_frame l → NoDup (frame_join_keys on r l) → merge l r on = Ok m →
  ∀ f, frame_join_keys on f m = frame_join_keys on f l
       ∧ frame_join_keys on m f = frame_join_keys on l f.
Proof.
  intros Hon Hwf Hnd H f. unfold frame_join_keys.
  by rewrite (merge_key_column _ _ _ _ Hon Hwf Hnd H).
Qed.

Lemma client_key_not_suffixed_x name : name +:+ "_x" ≠ "SK_ID_CURR".
Proof.
  intros H.
  repeat (destruct name as [|? name]; simpl in H; [discriminate H|];
          injection H as _ H).
  destruct name; discriminate H.
Qed.

Lemma client_key_not_suffixed_y name : name +:+ "_y" ≠ "SK_ID_CURR".
Proof.
  intros H.
  repeat (destruct name as [|? name]; simpl in H; [discriminate H|];
          injection H as _ H).
  destruct name; discriminate H.
Qed.

(** ** The feature tables *)

Lemma reset_index_relabel {L} (f : L → string) (g : Grouped L) by_ :
  index_name g = by_ →
  ∃ rest, columns (reset_index (relabel f g)) = (by_, index g) :: rest
          ∧ nrows (reset_index (relabel f g)) = length (col_keys (index g)).
Proof.
  intros <-. eexists. split; [reflexivity|]. simpl. by rewrite col_keys_length.
Qed.

Lemma frame_keys_first on c rest df :
  columns df = (on, c) :: rest → frame_keys on df = col_keys c.
Proof. unfold frame_keys. intros ->. simpl. by rewrite decide_True. Qed.

Lemma columns_set_column_first on c rest n c' df :
  n ≠ on → columns df = (on, c) :: rest →
  ∃ rest', columns (set_column n c' df) = (on, c) :: rest'.
Proof.
  intros Hne Hdf. unfold set_column. simpl. rewrite Hdf. simpl.
  rewrite decide_False by done. eauto.
Qed.

Lemma previous_applications_grouped path prev ft :
  previous_application_csv path = Some prev →
  preprocess_previous_applications path = Ok ft →
  grouped_from prev ft.
Proof.
  unfold preprocess_previous_applications. intros -> H.
  inv_bind H. injection E as <-.
  inv_bind H as g Hg. apply groupby_agg_index in Hg as [Hn Hk].
  destruct (reset_index_relabel
              (λ col : string * string, "PREV_" +:+ upper (col.1 +:+ "_" +:+ col.2))
              g _ Hn) as (rest & Hc & Hr).
  inv_bind H. inv_bind H. inv_bind H. injection H as <-.
  unfold grouped_from.
  rewrite !frame_keys_set_column by done. rewrite !nrows_set_column.
  rewrite (frame_keys_first _ _ _ _ Hc). by rewrite Hr.
Qed.

Lemma installments_grouped path inst ft :
  installments_payments_csv path = Some inst →
  preprocess_installments path = Ok ft →
  grouped_from inst ft.
Proof.
  unfold preprocess_installments. intros -> H.
  inv_bind H. injection E as <-.
  do 8 inv_bind H.
  inv_bind H as g Hg. apply groupby_agg_index in Hg as [Hn Hk].
  injection H as <-.
  destruct (reset_index_relabel
              (λ col : string * string, "INSTALL_" +:+ upper (col.1 +:+ "_" +:+ col.2))
              g _ Hn) as (rest & Hc & Hr).
  unfold grouped_from.
  rewrite (frame_keys_first _ _ _ _ Hc), Hr, Hk.
  by rewrite !frame_keys_set_column by done.
Qed.

(** The client identifiers that the balance table is grouped by are
    those of the bureau records, selected by the join on the record
    identifier: they have the dtype of the bureau column, or the one it
    is promoted to. *)
Lemma groupby_agg_index_column df by_ spec g :
  groupby_agg df by_ spec = Ok g →
  ∃ kc, get_column by_ df = Ok kc
        ∧ index g = col_firsts kc (col_keys kc) (group_keys (col_keys kc)).
Proof.
  unfold groupby_agg. intros H. inv_bind H as kc Hkc. inv_bind H as cols Hcols.
  injection H as <-. by exists kc.
Qed.

Lemma groupby_mean_index_column df by_ g :
  groupby_mean df by_ = Ok g →
  ∃ kc, get_column by_ df = Ok kc
        ∧ index g = col_firsts kc (col_keys kc) (group_keys (col_keys kc)).
Proof.
  unfold groupby_mean. intros H. inv_bind H as kc Hkc. inv_bind H as cols Hcols.
  injection H as <-. by exists kc.
Qed.

Lemma col_firsts_floating c ks gk :
  is_floating (col_firsts c ks gk) = is_floating c.
Proof. by destruct c. Qed.

Lemma col_firsts_Int64 c ks gk zs :
  col_firsts c ks gk = Int64 zs → ∃ xs, c = Int64 xs.
Proof. destruct c; simpl; intros [=]. by eexists. Qed.

Lemma take_col_Int64 c idx zs : take_col c idx = Int64 zs → ∃ xs, c = Int64 xs.
Proof.
  destruct c as [xs|xs|xs|xs|xs]; simpl; try discriminate.
  - by eexists.
  - by destruct (mapM _ _).
Qed.

Lemma join_keys_not_cast c o :
  (∀ zs, c = Int64 zs → is_floating o = false) → join_keys c o = col_keys c.
Proof.
  destruct c as [xs|xs|xs|xs|xs]; simpl; try done.
  intros H. by rewrite (H xs eq_refl).
Qed.

Lemma assoc_None {A} n (l : list (string * A)) : n ∉ l.*1 → assoc n l = None.
Proof.
  induction l as [|[m a] l IH]; simpl; [done|].
  intros [Hne Hn]%not_elem_of_cons. rewrite decide_False by congruence.
  by apply IH.
Qed.

Lemma bureau_balance_client_column bureau bb_agg ids bureau_bb dropped kc kc' :
  get_column "SK_ID_CURR" bureau = Ok kc →
  select_columns ["SK_ID_BUREAU"; "SK_ID_CURR"] bureau = Ok ids →
  merge ids bb_agg "SK_ID_BUREAU" = Ok bureau_bb →
  drop_column "SK_ID_BUREAU" bureau_bb = Ok dropped →
  get_column "SK_ID_CURR" dropped = Ok kc' →
  ∃ li, kc' = take_col kc li.
Proof.
  intros Hkc Hids Hm Hdrop Hkc'.
  unfold select_columns in Hids. inv_bind Hids as cs Hcs. injection Hids as <-.
  simpl in Hcs. inv_bind Hcs as p1 Hp1. inv_bind Hp1 as c1 Hc1.
  injection Hp1 as <-. inv_bind Hcs as rest Hrest. injection Hcs as <-.
  inv_bind Hrest as p2 Hp2. inv_bind Hp2 as c2 Hc2. injection Hp2 as <-.
  injection Hrest as <-.
  rewrite Hkc in Hc2. injection Hc2 as <-.
  apply merge_Ok in Hm as (lk & rk & _ & _ & ->). cbv zeta in *.
  set (li := (λ p : nat * option nat, Some p.1) <$> _) in *.
  set (ri := snd <$> _) in *.
  exists li.
  unfold drop_column in Hdrop. destruct (assoc _ _); [|discriminate].
  injection Hdrop as <-. apply get_column_Ok in Hkc'. simpl in Hkc'.
  rewrite suffixed_key in Hkc'.
  rewrite filter_cons_False in Hkc' by (by intros ?).
  rewrite filter_cons_True in Hkc'
    by (unfold suffixed; simpl; by destruct (bool_decide _)).
  simpl in Hkc'.
  destruct (decide (suffixed "SK_ID_BUREAU" (labels bb_agg) "_x" "SK_ID_CURR"
                    = "SK_ID_CURR")) as [_|_]; [congruence|].
  rewrite assoc_None in Hkc'; [discriminate|].
  intros Hin. apply list_elem_of_fmap in Hin as ([n cn] & Hn & Hin).
  apply list_elem_of_filter in Hin as [_ Hin].
  apply list_elem_of_fmap in Hin as ([n0 cn0] & [= -> _] & _).
  simpl in Hn. unfold suffixed, labels in Hn. simpl in Hn.
  destruct (bool_decide _) eqn:Hb.
  - symmetry in Hn. by apply client_key_not_suffixed_y in Hn.
  - apply bool_decide_eq_false in Hb. apply Hb. subst n0.
    split; [done|]. right. left.
Qed.

Lemma bureau_balance_join_keys
    bureau spec g bb_agg ids bureau_bb dropped gm l rest :
  groupby_agg bureau "SK_ID_CURR" spec = Ok g →
  select_columns ["SK_ID_BUREAU"; "SK_ID_CURR"] bureau = Ok ids →
  merge ids bb_agg "SK_ID_BUREAU" = Ok bureau_bb →
  drop_column "SK_ID_BUREAU" bureau_bb = Ok dropped →
  groupby_mean dropped "SK_ID_CURR" = Ok gm →
  columns l = ("SK_ID_CURR", index g) :: rest →
  NoDup (frame_join_keys "SK_ID_CURR" (reset_index gm) l).
Proof.
  intros Hg E3 E4 E5 Hgm Hl.
  destruct (groupby_agg_index_column _ _ _ _ Hg) as (kc & Hkc & Hidx).
  destruct (groupby_mean_index_column _ _ _ Hgm) as (kc' & Hkc' & Hidx').
  destruct (bureau_balance_client_column _ _ _ _ _ _ _ Hkc E3 E4 E5 Hkc')
    as (li & ->).
  apply groupby_mean_index in Hgm as [Hn' Hk'].
  unfold frame_join_keys. rewrite Hl. simpl. rewrite Hn'. simpl.
  rewrite join_keys_not_cast.
  - rewrite Hk'. apply group_keys_NoDup.
  - intros zs Hzs. rewrite Hidx' in Hzs.
    apply col_firsts_Int64 in Hzs as (xs & Hxs).
    apply take_col_Int64 in Hxs as (xs' & ->).
    by rewrite Hidx.
Qed.

Lemma bureau_first_column path bureau ft :
  bureau_csv path = Some bureau →
  preprocess_bureau_data path = Ok ft →
  ∃ kc rest,
    get_column "SK_ID_CURR" bureau = Ok kc
    ∧ columns ft
      = ("SK_ID_CURR", col_firsts kc (col_keys kc) (group_keys (col_keys kc)))
        :: rest
    ∧ nrows ft = length (group_keys (col_keys kc)).
Proof.
  unfold preprocess_bureau_data. intros -> H.
  inv_bind H. injection E as <-.
  inv_bind H as bb Hbb. clear Hbb.
  inv_bind H as g Hg.
  destruct (groupby_agg_index_column _ _ _ _ Hg) as (kc & Hkc & Hidx).
  apply groupby_agg_index in Hg as [Hn Hk].
  destruct (reset_index_relabel
              (λ col : string * string, col.1 +:+ "_" +:+ col.2) g _ Hn)
    as (rest & Hc & Hr).
  inv_bind H as debt Hdebt. inv_bind H as credit Hcredit.
  inv_bind H as ratio Hratio. clear Hdebt Hcredit Hratio.
  assert ("DEBT_CREDIT_RATIO" ≠ "SK_ID_CURR") as Hne by done.
  destruct (columns_set_column_first _ _ _ _ (Float64 ratio) _ Hne Hc)
    as (rest1 & Hc1).
  destruct (columns_set_column_first _ _ _ _
              (Float64 (fillna_floats F64.zero ratio)) _ Hne Hc1)
    as (rest2 & Hc2).
  inv_bind H as bb_onehot E1. inv_bind H as bb_agg E2. inv_bind H as ids E3.
  inv_bind H as bureau_bb E4. inv_bind H as dropped E5. clear E1 E2.
  inv_bind H as bb_final E6. inv_bind E6 as gm Hgm. subst bb_final.
  destruct (groupby_mean_index_column _ _ _ Hgm) as (kc' & Hkc' & Hidx').
  destruct (bureau_balance_client_column _ _ _ _ _ _ _ Hkc E3 E4 E5 Hkc')
    as (li & ->).
  apply groupby_mean_index in Hgm as [Hn' Hk'].
  assert (NoDup (frame_join_keys "SK_ID_CURR" (reset_index gm)
                   (set_column "DEBT_CREDIT_RATIO"
                      (Float64 (fillna_floats F64.zero ratio))
                      (set_column "DEBT_CREDIT_RATIO" (Float64 ratio)
                         (reset_index
                            (relabel (λ col : string * string,
                                        col.1 +:+ "_" +:+ col.2) g))))))
    as Hnd.
  { unfold frame_join_keys. rewrite Hc2. simpl. rewrite Hn'. simpl.
    rewrite join_keys_not_cast.
    - rewrite Hk'. apply group_keys_NoDup.
    - intros zs Hzs. rewrite Hidx' in Hzs.
      apply col_firsts_Int64 in Hzs as (xs & Hxs).
      apply take_col_Int64 in Hxs as (xs' & ->).
      by rewrite Hidx. }
  destruct (merge_first_column _ _ _ _ _ _ Hc2 Hnd H) as (rest' & Hm).
  exists kc, rest'. split; [done|]. rewrite <-Hidx. split; [done|].
  rewrite (merge_nrows _ _ _ _ H), joined_rows_NoDup by done.
  unfold frame_join_keys. rewrite Hc2. simpl. rewrite Hn'. simpl.
  rewrite join_keys_length, <-col_keys_length, Hk.
  by rewrite (frame_keys_get _ _ _ Hkc).
Qed.

Lemma col_keys_firsts kc :
  col_keys (col_firsts kc (col_keys kc) (group_keys (col_keys kc)))
  = group_keys (col_keys kc).
Proof. apply col_firsts_keys, group_keys_subseteq. Qed.

Lemma bureau_grouped path bureau ft :
  bureau_csv path = Some bureau →
  preprocess_bureau_data path = Ok ft →
  grouped_from bureau ft.
Proof.
  intros Hb H.
  destruct (bureau_first_column _ _ _ Hb H) as (kc & rest & Hkc & Hc & Hn).
  unfold grouped_from.
  rewrite (frame_keys_first _ _ _ _ Hc), (frame_keys_get _ _ _ Hkc).
  by rewrite col_keys_firsts.
Qed.

Lemma bureau_keyed path bureau ft :
  bureau_csv path = Some bureau →
  preprocess_bureau_data path = Ok ft →
  keyed_by bureau ft.
Proof.
  intros Hb H.
  destruct (bureau_first_column _ _ _ Hb H) as (kc & rest & Hkc & Hc & Hn).
  exists kc. split; [done|]. apply get_column_Ok. rewrite Hc. reflexivity.
Qed.

Lemma get_column_reset_index (g : Grouped string) :
  get_column (index_name g) (reset_index g) = Ok (index g).
Proof. unfold get_column. simpl. by rewrite decide_True. Qed.

Lemma previous_applications_keyed path prev ft :
  previous_application_csv path = Some prev →
  preprocess_previous_applications path = Ok ft →
  keyed_by prev ft.
Proof.
  unfold preprocess_previous_applications. intros -> H.
  inv_bind H. injection E as <-.
  inv_bind H as g Hg.
  destruct (groupby_agg_index_column _ _ _ _ Hg) as (kc & Hkc & Hidx).
  apply groupby_agg_index in Hg as [Hn Hk].
  inv_bind H. inv_bind H. inv_bind H. injection H as <-.
  exists kc. split; [done|].
  rewrite !get_set_column_ne by done. rewrite <-Hidx, <-Hn.
  apply (get_column_reset_index (relabel _ g)).
Qed.

Lemma installments_keyed path inst ft :
  installments_payments_csv path = Some inst →
  preprocess_installments path = Ok ft →
  keyed_by inst ft.
Proof.
  unfold preprocess_installments. intros -> H.
  inv_bind H. injection E as <-.
  do 8 inv_bind H.
  inv_bind H as g Hg.
  destruct (groupby_agg_index_column _ _ _ _ Hg) as (kc & Hkc & Hidx).
  apply groupby_agg_index in Hg as [Hn Hk].
  injection H as <-.
  rewrite !get_set_column_ne in Hkc by done.
  exists kc. split; [done|]. rewrite <-Hidx, <-Hn.
  apply (get_column_reset_index (relabel _ g)).
Qed.

(** ** Identifiers that the join compares exactly *)

Lemma exact_key_zero : exact_key 0.
Proof. reflexivity. Qed.

Lemma exact_join_keys c o :
  (is_floating o = true → exact_ids c) → join_keys c o = col_keys c.
Proof.
  destruct c as [xs|xs|xs|xs|xs]; simpl; try done.
  destruct (is_floating o); [|done]. intros H.
  apply Forall_fmap_ext_1. by apply H.
Qed.

Lemma elem_of_group_values {A} ks (xs : list A) k x :
  x ∈ group_values ks xs k → x ∈ xs.
Proof.
  unfold group_values. intros ([k' x'] & -> & Hin)%list_elem_of_fmap.
  apply list_elem_of_filter in Hin as [_ Hin].
  apply list_elem_of_lookup in Hin as [i Hi].
  apply lookup_zip_with_Some in Hi as (? & ? & [= -> ->] & _ & Hx).
  by apply list_elem_of_lookup_2 with i.
Qed.

Lemma exact_ids_firsts kc ks gk :
  exact_ids kc → exact_ids (col_firsts kc ks gk).
Proof.
  destruct kc as [xs|xs|xs|xs|xs]; simpl; try done.
  intros Hxs. apply Forall_fmap, Forall_forall. intros k _. simpl.
  unfold first_of. destruct (group_values ks xs k) as [|x l] eqn:E; simpl.
  - apply exact_key_zero.
  - rewrite Forall_forall in Hxs. apply Hxs.
    apply (elem_of_group_values ks xs k). rewrite E. left.
Qed.

Lemma keyed_join_NoDup input ft app_df :
  keyed_by input ft →
  (∀ ids, get_column "SK_ID_CURR" app_df = Ok ids → is_floating ids = true →
          ∀ c, get_column "SK_ID_CURR" input = Ok c → exact_ids c) →
  NoDup (frame_join_keys "SK_ID_CURR" ft app_df).
Proof.
  intros (kc & Hkc & Hft) Hexact. unfold frame_join_keys.
  apply get_column_Ok in Hft. rewrite Hft.
  destruct (assoc "SK_ID_CURR" (columns app_df)) as [o|] eqn:Ho;
    [|apply NoDup_nil_2].
  rewrite exact_join_keys.
  - rewrite col_keys_firsts. apply group_keys_NoDup.
  - intros Hfl. apply exact_ids_firsts.
    apply (Hexact o); [by apply get_column_Ok | done | done].
Qed.

Lemma grouped_from_NoDup input ft :
  grouped_from input ft → NoDup (frame_keys "SK_ID_CURR" ft).
Proof. intros [-> _]. apply group_keys_NoDup. Qed.

(** ** Row counts along the pipeline *)

Lemma merge_unique_rows l r on m :
  wf_frame l → NoDup (frame_join_keys on r l) → merge l r on = Ok m →
  nrows m = nrows l.
Proof.
  intros Hwf Hnd H. destruct (merge_left_rows _ _ _ _ Hwf H) as [-> <-].
  by apply joined_rows_NoDup.
Qed.

(** The feature tables are compared with the key column of the
    application table all along: the merges leave it as it is. *)
Lemma unique_features_merge app_df f m feature_dfs :
  wf_frame app_df →
  NoDup (frame_join_keys "SK_ID_CURR" f app_df) →
  merge app_df f "SK_ID_CURR" = Ok m →
  Forall (λ f, NoDup (frame_join_keys "SK_ID_CURR" f app_df)) feature_dfs →
  Forall (λ f, NoDup (frame_join_keys "SK_ID_CURR" f m)) feature_dfs.
Proof.
  intros Hwf Hf Hm Hall. eapply Forall_impl; [exact Hall|]. intros f' Hf'.
  simpl. by rewrite (proj1 (frame_join_keys_merge _ _ _ _ client_key_not_suffixed_x
                       Hwf Hf Hm f')).
Qed.

Lemma merge_all_features_rows app_df feature_dfs out :
  wf_frame app_df →
  Forall (λ f, NoDup (frame_join_keys "SK_ID_CURR" f app_df)) feature_dfs →
  merge_all_features app_df feature_dfs = Ok out →
  nrows out = nrows app_df.
Proof.
  revert app_df. induction feature_dfs as [|f fs IH];
    intros app_df Hwf Hall H; simpl in H.
  - by injection H as <-.
  - apply Forall_cons in Hall as [Hf Hall]. inv_bind H as m Hm.
    rewrite (IH m (merge_wf _ _ _ _ Hm)
               (unique_features_merge _ _ _ _ Hwf Hf Hm Hall) H).
    by apply merge_unique_rows with f "SK_ID_CURR".
Qed.

Lemma nrows_preprocess_final df is_train :
  nrows (preprocess_final df is_train) = nrows df.
Proof. done. Qed.

Lemma read_csv_Ok file name df : read_csv file name = Ok df → file = Some df.
Proof. destruct file; simpl; congruence. Qed.

(** The steps of a run of [prepare_dataset] that returns; the feature
    tables have no key twice as the join with the application table
    compares them. *)
Lemma prepare_dataset_features path is_train app_df out :
  load_application_data path is_train = Ok app_df →
  identifiers_compared_exactly app_df path →
  prepare_dataset path is_train = Ok out →
  ∃ bureau_df prev_app_df inst_df full_df,
    preprocess_bureau_data path = Ok bureau_df
    ∧ preprocess_previous_applications path = Ok prev_app_df
    ∧ preprocess_installments path = Ok inst_df
    ∧ merge_all_features app_df [bureau_df; prev_app_df; inst_df] = Ok full_df
    ∧ out = preprocess_final full_df is_train
    ∧ Forall (λ f, NoDup (frame_join_keys "SK_ID_CURR" f app_df))
             [bureau_df; prev_app_df; inst_df].
Proof.
  intros Hload Hexact H. unfold prepare_dataset in H. rewrite Hload in H.
  inv_bind H as app Happ. injection Happ as <-.
  inv_bind H as bureau_df Hb. inv_bind H as prev_app_df Hp.
  inv_bind H as inst_df Hi. inv_bind H as full_df Hfull. injection H as <-.
  exists bureau_df, prev_app_df, inst_df, full_df. split_and!; try done.
  assert (∃ b, bureau_csv path = Some b) as [b Hb'].
  { unfold preprocess_bureau_data in Hb. inv_bind Hb as b Hb'.
    apply read_csv_Ok in Hb'. eauto. }
  assert (∃ p, previous_application_csv path = Some p) as [p Hp'].
  { unfold preprocess_previous_applications in Hp. inv_bind Hp as p Hp'.
    apply read_csv_Ok in Hp'. eauto. }
  assert (∃ i, installments_payments_csv path = Some i) as [i Hi'].
  { unfold preprocess_installments in Hi. inv_bind Hi as i Hi'.
    apply read_csv_Ok in Hi'. eauto. }
  repeat apply Forall_cons_2; [| | |apply Forall_nil_2].
  - apply keyed_join_NoDup with b; [by apply bureau_keyed with path|].
    intros ids Hids Hfl c Hc. apply (Hexact ids Hids Hfl b c); [|done].
    rewrite Hb'. left.
  - apply keyed_join_NoDup with p;
      [by apply previous_applications_keyed with path|].
    intros ids Hids Hfl c Hc. apply (Hexact ids Hids Hfl p c); [|done].
    rewrite Hp'. right. left.
  - apply keyed_join_NoDup with i; [by apply installments_keyed with path|].
    intros ids Hids Hfl c Hc. apply (Hexact ids Hids Hfl i c); [|done].
    rewrite Hi'. right. right. left.
Qed.

Lemma prepare_dataset_rows path is_train app_df out :
  wf_frame app_df →
  load_application_data path is_train = Ok app_df →
  identifiers_compared_exactly app_df path →
  prepare_dataset path is_train = Ok out →
  nrows out = nrows app_df.
Proof.
  intros Hwf Hload Hexact H.
  destruct (prepare_dataset_features _ _ _ _ Hload Hexact H)
    as (b & p & i & full & _ & _ & _ & Hfull & -> & Hnd).
  rewrite nrows_preprocess_final.
  by apply merge_all_features_rows with [b; p; i].
Qed.

(** ** The final cleaning, column by column *)

Lemma columns_preprocess_final df is_train :
  columns (preprocess_final df is_train)
  = (λ nc, (nc.1, clean_column nc.2)) <$> columns df.
Proof.
  unfold preprocess_final, encode_binary_columns, fill_numeric_columns. simpl.
  by rewrite <-list_fmap_compose.
Qed.

Lemma is_nan_eq x : F64.is_nan x = true → x = F64.nan.
Proof. by destruct x. Qed.

Lemma fillna_floats_nan xs : fillna_floats F64.nan xs = xs.
Proof.
  unfold fillna_floats. rewrite <-(list_fmap_id xs) at 2.
  apply list_fmap_ext. intros _ x _. simpl.
  destruct (F64.is_nan x) eqn:E; [by apply is_nan_eq in E | done].
Qed.

Lemma fillna_floats_present v xs :
  Forall (λ x, F64.is_nan x = false) xs → fillna_floats v xs = xs.
Proof.
  intros Hxs. unfold fillna_floats. rewrite <-(list_fmap_id xs) at 2.
  apply Forall_fmap_ext_1. eapply Forall_impl; [done|].
  intros x Hx. simpl. by rewrite Hx.
Qed.

Lemma fillna_floats_no_nan v xs :
  F64.is_nan v = false → Forall (λ x, F64.is_nan x = false) (fillna_floats v xs).
Proof.
  intros Hv. apply Forall_fmap, Forall_forall. intros x _. simpl.
  by destruct (F64.is_nan x) eqn:E.
Qed.

Lemma fill_nullable_present (v : float) (xs : list (option float)) :
  Forall is_Some xs →
  (λ o, match o with None => Some v | _ => o end) <$> xs = xs.
Proof.
  intros Hxs. rewrite <-(list_fmap_id xs) at 2.
  apply Forall_fmap_ext_1. eapply Forall_impl; [done|].
  by intros o [x ->].
Qed.

Lemma fill_nullable_is_Some (v : float) (xs : list (option float)) :
  Forall is_Some ((λ o, match o with None => Some v | _ => o end) <$> xs).
Proof. apply Forall_fmap, Forall_forall. intros [x|] _; simpl; eauto. Qed.

Lemma fill_numeric_twice c : fill_numeric (fill_numeric c) = fill_numeric c.
Proof.
  destruct c as [xs|xs|xs|xs|xs]; unfold fill_numeric; simpl; try done.
  - destruct (F64.is_nan (median xs)) eqn:E.
    + apply is_nan_eq in E. rewrite E, !fillna_floats_nan. by rewrite E, fillna_floats_nan.
    + f_equal. apply fillna_floats_present. by apply fillna_floats_no_nan.
  - destruct (F64.is_nan (median (present_floats xs))) eqn:E; simpl.
    + by rewrite E.
    + match goal with
      | |- context [F64.is_nan ?m] => destruct (F64.is_nan m)
      end; [done|]. f_equal.
      apply fill_nullable_present, fill_nullable_is_Some.
Qed.

Lemma encode_binary_number c :
  is_number_dtype c = true → encode_binary c = c.
Proof. by destruct c. Qed.

Lemma is_number_fill_numeric c :
  is_number_dtype (fill_numeric c) = is_number_dtype c.
Proof.
  destruct c as [xs|xs|xs|xs|xs]; unfold fill_numeric; simpl; try done.
  by destruct (F64.is_nan _).
Qed.

Lemma fill_numeric_other c : is_number_dtype c = false → fill_numeric c = c.
Proof. unfold fill_numeric. by intros ->. Qed.

Lemma encode_binary_twice c : encode_binary (encode_binary c) = encode_binary c.
Proof.
  destruct c as [xs|xs|xs|xs|xs]; simpl; try done.
  case_bool_decide as E; simpl; [done|]. by rewrite bool_decide_false.
Qed.

Lemma fill_numeric_encode_binary c :
  is_number_dtype c = false → fill_numeric (encode_binary c) = encode_binary c.
Proof.
  destruct c as [xs|xs|xs|xs|xs]; try done; intros _; simpl.
  case_bool_decide; done.
Qed.

Lemma clean_column_twice c : clean_column (clean_column c) = clean_column c.
Proof.
  unfold clean_column. destruct (is_number_dtype c) eqn:E.
  - rewrite (encode_binary_number (fill_numeric c))
      by (by rewrite is_number_fill_numeric).
    rewrite fill_numeric_twice.
    apply encode_binary_number. by rewrite is_number_fill_numeric.
  - rewrite (fill_numeric_other c E).
    rewrite (fill_numeric_encode_binary c E). apply encode_binary_twice.
Qed.

Lemma preprocess_final_twice df t t' :
  preprocess_final (preprocess_final df t) t' = preprocess_final df t.
Proof.
  destruct (preprocess_final df t) as [n cs] eqn:E.
  assert (cs = columns (preprocess_final df t)) as Hcs by (by rewrite E).
  assert (n = nrows (preprocess_final df t)) as Hn by (by rewrite E).
  rewrite columns_preprocess_final in Hcs.
  unfold preprocess_final, encode_binary_columns, fill_numeric_columns. simpl.
  f_equal. rewrite <-list_fmap_compose. subst cs.
  rewrite <-list_fmap_compose. apply list_fmap_ext. intros _ [name c] _. simpl.
  f_equal. apply clean_column_twice.
Qed.

(** ** Imputation *)

Lemma cells_fill_numeric c :
  is_number_dtype c = true → F64.is_nan (col_median c) = false →
  cells (fill_numeric c) = filled (col_median c) <$> cells c.
Proof.
  intros Hnum Hm. unfold fill_numeric. rewrite Hnum.
  destruct c as [xs|xs|xs|xs|xs]; try done; simpl in *.
  - unfold fillna_floats. rewrite <-!list_fmap_compose.
    apply list_fmap_ext. intros _ x _. simpl.
    destruct (F64.is_nan x) eqn:Ex; simpl; by rewrite ?Hm, ?Ex.
  - rewrite <-list_fmap_compose. by apply list_fmap_ext.
  - rewrite Hm. simpl. rewrite <-!list_fmap_compose.
    apply list_fmap_ext. by intros _ [x|] _.
Qed.

Lemma filled_present v (os : list (option scalar)) : None ∉ filled v <$> os.
Proof. intros ([s|] & E & _)%list_elem_of_fmap; discriminate. Qed.

(** ** Encoding of the two-valued columns *)

Section first_seen.
Context {A : Type} `{EqDecision A}.

Lemma first_seen_unfold (xs : list A) : first_seen xs = foldl seen_step [] xs.
Proof. done. Qed.

Lemma seen_from_spec (xs acc : list A) :
  NoDup acc →
  NoDup (foldl seen_step acc xs)
  ∧ (∀ x, x ∈ foldl seen_step acc xs ↔ x ∈ acc ∨ x ∈ xs)
  ∧ ∃ rest, foldl seen_step acc xs = (acc ++ rest)%list.
Proof.
  revert acc. induction xs as [|y xs IH]; intros acc Hnd; simpl.
  - split; [done|]. split.
    + intros x. rewrite elem_of_nil. tauto.
    + exists []. by rewrite app_nil_r.
  - assert (NoDup (seen_step acc y)) as Hnd'.
    { unfold seen_step. destruct (decide (y ∈ acc)); [done|].
      apply NoDup_app. split_and!; [done| |apply NoDup_singleton].
      intros x Hx ->%list_elem_of_singleton. done. }
    destruct (IH _ Hnd') as (H1 & H2 & rest & H3). split; [done|]. split.
    + intros x. rewrite H2, elem_of_cons. unfold seen_step.
      destruct (decide (y ∈ acc)).
      * split; [tauto|]. intros [?|[->|?]]; auto.
      * rewrite elem_of_app, list_elem_of_singleton. tauto.
    + rewrite H3. unfold seen_step. destruct (decide (y ∈ acc)); [eauto|].
      exists (y :: rest). by rewrite <-app_assoc.
Qed.

Lemma first_seen_NoDup (xs : list A) : NoDup (first_seen xs).
Proof. apply (seen_from_spec xs []), NoDup_nil_2. Qed.

Lemma elem_of_first_seen (xs : list A) x : x ∈ first_seen xs ↔ x ∈ xs.
Proof.
  destruct (seen_from_spec xs [] (NoDup_nil_2)) as (_ & H & _).
  rewrite first_seen_unfold, H, elem_of_nil. tauto.
Qed.

Lemma head_first_seen (xs : list A) : head (first_seen xs) = head xs.
Proof.
  destruct xs as [|x xs]; [done|]. rewrite first_seen_unfold. simpl.
  destruct (seen_from_spec xs (seen_step [] x)) as (_ & _ & rest & ->).
  - unfold seen_step. rewrite decide_False by apply not_elem_of_nil.
    apply NoDup_singleton.
  - unfold seen_step. by rewrite decide_False by apply not_elem_of_nil.
Qed.
End first_seen.

Lemma elem_of_present {A} (xs : list (option A)) v : v ∈ present xs ↔ Some v ∈ xs.
Proof.
  unfold present. rewrite list_elem_of_omap. split.
  - intros (o & Ho & E). unfold id in E. by subst o.
  - intros H. by exists (Some v).
Qed.

Lemma factorize_two xs :
  nunique xs = 2%nat →
  ∃ a b, first_seen (present xs) = [a; b] ∧ a ≠ b
    ∧ head (present xs) = Some a
    ∧ encode_binary (Object xs) = Int64 (factorize xs)
    ∧ ∀ i o, xs !! i = Some o →
        factorize xs !! i
        = Some (match o with
                | None => -1
                | Some v => if decide (v = a) then 0 else 1
                end)
        ∧ (o = None ∨ o = Some a ∨ o = Some b).
Proof.
  intros Hn. unfold nunique in Hn.
  destruct (first_seen (present xs)) as [|a [|b [|c l]]] eqn:E; try done.
  exists a, b. split; [done|].
  pose proof (first_seen_NoDup (present xs)) as Hnd. rewrite E in Hnd.
  assert (a ≠ b) as Hab.
  { apply NoDup_cons in Hnd as [Ha _]. intros ->. apply Ha. by left. }
  split; [done|]. split.
  { rewrite <-head_first_seen, E. done. }
  split.
  { simpl. unfold nunique. rewrite E. done. }
  intros i o Hi. unfold factorize. rewrite list_lookup_fmap, Hi, E. simpl.
  destruct o as [v|]; [|split; [done | by left]].
  assert (v = a ∨ v = b) as Hv.
  { assert (v ∈ first_seen (present xs)) as Hin.
    { apply elem_of_first_seen, elem_of_present.
      by apply list_elem_of_lookup_2 with i. }
    rewrite E in Hin. apply elem_of_cons in Hin as [->|Hin]; [by left|].
    apply list_elem_of_singleton in Hin as ->. by right. }
  split; [|destruct Hv as [->| ->]; auto].
  unfold code_of. simpl.
  destruct (decide (a = v)) as [->|Hne]; simpl.
  - by rewrite decide_True.
  - destruct Hv as [->| ->]; [done|].
    rewrite decide_True by done. simpl. by rewrite decide_False.
Qed.

(** ** Grouped tables are well formed *)

Lemma mapR_Ok {A B} (f : A → result B) l ys :
  mapR f l = Ok ys → Forall2 (λ x y, f x = Ok y) l ys.
Proof.
  revert ys. induction l as [|x l IH]; intros ys H; simpl in H.
  - injection H as <-. constructor.
  - inv_bind H as y Hy. inv_bind H as ys' Hys. injection H as <-.
    constructor; auto.
Qed.

Lemma as_floats_length c xs : as_floats c = Ok xs → length xs = col_len c.
Proof.
  destruct c as [ys|ys|ys|[|o ys]|ys]; simpl; intros [= <-];
    by rewrite ?length_fmap.
Qed.

Lemma agg_column_length fn c ks gk a :
  agg_column fn c ks gk = Ok a → col_len a = length gk.
Proof.
  destruct fn, c; simpl; intros H;
    try (by destruct (decide (gk = [])) as [->|];
           [rewrite bool_decide_true in H by done; injection H as <-
           |rewrite bool_decide_false in H by done]);
    try (inv_bind H); try discriminate; injection H as <-; simpl;
    by rewrite length_fmap.
Qed.

Lemma col_len_firsts c ks gk : col_len (col_firsts c ks gk) = length gk.
Proof. destruct c; simpl; by rewrite length_fmap. Qed.

Lemma groupby_agg_wf (f : string * string → string) df by_ spec g :
  groupby_agg df by_ spec = Ok g → wf_frame (reset_index (relabel f g)).
Proof.
  unfold groupby_agg. intros H. inv_bind H as kc Hkc. inv_bind H as cols Hcols.
  injection H as <-. unfold wf_frame. simpl.
  constructor; [done|]. rewrite col_len_firsts.
  apply Forall_fmap, Forall_concat.
  apply mapR_Ok in Hcols. induction Hcols as [|cf col spec' cols' Hcf _ IH];
    constructor; [|done].
  inv_bind Hcf as c Hc. apply mapR_Ok in Hcf.
  clear -Hcf. induction Hcf as [|fn lc fns lcs Hfn _ IH]; constructor; [|done].
  inv_bind Hfn as a Ha. injection Hfn as <-. simpl.
  by apply agg_column_length in Ha.
Qed.

Lemma wf_set_column n c df :
  wf_frame df → col_len c = nrows df → wf_frame (set_column n c df).
Proof.
  unfold wf_frame, set_column. simpl. generalize (nrows df). intros k Hwf Hc.
  induction Hwf as [|[m b] l Hb Hwf IH]; simpl.
  - by constructor.
  - destruct (decide (m = n)); constructor; auto.
Qed.

(** ** Division by a zero sum *)

Lemma div_by_zero x y :
  F64.is_zero y = true →
  F64.is_nan (F64.div x y) = true ∨ F64.is_inf (F64.div x y) = true.
Proof. destruct x, y; simpl; try discriminate; auto. Qed.

Lemma astype_replace_inf_lookup xs i r :
  astype_Float64 (replace_inf xs) !! i = Some r →
  ∃ x, xs !! i = Some x
       ∧ r = (if F64.is_inf x || F64.is_nan x then None else Some x).
Proof.
  unfold astype_Float64, replace_inf. rewrite <-list_fmap_compose, list_lookup_fmap.
  destruct (xs !! i) as [x|]; simpl; [|discriminate]. intros [= <-].
  exists x. split; [done|]. by destruct x.
Qed.

Lemma astype_replace_inf_at xs i x :
  xs !! i = Some x →
  astype_Float64 (replace_inf xs) !! i
  = Some (if F64.is_inf x || F64.is_nan x then None else Some x).
Proof.
  intros Hx. unfold astype_Float64, replace_inf.
  rewrite <-list_fmap_compose, list_lookup_fmap, Hx. simpl. by destruct x.
Qed.

Lemma previous_applications_ratio path ft :
  preprocess_previous_applications path = Ok ft →
  ∃ credit application credits sums ratios,
    get_column "PREV_AMT_CREDIT_SUM" ft = Ok credit
    ∧ get_column "PREV_AMT_APPLICATION_SUM" ft = Ok application
    ∧ as_floats credit = Ok credits
    ∧ as_floats application = Ok sums
    ∧ get_column "PREV_CREDIT_TO_APPLICATION_RATIO" ft = Ok (NullableFloat64 ratios)
    ∧ length credits = nrows ft ∧ length sums = nrows ft
    ∧ ratios = astype_Float64 (replace_inf (zip_with F64.div credits sums)).
Proof.
  unfold preprocess_previous_applications. intros H.
  inv_bind H as prev Hprev. inv_bind H as g Hg.
  pose proof (groupby_agg_wf
    (λ col : string * string, "PREV_" +:+ upper (col.1 +:+ "_" +:+ col.2))
    _ _ _ _ Hg) as Hwf.
  inv_bind H as credit Hcredit. inv_bind H as application Happ.
  inv_bind H as ratio Hratio. injection H as <-.
  unfold col_div in Hratio. inv_bind Hratio as xs Hxs. inv_bind Hratio as ys Hys.
  injection Hratio as <-.
  exists credit, application, xs, ys. eexists.
  rewrite !get_set_column_ne by done. rewrite get_set_column_eq.
  rewrite !nrows_set_column.
  split_and!; try done.
  - rewrite (as_floats_length _ _ Hxs). by apply wf_frame_keys with "PREV_AMT_CREDIT_SUM".
  - rewrite (as_floats_length _ _ Hys).
    by apply wf_frame_keys with "PREV_AMT_APPLICATION_SUM".
Qed.

(** ** What the merge raises, and how many rows it returns *)

Lemma merge_all_features_raises app_df feature_dfs e :
  merge_all_features app_df feature_dfs = Raise e →
  e = KeyError "SK_ID_CURR" ∨ e = ValueError ∨ e = MergeError.
Proof.
  revert app_df. induction feature_dfs as [|f fs IH]; intros app_df H; simpl in H.
  - discriminate.
  - destruct (merge app_df f "SK_ID_CURR") as [m|e'] eqn:E; simpl in H.
    + by apply IH with m.
    + injection H as <-. by apply merge_raises with app_df f.
Qed.


(** ** When a left join returns the left rows, and only then *)










(** ** Frames as objects *)

Lemma deref_Ok (h : gmap nat DataFrame) l df : Heap.deref h l = Ok df ↔ h !! l = Some df.
Proof. unfold Heap.deref. destruct (h !! l); split; congruence. Qed.

Lemma heap_merge_all_features (h : gmap nat DataFrame) app_df feature_dfs r h' :
  Heap.merge_all_features h app_df feature_dfs = Ok (r, h') →
  h ⊆ h'
  ∧ (feature_dfs ≠ [] → h !! r = None)
  ∧ ∀ a fs,
      h !! app_df = Some a →
      Forall2 (λ l f, h !! l = Some f) feature_dfs fs →
      ∃ out, merge_all_features a fs = Ok out ∧ h' !! r = Some out.
Proof.
  revert h app_df. induction feature_dfs as [|f fs IH]; intros h app_df H;
    simpl in H.
  - injection H as <- <-. split; [done|]. split; [done|].
    intros a fs' Ha Hfs. apply Forall2_nil_inv_l in Hfs as ->.
    exists a. split; [reflexivity | exact Ha].
  - inv_bind H as a Ha. inv_bind H as fv Hfv. inv_bind H as m Hm.
    apply deref_Ok in Ha, Hfv.
    unfold Heap.alloc in H. cbv zeta in H.
    pose proof (is_fresh (dom h)) as Hl. apply not_elem_of_dom in Hl.
    set (l := fresh (dom h)) in *.
    destruct (IH _ _ H) as (Hsub & Hnew & Hval).
    assert (h ⊆ <[l:=m]> h) as Hsub1 by (by apply insert_subseteq).
    split; [by transitivity (<[l:=m]> h)|]. split.
    + intros _. destruct fs as [|f' fs].
      * simpl in H. by injection H as <- <-.
      * destruct (h !! r) as [d|] eqn:Hr; [|done].
        rewrite (lookup_weaken _ _ _ _ Hr Hsub1) in Hnew.
        by discriminate Hnew.
    + intros a' fs' Ha' Hfs. apply Forall2_cons_inv_l in Hfs
        as (fv' & fs'' & Hfv' & Hfs & ->).
      assert (a' = a) as -> by congruence. assert (fv' = fv) as -> by congruence.
      simpl. rewrite Hm. simpl. apply Hval.
      * apply lookup_insert_eq.
      * eapply Forall2_impl; [done|]. intros l' f' Hl'. simpl in Hl'.
        by apply (lookup_weaken _ _ _ _ Hl' Hsub1).
Qed.

Lemma heap_preprocess_final (h : gmap nat DataFrame) df is_train r h' :
  Heap.preprocess_final h df is_train = Ok (r, h') →
  r = df ∧ ∃ d, h !! df = Some d ∧ h' = <[df := preprocess_final d is_train]> h.
Proof.
  unfold Heap.preprocess_final. intros H.
  inv_bind H as d Hd. apply deref_Ok in Hd.
  inv_bind H as d' Hd'. apply deref_Ok in Hd'.
  rewrite lookup_insert_eq in Hd'. injection Hd' as <-.
  injection H as <- <-. split; [done|]. exists d. split; [done|].
  by rewrite insert_insert_eq.
Qed.

Lemma heap_preprocess_final_runs (h : gmap nat DataFrame) df is_train d :
  h !! df = Some d →
  Heap.preprocess_final h df is_train
  = Ok (df, <[df := preprocess_final d is_train]> h).
Proof.
  intros Hd. unfold Heap.preprocess_final, Heap.deref. rewrite Hd. simpl.
  rewrite lookup_insert_eq. simpl. by rewrite insert_insert_eq.
Qed.

Lemma alloc_spec (h : gmap nat DataFrame) df l h' :
  Heap.alloc h df = (l, h') →
  h !! l = None ∧ h' !! l = Some df ∧ h ⊆ h'.
Proof.
  unfold Heap.alloc. intros [= <- <-].
  assert (h !! fresh (dom h) = None) as Hl by apply not_elem_of_dom, is_fresh.
  split_and!; [done | apply lookup_insert_eq | by apply insert_subseteq].
Qed.

Lemma heap_prepare_dataset (h : gmap nat DataFrame) path is_train r h' :
  Heap.prepare_dataset h path is_train = Ok (r, h') →
  (∀ l df, h !! l = Some df → h' !! l = Some df)
  ∧ h !! r = None
  ∧ ∃ out, prepare_dataset path is_train = Ok out ∧ h' !! r = Some out.
Proof.
  unfold Heap.prepare_dataset. intros H.
  inv_bind H as app Happ.
  destruct (Heap.alloc h app) as [l1 h1] eqn:A1.
  apply alloc_spec in A1 as (F1 & L1 & S1).
  inv_bind H as b Hb.
  destruct (Heap.alloc h1 b) as [l2 h2] eqn:A2.
  apply alloc_spec in A2 as (F2 & L2 & S2).
  inv_bind H as p Hp.
  destruct (Heap.alloc h2 p) as [l3 h3] eqn:A3.
  apply alloc_spec in A3 as (F3 & L3 & S3).
  inv_bind H as i Hi.
  destruct (Heap.alloc h3 i) as [l4 h4] eqn:A4.
  apply alloc_spec in A4 as (F4 & L4 & S4).
  inv_bind H as m Hm. destruct m as [r0 h5]. simpl in H.
  destruct (heap_merge_all_features _ _ _ _ _ Hm) as (S5 & F5 & Hout).
  specialize (F5 ltac:(discriminate)).
  destruct (Hout app [b; p; i]) as (out & Hmerge & Lout).
  { apply (lookup_weaken _ _ _ _ L1). by do 2 (etrans; [|done]). }
  { repeat constructor.
    - apply (lookup_weaken _ _ _ _ L2). by etrans.
    - by apply (lookup_weaken _ _ _ _ L3).
    - done. }
  apply heap_preprocess_final in H as (-> & d & Hd & ->).
  assert (d = out) as -> by congruence.
  assert (h ⊆ h4) as S04 by (by do 3 (etrans; [done|])).
  assert (h !! r0 = None) as Hr.
  { destruct (h !! r0) as [x|] eqn:E; [|done].
    by rewrite (lookup_weaken _ _ _ _ E S04) in F5. }
  split_and!; [|done|].
  - intros l df Hl. rewrite lookup_insert_ne by (intros ->; congruence).
    apply (lookup_weaken _ _ _ _ Hl). by etrans.
  - exists (preprocess_final out is_train). split; [|apply lookup_insert_eq].
    unfold prepare_dataset.
    rewrite Happ. cbn [mbind result_bind].
    rewrite Hb. cbn [mbind result_bind].
    rewrite Hp. cbn [mbind result_bind].
    rewrite Hi. cbn [mbind result_bind].
    by rewrite Hmerge.
Qed.

(** ** Rows without a key belong to no group *)

Lemma keep_nil_r {A} mask : keep mask (@nil A) = [].
Proof. unfold keep. by destruct mask. Qed.

Lemma keep_cons {A} b mask (x : A) xs :
  keep (b :: mask) (x :: xs) = if b then x :: keep mask xs else keep mask xs.
Proof.
  unfold keep. cbn [zip_with]. rewrite filter_cons. cbn [fst].
  destruct b; [by rewrite decide_True | by rewrite decide_False].
Qed.

Lemma keep_fmap {A B} (f : A → B) mask xs :
  keep mask (f <$> xs) = f <$> keep mask xs.
Proof.
  revert xs. induction mask as [|b mask IH]; intros [|x xs]; try done.
  rewrite fmap_cons, !keep_cons. destruct b; [rewrite fmap_cons|]; by rewrite IH.
Qed.

Lemma keep_present_keys ks :
  keep (present_mask ks) ks = filter (λ k, k ≠ KMissing) ks.
Proof.
  induction ks as [|k ks IH]; [done|].
  unfold present_mask in *. rewrite fmap_cons, keep_cons, filter_cons, IH.
  destruct (decide (k ≠ KMissing)) as [E|E];
    [by rewrite bool_decide_true | by rewrite bool_decide_false].
Qed.

Lemma group_keys_present ks :
  group_keys (filter (λ k, k ≠ KMissing) ks) = group_keys ks.
Proof.
  unfold group_keys. do 2 f_equal. rewrite list_filter_filter.
  apply list_filter_iff. tauto.
Qed.

Lemma group_values_nil_r {A} ks k : group_values ks (@nil A) k = [].
Proof. unfold group_values. by destruct ks. Qed.

Lemma group_values_cons {A} k0 ks (x : A) xs k :
  group_values (k0 :: ks) (x :: xs) k
  = if decide (k0 = k) then x :: group_values ks xs k else group_values ks xs k.
Proof.
  unfold group_values. cbn [zip_with]. rewrite filter_cons. cbn [fst].
  by destruct (decide (k0 = k)).
Qed.

Lemma group_values_keep {A} ks (xs : list A) k :
  k ≠ KMissing →
  group_values (filter (λ k, k ≠ KMissing) ks) (keep (present_mask ks) xs) k
  = group_values ks xs k.
Proof.
  intros Hk. revert xs. induction ks as [|k0 ks IH]; intros [|x xs]; try done.
  - by rewrite keep_nil_r, !group_values_nil_r.
  - unfold present_mask in *. rewrite fmap_cons, keep_cons, filter_cons.
    rewrite (group_values_cons k0). destruct (decide (k0 ≠ KMissing)) as [E|E].
    + rewrite bool_decide_true by done. rewrite group_values_cons.
      destruct (decide (k0 = k)); by rewrite IH.
    + rewrite bool_decide_false by done. rewrite IH.
      rewrite decide_False; [done|]. intros ->. by apply E.
Qed.

Section dropped_rows.
Variable ks : list key.
Let mask := present_mask ks.
Let ks' := filter (λ k, k ≠ KMissing) ks.
Variable gk : list key.
Hypothesis gk_present : KMissing ∉ gk.

Lemma fmap_groups {A B} (f : list A → B) (xs : list A) :
  (λ k, f (group_values ks' (keep mask xs) k)) <$> gk
  = (λ k, f (group_values ks xs k)) <$> gk.
Proof.
  apply list_fmap_ext. intros i k Hk%list_elem_of_lookup_2. simpl.
  subst ks' mask. rewrite group_values_keep; [done|]. by intros ->.
Qed.

Lemma col_keys_keep c : col_keys (col_keep mask c) = keep mask (col_keys c).
Proof. destruct c; simpl; by rewrite keep_fmap. Qed.

Lemma col_isna_keep c : col_isna (col_keep mask c) = keep mask (col_isna c).
Proof. destruct c; simpl; by rewrite keep_fmap. Qed.

Lemma agg_column_keep fn c :
  agg_column fn (col_keep mask c) ks' gk = agg_column fn c ks gk.
Proof.
  destruct fn, c; simpl; rewrite <-?keep_fmap;
    try (rewrite (fmap_groups (λ l, count_true (negb <$> l))));
    try (rewrite (fmap_groups nansum));
    try (rewrite (fmap_groups nanmean));
    try (rewrite (fmap_groups nanmax));
    try (rewrite (fmap_groups count_true));
    try (rewrite (fmap_groups zmax_list));
    try (rewrite (fmap_groups (λ l, wrap64 (foldl Z.add 0 l))));
    done.
Qed.

Lemma col_firsts_keep c :
  col_firsts (col_keep mask c) ks' gk = col_firsts c ks gk.
Proof.
  destruct c; simpl; unfold first_of; f_equal;
    match goal with
    | |- context [default ?d] => apply (fmap_groups (λ l, default d (head l)))
    end.
Qed.
End dropped_rows.

Lemma mapR_ext {A B} (f g : A → result B) l :
  (∀ x, f x = g x) → mapR f l = mapR g l.
Proof. intros Hfg. induction l as [|x l IH]; simpl; [done|]. by rewrite Hfg, IH. Qed.

Lemma mapR_fmap {A B C} (f : B → result C) (g : A → B) l :
  mapR f (g <$> l) = mapR (f ∘ g) l.
Proof.
  induction l as [|x l IH]; [done|]. rewrite fmap_cons. cbn [mapR]. by rewrite IH.
Qed.

Lemma assoc_fmap {A B} (f : A → B) name (l : list (string * A)) :
  assoc name ((λ nc, (nc.1, f nc.2)) <$> l) = f <$> assoc name l.
Proof.
  induction l as [|[n a] l IH]; simpl; [done|].
  by destruct (decide (n = name)).
Qed.

Lemma get_column_drop_missing on name df :
  get_column name (drop_missing_keys on df)
  = col_keep (present_mask (frame_keys on df)) <$> get_column name df.
Proof.
  unfold get_column, drop_missing_keys. simpl. rewrite assoc_fmap.
  by destruct (assoc name (columns df)).
Qed.

Lemma group_keys_no_missing ks : KMissing ∉ group_keys ks.
Proof. rewrite elem_of_group_keys. tauto. Qed.

Lemma groupby_agg_drop_missing df by_ spec :
  groupby_agg (drop_missing_keys by_ df) by_ spec = groupby_agg df by_ spec.
Proof.
  unfold groupby_agg. rewrite get_column_drop_missing.
  destruct (get_column by_ df) as [kc|e] eqn:Hkc; simpl; [|done].
  rewrite (frame_keys_get _ _ _ Hkc).
  rewrite col_keys_keep, keep_present_keys, group_keys_present.
  rewrite col_firsts_keep by apply group_keys_no_missing.
  f_equal. apply mapR_ext. intros [name fns]. simpl.
  rewrite get_column_drop_missing, (frame_keys_get _ _ _ Hkc).
  destruct (get_column name df) as [c|e]; simpl; [|done].
  apply mapR_ext. intros fn.
  by rewrite agg_column_keep by apply group_keys_no_missing.
Qed.

Lemma filter_labels_fmap {A B} (f : A → B) name (l : list (string * A)) :
  filter (λ nc, nc.1 ≠ name) ((λ nc, (nc.1, f nc.2)) <$> l)
  = (λ nc, (nc.1, f nc.2)) <$> filter (λ nc, nc.1 ≠ name) l.
Proof.
  induction l as [|[n a] l IH]; [done|].
  rewrite fmap_cons, !filter_cons. simpl.
  destruct (decide (n ≠ name)); [rewrite fmap_cons|]; by rewrite IH.
Qed.

Lemma groupby_mean_drop_missing df by_ :
  groupby_mean (drop_missing_keys by_ df) by_ = groupby_mean df by_.
Proof.
  unfold groupby_mean. rewrite get_column_drop_missing.
  destruct (get_column by_ df) as [kc|e] eqn:Hkc; simpl; [|done].
  rewrite (frame_keys_get _ _ _ Hkc).
  rewrite col_keys_keep, keep_present_keys, group_keys_present.
  rewrite col_firsts_keep by apply group_keys_no_missing.
  f_equal.
  unfold drop_missing_keys. simpl columns.
  rewrite filter_labels_fmap, mapR_fmap.
  apply mapR_ext. intros [name c]. simpl.
  pose proof (agg_column_keep (col_keys kc) (group_keys (col_keys kc))
                (group_keys_no_missing _) Mean c) as Hc.
  simpl in Hc. by rewrite Hc.
Qed.

(** * Main results *)




(** The ratio of the bureau aggregator on one row: a zero credit sum
    gives 0 only when the debt sum is zero or missing, and an infinity
    for any other debt. *)
Lemma debt_credit_ratio_zero_credit debt credit :
  F64.is_zero credit = true →
  (F64.is_nan debt || F64.is_zero debt = true →
   fillna_floats F64.zero [F64.div debt credit] = [F64.zero])
  ∧ (F64.is_nan debt || F64.is_zero debt = false →
     ∃ s, fillna_floats F64.zero [F64.div debt credit] = [S754_infinity s]).
Proof.
  destruct debt, credit; try discriminate; intros _; split; try discriminate;
    intros _; try reflexivity; eexists; reflexivity.
Qed.

(** C2. On the sample directory client 3 has a credit sum of 0 and a
    debt sum of 50: its DEBT_CREDIT_RATIO is +infinity, not 0. *)
Theorem debt_credit_ratio_infinite :
  ∃ ft, preprocess_bureau_data Sample.directory = Ok ft
    ∧ get_column "AMT_CREDIT_SUM_sum" ft
      = Ok (Float64 [Sample.num 400; F64.zero])
    ∧ get_column "AMT_CREDIT_SUM_DEBT_sum" ft
      = Ok (Float64 [Sample.num 50; Sample.num 50])
    ∧ get_column "DEBT_CREDIT_RATIO" ft
      = Ok (Float64 [F64.div (Sample.num 1) (Sample.num 8); F64.inf]).
Proof. eexists. split; [vm_compute; reflexivity|]. by vm_compute. Qed.




(** C4 as stated fails: a numeric column without any value has no
    median, and the cleaning leaves its missing values in place. *)
Lemma all_missing_column_stays_missing :
  ∃ c, columns (preprocess_final Sample.empty_measure true) !! 1%nat
       = Some ("INSTALL_AMT_PAYMENT_SUM", c)
    ∧ is_number_dtype c = true
    ∧ None ∈ cells c.
Proof.
  eexists. split; [reflexivity|]. split; [reflexivity|]. vm_compute. by left.
Qed.

(** C4, amended. A numeric column whose median over its own present
    values is defined, and is a number that the half of its sum with
    itself gives back (every finite float64 below half the largest
    one), comes out of the cleaning without a missing value: every
    cell that was missing holds that median and every other cell is
    unchanged.  A numeric column whose median is undefined is returned
    as it was. *)
Theorem preprocess_final_imputes_median :
  ∀ df is_train j name c,
    columns df !! j = Some (name, c) →
    is_number_dtype c = true →
    (F64.is_nan (col_median c) = false →
     settles (col_median c) →
     ∃ c', columns (preprocess_final df is_train) !! j = Some (name, c')
       ∧ is_number_dtype c' = true
       ∧ cells c' = filled (col_median c) <$> cells c
       ∧ None ∉ cells c')
    ∧ (F64.is_nan (col_median c) = true →
       columns (preprocess_final df is_train) !! j = Some (name, c)).
Proof.
  intros df is_train j name c Hj Hnum.
  rewrite columns_preprocess_final, list_lookup_fmap, Hj. simpl.
  unfold clean_column.
  rewrite (encode_binary_number (fill_numeric c))
    by (by rewrite is_number_fill_numeric).
  split.
  - intros Hm _. exists (fill_numeric c). split; [done|].
    split; [by rewrite is_number_fill_numeric|].
    rewrite (cells_fill_numeric c Hnum Hm). split; [done|]. apply filled_present.
  - intros Hm. do 2 f_equal. unfold fill_numeric. rewrite Hnum.
    apply is_nan_eq in Hm. rewrite Hm.
    destruct c; simpl; try done. by rewrite fillna_floats_nan.
Qed.

Lemma preprocess_final_imputes_median_witness :
  (∃ c', columns (preprocess_final Sample.application_train true) !! 3%nat
         = Some ("AMT_INCOME_TOTAL", c')
     ∧ cells c' = [Some (SFloat (Sample.num 1000));
                   Some (SFloat (Sample.num 2000));
                   Some (SFloat (Sample.num 3000))])
  ∧ columns (preprocess_final Sample.empty_measure true) !! 1%nat
    = Some ("INSTALL_AMT_PAYMENT_SUM", Float64 [F64.nan; F64.nan]).
Proof.
  split.
  - destruct (proj1 (preprocess_final_imputes_median Sample.application_train
                       true 3%nat "AMT_INCOME_TOTAL"
                       (Float64 [Sample.num 1000; F64.nan; Sample.num 3000])
                       eq_refl eq_refl) eq_refl eq_refl)
      as (c' & Hc' & _ & Hcells & _).
    exists c'. split; [exact Hc'|]. rewrite Hcells. vm_compute. reflexivity.
  - exact (proj2 (preprocess_final_imputes_median Sample.empty_measure
                    true 1%nat "INSTALL_AMT_PAYMENT_SUM"
                    (Float64 [F64.nan; F64.nan]) eq_refl eq_refl) eq_refl).
Defined.

(** C5. In the table of the previous applications, a client whose
    AMT_APPLICATION sum is zero has the missing marker as
    PREV_CREDIT_TO_APPLICATION_RATIO, whatever the credit sum; the
    column has the nullable dtype and every value it holds is finite. *)
Theorem prev_ratio_missing_when_no_application :
  ∀ path ft,
    preprocess_previous_applications path = Ok ft →
    ∃ application sums ratios,
      get_column "PREV_AMT_APPLICATION_SUM" ft = Ok application
      ∧ as_floats application = Ok sums
      ∧ get_column "PREV_CREDIT_TO_APPLICATION_RATIO" ft
        = Ok (NullableFloat64 ratios)
      ∧ length ratios = length sums
      ∧ (∀ i s, sums !! i = Some s → F64.is_zero s = true →
                ratios !! i = Some None)
      ∧ (∀ i r, ratios !! i = Some (Some r) →
                F64.is_nan r = false ∧ F64.is_inf r = false).
Proof.
  intros path ft H.
  destruct (previous_applications_ratio _ _ H)
    as (credit & application & credits & sums & ratios
        & Hc & Ha & Hcs & Hss & Hr & Hlc & Hls & ->).
  exists application, sums. eexists. split_and!; try done.
  - unfold astype_Float64, replace_inf.
    rewrite !length_fmap, length_zip_with. lia.
  - intros i s Hs Hz.
    destruct (lookup_lt_is_Some_2 credits i) as [x Hx].
    { rewrite Hlc, <-Hls. by apply lookup_lt_Some with s. }
    rewrite (astype_replace_inf_at _ i (F64.div x s)).
    + f_equal. destruct (div_by_zero x s Hz) as [Hn|Hi].
      * by rewrite Hn, orb_true_r.
      * by rewrite Hi.
    + by rewrite lookup_zip_with, Hx, Hs.
  - intros i r (x & _ & Hx)%astype_replace_inf_lookup.
    destruct x; simpl in Hx; try discriminate; by injection Hx as ->.
Qed.

Lemma prev_ratio_missing_when_no_application_witness :
  ∃ ft, preprocess_previous_applications Sample.directory = Ok ft
    ∧ get_column "PREV_AMT_APPLICATION_SUM" ft
      = Ok (Float64 [Sample.num 200; F64.zero])
    ∧ ∃ ratios,
        get_column "PREV_CREDIT_TO_APPLICATION_RATIO" ft
        = Ok (NullableFloat64 ratios)
        ∧ ratios !! 1%nat = Some None.
Proof.
  destruct (preprocess_previous_applications Sample.directory) as [ft|e] eqn:E;
    [|vm_compute in E; discriminate E].
  exists ft.
  destruct (prev_ratio_missing_when_no_application _ _ E)
    as (application & sums & ratios & Ha & Hs & Hr & _ & Hzero & _).
  assert (get_column "PREV_AMT_APPLICATION_SUM" ft
          = Ok (Float64 [Sample.num 200; F64.zero])) as Hget.
  { vm_compute in E. injection E as <-. vm_compute. reflexivity. }
  split; [reflexivity|]. split; [exact Hget|].
  exists ratios. split; [exact Hr|].
  rewrite Hget in Ha. injection Ha as <-. injection Hs as <-.
  exact (Hzero 1%nat F64.zero eq_refl eq_refl).
Defined.

(** C6. The final cleaning is idempotent: cleaning a cleaned frame
    returns it unchanged, and a second call on the object the first call
    returned leaves that object, and every other, as it is. *)
Theorem preprocess_final_idempotent :
  (∀ df is_train is_train',
     preprocess_final (preprocess_final df is_train) is_train'
     = preprocess_final df is_train)
  ∧ (∀ (h : gmap nat DataFrame) df is_train is_train' r h',
       Heap.preprocess_final h df is_train = Ok (r, h') →
       Heap.preprocess_final h' r is_train' = Ok (r, h')).
Proof.
  split; [apply preprocess_final_twice|].
  intros h df is_train is_train' r h' H.
  apply heap_preprocess_final in H as (-> & d & Hd & ->).
  rewrite (heap_preprocess_final_runs _ _ _ (preprocess_final d is_train))
    by apply lookup_insert_eq.
  by rewrite preprocess_final_twice, insert_insert_eq.
Qed.

Lemma preprocess_final_idempotent_witness :
  ∃ r h',
    Heap.preprocess_final {[ 0%nat := Sample.application_train ]} 0%nat true
    = Ok (r, h')
    ∧ Heap.preprocess_final h' r true = Ok (r, h').
Proof.
  destruct (Heap.preprocess_final {[ 0%nat := Sample.application_train ]}
              0%nat true) as [[r h']|e] eqn:E.
  - exists r, h'. split; [reflexivity|].
    exact (proj2 preprocess_final_idempotent _ _ _ true _ _ E).
  - rewrite (heap_preprocess_final_runs _ _ _ Sample.application_train) in E
      by apply lookup_singleton_eq.
    discriminate E.
Defined.

(** C7 as stated fails: a two-valued column with a missing cell is
    encoded, and the missing cell becomes -1. *)
Lemma binary_column_missing_cell_is_minus_one :
  nunique [Sample.str "Y"; None; Sample.str "N"] = 2%nat
  ∧ columns Sample.yes_no !! 1%nat
    = Some ("FLAG_OWN_CAR", Object [Sample.str "Y"; None; Sample.str "N"])
  ∧ columns (preprocess_final Sample.yes_no true) !! 1%nat
    = Some ("FLAG_OWN_CAR", Int64 [0; -1; 1]).
Proof. split_and!; reflexivity. Qed.

(** C7, amended. An object column with exactly two distinct values is
    replaced by integer codes: the first value met gets 0 and the other
    one 1, so equal values get equal codes, and a missing cell gets
    -1. *)
Theorem preprocess_final_encodes_binary :
  ∀ df is_train j name xs,
    columns df !! j = Some (name, Object xs) →
    nunique xs = 2%nat →
    ∃ a b,
      a ≠ b
      ∧ head (present xs) = Some a
      ∧ columns (preprocess_final df is_train) !! j
        = Some (name, Int64 (factorize xs))
      ∧ ∀ i o, xs !! i = Some o →
          factorize xs !! i
          = Some (match o with
                  | None => -1
                  | Some v => if decide (v = a) then 0 else 1
                  end)
          ∧ (o = None ∨ o = Some a ∨ o = Some b).
Proof.
  intros df is_train j name xs Hj Hn.
  destruct (factorize_two xs Hn) as (a & b & _ & Hab & Hhead & Henc & Hcodes).
  exists a, b. split_and!; try done.
  rewrite columns_preprocess_final, list_lookup_fmap, Hj. simpl.
  unfold clean_column. by rewrite (fill_numeric_other (Object xs)), Henc.
Qed.

Lemma preprocess_final_encodes_binary_witness :
  columns (preprocess_final Sample.application_train true) !! 2%nat
  = Some ("CODE_GENDER", Int64 [0; 1; 0])
  ∧ columns (preprocess_final Sample.yes_no true) !! 1%nat
    = Some ("FLAG_OWN_CAR", Int64 [0; -1; 1]).
Proof.
  split.
  - destruct (preprocess_final_encodes_binary Sample.application_train true
                2%nat "CODE_GENDER"
                [Sample.str "M"; Sample.str "F"; Sample.str "M"]
                eq_refl eq_refl) as (a & b & _ & _ & Hc & _).
    exact Hc.
  - destruct (preprocess_final_encodes_binary Sample.yes_no true
                1%nat "FLAG_OWN_CAR"
                [Sample.str "Y"; None; Sample.str "N"]
                eq_refl eq_refl) as (a & b & _ & _ & Hc & _).
    exact Hc.
Defined.

Lemma grouped_one_row_per_client input ft :
  grouped_from input ft → one_row_per_client input ft.
Proof.
  intros [Hk Hn]. unfold one_row_per_client. rewrite Hk. split_and!.
  - apply group_keys_NoDup.
  - apply elem_of_group_keys.
  - by rewrite Hn, Hk.
Qed.

Lemma feature_tables_grouped path :
  (∀ ft, preprocess_bureau_data path = Ok ft →
         ∃ records, bureau_csv path = Some records ∧ grouped_from records ft)
  ∧ (∀ ft, preprocess_previous_applications path = Ok ft →
           ∃ records, previous_application_csv path = Some records
                      ∧ grouped_from records ft)
  ∧ (∀ ft, preprocess_installments path = Ok ft →
           ∃ records, installments_payments_csv path = Some records
                      ∧ grouped_from records ft).
Proof.
  split_and!; intros ft H.
  - assert (∃ b, bureau_csv path = Some b) as [b Hb].
    { unfold preprocess_bureau_data in H. inv_bind H as b Hb.
      apply read_csv_Ok in Hb. eauto. }
    exists b. split; [done|]. by apply bureau_grouped with path.
  - assert (∃ p, previous_application_csv path = Some p) as [p Hp].
    { unfold preprocess_previous_applications in H. inv_bind H as p Hp.
      apply read_csv_Ok in Hp. eauto. }
    exists p. split; [done|]. by apply previous_applications_grouped with path.
  - assert (∃ i, installments_payments_csv path = Some i) as [i Hi].
    { unfold preprocess_installments in H. inv_bind H as i Hi.
      apply read_csv_Ok in Hi. eauto. }
    exists i. split; [done|]. by apply installments_grouped with path.
Qed.

(** C8. Each aggregator returns a table with one row per distinct
    client identifier present in its input records, and no identifier
    twice; this comes from the grouping, no deduplication is made. *)
Theorem feature_tables_have_unique_keys :
  ∀ path,
    (∀ ft, preprocess_bureau_data path = Ok ft →
           ∃ records, bureau_csv path = Some records
                      ∧ one_row_per_client records ft)
    ∧ (∀ ft, preprocess_previous_applications path = Ok ft →
             ∃ records, previous_application_csv path = Some records
                        ∧ one_row_per_client records ft)
    ∧ (∀ ft, preprocess_installments path = Ok ft →
             ∃ records, installments_payments_csv path = Some records
                        ∧ one_row_per_client records ft).
Proof.
  intros path. destruct (feature_tables_grouped path) as (Hb & Hp & Hi).
  split_and!; intros ft H.
  - destruct (Hb ft H) as (records & Hr & Hg).
    exists records. split; [done|]. by apply grouped_one_row_per_client.
  - destruct (Hp ft H) as (records & Hr & Hg).
    exists records. split; [done|]. by apply grouped_one_row_per_client.
  - destruct (Hi ft H) as (records & Hr & Hg).
    exists records. split; [done|]. by apply grouped_one_row_per_client.
Qed.

Lemma feature_tables_have_unique_keys_witness :
  (∃ ft, preprocess_bureau_data Sample.directory = Ok ft
         ∧ one_row_per_client Sample.bureau ft
         ∧ frame_keys "SK_ID_CURR" ft = [key_of_Z 1; key_of_Z 3])
  ∧ (∃ ft, preprocess_previous_applications Sample.directory = Ok ft
           ∧ one_row_per_client Sample.previous_application ft
           ∧ frame_keys "SK_ID_CURR" ft = [key_of_Z 1; key_of_Z 3])
  ∧ (∃ ft, preprocess_installments Sample.directory = Ok ft
           ∧ one_row_per_client Sample.installments_payments ft
           ∧ frame_keys "SK_ID_CURR" ft = [key_of_Z 1]).
Proof.
  destruct (feature_tables_have_unique_keys Sample.directory) as (Hb & Hp & Hi).
  split_and!.
  - destruct (preprocess_bureau_data Sample.directory) as [ft|e] eqn:E;
      [|vm_compute in E; discriminate E].
    exists ft. split; [reflexivity|].
    destruct (Hb ft eq_refl) as (records & [= <-] & Hone).
    split; [exact Hone|]. vm_compute in E. injection E as <-. reflexivity.
  - destruct (preprocess_previous_applications Sample.directory) as [ft|e] eqn:E;
      [|vm_compute in E; discriminate E].
    exists ft. split; [reflexivity|].
    destruct (Hp ft eq_refl) as (records & [= <-] & Hone).
    split; [exact Hone|]. vm_compute in E. injection E as <-. reflexivity.
  - destruct (preprocess_installments Sample.directory) as [ft|e] eqn:E;
      [|vm_compute in E; discriminate E].
    exists ft. split; [reflexivity|].
    destruct (Hi ft eq_refl) as (records & [= <-] & Hone).
    split; [exact Hone|]. vm_compute in E. injection E as <-. reflexivity.
Defined.

(** C9 as stated fails for the final cleaning: after the call the
    caller's frame no longer holds the values it held before. *)
Lemma preprocess_final_overwrites_its_argument :
  ∃ h',
    Heap.preprocess_final {[ 0%nat := Sample.application_train ]} 0%nat true
    = Ok (0%nat, h')
    ∧ ({[ 0%nat := Sample.application_train ]} : gmap nat DataFrame) !! 0%nat
      = Some Sample.application_train
    ∧ h' !! 0%nat = Some (preprocess_final Sample.application_train true)
    ∧ preprocess_final Sample.application_train true ≠ Sample.application_train.
Proof.
  eexists. split.
  { apply heap_preprocess_final_runs, lookup_singleton_eq. }
  split; [apply lookup_singleton_eq|]. split; [apply lookup_insert_eq|].
  vm_compute. discriminate.
Qed.

(** C9, amended. The merge changes no frame that exists when it is
    called, its arguments included, and with at least one feature table
    what it returns is a new frame (with none it returns the application
    frame itself).  The final cleaning works in place: it returns the
    very frame it was given, which now holds the cleaned values, and
    changes no other frame.  Within [prepare_dataset] the frame cleaned
    in place is the one the merge has just built, so the call as a whole
    changes no frame that existed before and returns a new one. *)
Theorem components_and_their_arguments :
  (∀ (h : gmap nat DataFrame) app_df feature_dfs r h',
     Heap.merge_all_features h app_df feature_dfs = Ok (r, h') →
     (∀ l df, h !! l = Some df → h' !! l = Some df)
     ∧ (feature_dfs ≠ [] → h !! r = None)
     ∧ (feature_dfs = [] → r = app_df ∧ h' = h))
  ∧ (∀ (h : gmap nat DataFrame) df is_train r h',
       Heap.preprocess_final h df is_train = Ok (r, h') →
       r = df
       ∧ (∃ d, h !! df = Some d
               ∧ h' !! df = Some (preprocess_final d is_train))
       ∧ (∀ l, l ≠ df → h' !! l = h !! l))
  ∧ (∀ (h : gmap nat DataFrame) path is_train r h',
       Heap.prepare_dataset h path is_train = Ok (r, h') →
       (∀ l df, h !! l = Some df → h' !! l = Some df)
       ∧ h !! r = None
       ∧ ∃ out, prepare_dataset path is_train = Ok out ∧ h' !! r = Some out).
Proof.
  split; [|split; [|apply heap_prepare_dataset]].
  - intros h app_df feature_dfs r h' H.
    destruct (heap_merge_all_features _ _ _ _ _ H) as (Hsub & Hnew & _).
    split_and!; [|done|].
    + intros l df Hl. by apply (lookup_weaken _ _ _ _ Hl Hsub).
    + intros ->. simpl in H. by injection H as <- <-.
  - intros h df is_train r h' H.
    apply heap_preprocess_final in H as (-> & d & Hd & ->).
    split_and!; [done| |].
    + exists d. split; [done|]. apply lookup_insert_eq.
    + intros l Hne. by apply lookup_insert_ne.
Qed.

Lemma components_and_their_arguments_witness :
  (∃ r h',
     Heap.merge_all_features
       {[ 0%nat := Sample.application_train; 1%nat := Sample.duplicated_features ]}
       0%nat [1%nat] = Ok (r, h')
     ∧ h' !! 0%nat = Some Sample.application_train
     ∧ h' !! 1%nat = Some Sample.duplicated_features
     ∧ r ≠ 0%nat ∧ r ≠ 1%nat)
  ∧ (∃ r h',
       Heap.preprocess_final {[ 0%nat := Sample.application_train ]} 0%nat true
       = Ok (r, h')
       ∧ r = 0%nat
       ∧ h' !! 0%nat = Some (preprocess_final Sample.application_train true))
  ∧ (∃ r h',
       Heap.prepare_dataset {[ 0%nat := Sample.application_train ]}
                            Sample.directory true = Ok (r, h')
       ∧ h' !! 0%nat = Some Sample.application_train
       ∧ r ≠ 0%nat).
Proof.
  destruct components_and_their_arguments as (Hmerge & Hfinal & Hprepare).
  split_and!.
  - set (h := ({[ 0%nat := Sample.application_train;
                  1%nat := Sample.duplicated_features ]} : gmap nat DataFrame)).
    assert (h !! 0%nat = Some Sample.application_train) as H0 by reflexivity.
    assert (h !! 1%nat = Some Sample.duplicated_features) as H1 by reflexivity.
    destruct (Heap.merge_all_features h 0%nat [1%nat]) as [[r h']|e] eqn:E.
    + exists r, h'. split; [reflexivity|].
      destruct (Hmerge _ _ _ _ _ E) as (Hkeep & Hnew & _).
      split; [exact (Hkeep _ _ H0)|]. split; [exact (Hkeep _ _ H1)|].
      assert (h !! r = None) as Hr by (apply Hnew; discriminate).
      split; intros ->; rewrite Hr in *; discriminate.
    + simpl in E. unfold Heap.deref in E. rewrite H0, H1 in E.
      vm_compute in E. discriminate E.
  - destruct (Heap.preprocess_final {[ 0%nat := Sample.application_train ]}
                0%nat true) as [[r h']|e] eqn:E.
    + exists r, h'. split; [reflexivity|].
      destruct (Hfinal _ _ _ _ _ E) as (Hr & (d & Hd & Hd') & _).
      split; [exact Hr|]. rewrite lookup_singleton_eq in Hd.
      injection Hd as <-. exact Hd'.
    + rewrite (heap_preprocess_final_runs _ _ _ Sample.application_train) in E
        by apply lookup_singleton_eq.
      discriminate E.
  - set (h := ({[ 0%nat := Sample.application_train ]} : gmap nat DataFrame)).
    assert (h !! 0%nat = Some Sample.application_train) as H0 by reflexivity.
    destruct (Heap.prepare_dataset h Sample.directory true)
      as [[r h']|e] eqn:E; [|vm_compute in E; discriminate E].
    exists r, h'. split; [reflexivity|].
    destruct (Hprepare _ _ _ _ _ E) as (Hkeep & Hnew & _).
    split; [exact (Hkeep _ _ H0)|].
    intros ->. rewrite Hnew in H0. discriminate H0.
Defined.

(** C10. A row without a client identifier belongs to no group: the
    grouping of each aggregator gives the same result with and without
    such rows, and no row of a feature table carries a missing
    identifier. *)
Theorem missing_client_rows_are_dropped :
  (∀ df spec,
     groupby_agg (drop_missing_keys "SK_ID_CURR" df) "SK_ID_CURR" spec
     = groupby_agg df "SK_ID_CURR" spec)
  ∧ (∀ df,
       groupby_mean (drop_missing_keys "SK_ID_CURR" df) "SK_ID_CURR"
       = groupby_mean df "SK_ID_CURR")
  ∧ (∀ path ft, preprocess_bureau_data path = Ok ft →
                KMissing ∉ frame_keys "SK_ID_CURR" ft)
  ∧ (∀ path ft, preprocess_previous_applications path = Ok ft →
                KMissing ∉ frame_keys "SK_ID_CURR" ft)
  ∧ (∀ path ft, preprocess_installments path = Ok ft →
                KMissing ∉ frame_keys "SK_ID_CURR" ft).
Proof.
  split; [intros; apply groupby_agg_drop_missing|].
  split; [intros; apply groupby_mean_drop_missing|].
  split_and!; intros path ft H;
    destruct (feature_tables_grouped path) as (Hb & Hp & Hi).
  - destruct (Hb ft H) as (b & _ & [-> _]). apply group_keys_no_missing.
  - destruct (Hp ft H) as (b & _ & [-> _]). apply group_keys_no_missing.
  - destruct (Hi ft H) as (b & _ & [-> _]). apply group_keys_no_missing.
Qed.

Lemma missing_client_rows_are_dropped_witness :
  (KMissing ∈ frame_keys "SK_ID_CURR" Sample.bureau
   ∧ nrows Sample.bureau = 4%nat
   ∧ nrows (drop_missing_keys "SK_ID_CURR" Sample.bureau) = 3%nat
   ∧ groupby_agg (drop_missing_keys "SK_ID_CURR" Sample.bureau) "SK_ID_CURR"
                 [("AMT_CREDIT_SUM", [Mean; Sum])]
     = groupby_agg Sample.bureau "SK_ID_CURR" [("AMT_CREDIT_SUM", [Mean; Sum])])
  ∧ (∃ ft, preprocess_bureau_data Sample.directory = Ok ft
           ∧ KMissing ∉ frame_keys "SK_ID_CURR" ft)
  ∧ (∃ ft, preprocess_previous_applications Sample.directory = Ok ft
           ∧ KMissing ∉ frame_keys "SK_ID_CURR" ft)
  ∧ (∃ ft, preprocess_installments Sample.directory = Ok ft
           ∧ KMissing ∉ frame_keys "SK_ID_CURR" ft).
Proof.
  destruct missing_client_rows_are_dropped as (Hagg & _ & Hb & Hp & Hi).
  split_and!.
  - vm_compute. do 3 right. left.
  - reflexivity.
  - reflexivity.
  - exact (Hagg Sample.bureau [("AMT_CREDIT_SUM", [Mean; Sum])]).
  - destruct (preprocess_bureau_data Sample.directory) as [ft|e] eqn:E;
      [|vm_compute in E; discriminate E].
    exists ft. split; [reflexivity|]. exact (Hb _ _ E).
  - destruct (preprocess_previous_applications Sample.directory) as [ft|e] eqn:E;
      [|vm_compute in E; discriminate E].
    exists ft. split; [reflexivity|]. exact (Hp _ _ E).
  - destruct (preprocess_installments Sample.directory) as [ft|e] eqn:E;
      [|vm_compute in E; discriminate E].
    exists ft. split; [reflexivity|]. exact (Hi _ _ E).
Defined.

(** * Further properties *)

(** ** The columns of a left join on a unique key *)

Lemma merge_all_features_columns app_df feature_dfs out j name c :
  wf_frame app_df →
  Forall (λ f, NoDup (frame_join_keys "SK_ID_CURR" f app_df)) feature_dfs →
  merge_all_features app_df feature_dfs = Ok out →
  columns app_df !! j = Some (name, c) →
  ∃ name', columns out !! j = Some (name', c)
    ∧ (name = "SK_ID_CURR" → name' = "SK_ID_CURR")
    ∧ (Forall (λ f, name ∉ labels f) feature_dfs → name' = name).
Proof.
  revert app_df name.
  induction feature_dfs as [|f fs IH]; intros app_df name Hwf Hall H Hj;
    simpl in H.
  - injection H as <-. exists name. by split_and!.
  - apply Forall_cons in Hall as [Hf Hall]. inv_bind H as m Hm.
    pose proof (unique_features_merge _ _ _ _ Hwf Hf Hm Hall) as Hall'.
    pose proof (merge_unique_columns _ _ _ _ Hwf Hf Hm) as Hcols.
    assert (columns m !! j
            = Some (suffixed "SK_ID_CURR" (labels f) "_x" name, c)) as Hmj.
    { rewrite Hcols, lookup_app_l.
      - by rewrite list_lookup_fmap, Hj.
      - rewrite length_fmap. by apply lookup_lt_Some with (name, c). }
    destruct (IH m _ (merge_wf _ _ _ _ Hm) Hall' H Hmj)
      as (name' & Hout & Hkey & Hsame).
    exists name'. split_and!; [done| |].
    + intros ->. apply Hkey, suffixed_key.
    + intros [Hn Hrest]%Forall_cons. rewrite suffixed_absent in Hsame by done.
      by apply Hsame.
Qed.

(** ** Rows without a match *)

Lemma mapM_lookup_None {A B} (f : A → option B) l i x :
  l !! i = Some x → f x = None → mapM f l = None.
Proof.
  intros Hi Hx. destruct (mapM f l) as [k|] eqn:E; [|done].
  apply mapM_Some in E. destruct (Forall2_lookup_l _ _ _ _ _ E Hi) as (y & _ & Hy).
  congruence.
Qed.

Lemma col_isna_take_missing c idx i :
  idx !! i = Some None → col_isna (take_col c idx) !! i = Some true.
Proof.
  intros Hi. destruct c as [xs|xs|xs|xs|xs]; simpl.
  - by rewrite !list_lookup_fmap, Hi.
  - rewrite (mapM_lookup_None _ _ _ _ Hi) by done. simpl.
    by rewrite !list_lookup_fmap, Hi.
  - rewrite (mapM_lookup_None _ _ _ _ Hi) by done. simpl.
    by rewrite !list_lookup_fmap, Hi.
  - by rewrite !list_lookup_fmap, Hi.
  - by rewrite !list_lookup_fmap, Hi.
Qed.

Lemma lookup_rows_absent lk rk i k :
  lk !! i = Some k → k ∉ rk → lookup_rows lk rk !! i = Some None.
Proof.
  intros Hi Hk. unfold lookup_rows. rewrite list_lookup_fmap, Hi. simpl.
  unfold positions. by rewrite positions_from_absent.
Qed.

(** ** What the final cleaning keeps *)

Lemma length_factorize xs : length (factorize xs) = length xs.
Proof. unfold factorize. by rewrite length_fmap. Qed.

Lemma col_len_clean_column c : col_len (clean_column c) = col_len c.
Proof.
  unfold clean_column, fill_numeric.
  destruct c as [xs|xs|xs|xs|xs]; simpl.
  - unfold fillna_floats. by rewrite length_fmap.
  - done.
  - done.
  - destruct (bool_decide (nunique xs = 2%nat)); simpl; by rewrite ?length_factorize.
  - destruct (F64.is_nan _); simpl; by rewrite ?length_fmap.
Qed.

Lemma labels_preprocess_final df is_train :
  labels (preprocess_final df is_train) = labels df.
Proof.
  unfold labels. rewrite columns_preprocess_final, <-list_fmap_compose.
  by apply list_fmap_ext.
Qed.

Lemma wf_preprocess_final df is_train :
  wf_frame df → wf_frame (preprocess_final df is_train).
Proof.
  unfold wf_frame. rewrite columns_preprocess_final, nrows_preprocess_final.
  intros Hwf. apply Forall_fmap. eapply Forall_impl; [exact Hwf|].
  intros [n c] Hc. simpl in *. by rewrite col_len_clean_column.
Qed.

Lemma cells_present_no_nan xs :
  None ∉ cells (Float64 xs) → Forall (λ x, F64.is_nan x = false) xs.
Proof.
  intros Hno. apply Forall_forall. intros x Hx.
  destruct (F64.is_nan x) eqn:E; [|done]. exfalso. apply Hno. simpl.
  apply list_elem_of_fmap. exists x. by rewrite E.
Qed.

Lemma cells_present_nullable (xs : list (option float)) :
  None ∉ cells (NullableFloat64 xs) → Forall is_Some xs.
Proof.
  intros Hno. apply Forall_forall. intros [x|] Hx; [by eexists|].
  exfalso. apply Hno. simpl. apply list_elem_of_fmap. by exists None.
Qed.

Lemma clean_column_settled c :
  match c with
  | Object xs => nunique xs ≠ 2%nat
  | Boolean _ => True
  | _ => None ∉ cells c
  end →
  clean_column c = c.
Proof.
  unfold clean_column, fill_numeric.
  destruct c as [xs|xs|xs|xs|xs]; simpl; intros H; try done.
  - f_equal. by apply fillna_floats_present, cells_present_no_nan.
  - by rewrite bool_decide_false.
  - destruct (F64.is_nan _); [done|]. simpl. f_equal.
    by apply fill_nullable_present, cells_present_nullable.
Qed.

(** ** The steps of [prepare_dataset] *)

Lemma prepare_dataset_Ok path is_train out :
  prepare_dataset path is_train = Ok out →
  ∃ app_df bureau_df prev_app_df inst_df full_df,
    load_application_data path is_train = Ok app_df
    ∧ preprocess_bureau_data path = Ok bureau_df
    ∧ preprocess_previous_applications path = Ok prev_app_df
    ∧ preprocess_installments path = Ok inst_df
    ∧ merge_all_features app_df [bureau_df; prev_app_df; inst_df] = Ok full_df
    ∧ out = preprocess_final full_df is_train
    ∧ Forall (λ f, NoDup (frame_keys "SK_ID_CURR" f))
             [bureau_df; prev_app_df; inst_df].
Proof.
  unfold prepare_dataset. intros H.
  inv_bind H as app_df Happ. inv_bind H as b Hb. inv_bind H as p Hp.
  inv_bind H as i Hi. inv_bind H as full Hfull. injection H as <-.
  exists app_df, b, p, i, full. split_and!; try done.
  destruct (feature_tables_grouped path) as (Gb & Gp & Gi).
  destruct (Gb _ Hb) as (? & _ & ?), (Gp _ Hp) as (? & _ & ?),
    (Gi _ Hi) as (? & _ & ?).
  repeat constructor; by eapply grouped_from_NoDup.
Qed.

Lemma merge_all_features_wf app_df feature_dfs out :
  feature_dfs ≠ [] →
  merge_all_features app_df feature_dfs = Ok out → wf_frame out.
Proof.
  revert app_df. induction feature_dfs as [|f fs IH]; intros app_df Hne H; [done|].
  simpl in H. inv_bind H as m Hm. destruct fs as [|f' fs].
  - simpl in H. injection H as <-. by apply merge_wf in Hm.
  - by apply IH with m.
Qed.

Lemma load_application_data_Ok path is_train app_df :
  load_application_data path is_train = Ok app_df ↔
  application_file path is_train = Some app_df.
Proof.
  unfold load_application_data, application_file.
  destruct is_train.
  - destruct (application_train_csv path); simpl; split; congruence.
  - destruct (application_test_csv path); simpl; split; congruence.
Qed.

Lemma load_application_data_absent path is_train :
  application_file path is_train = None →
  load_application_data path is_train
  = Raise (FileNotFoundError (application_file_name is_train)).
Proof.
  unfold load_application_data, application_file, application_file_name.
  by destruct is_train; intros ->.
Qed.

Lemma is_Some_read_csv file name df : read_csv file name = Ok df → is_Some file.
Proof. intros ->%read_csv_Ok. by eexists. Qed.

Lemma preprocess_bureau_data_files path ft :
  preprocess_bureau_data path = Ok ft →
  is_Some (bureau_csv path) ∧ is_Some (bureau_balance_csv path).
Proof.
  unfold preprocess_bureau_data. intros H.
  inv_bind H as b Hb. inv_bind H as bb Hbb.
  split; by eapply is_Some_read_csv.
Qed.

Lemma aggregators_same_files p1 p2 :
  bureau_csv p1 = bureau_csv p2 →
  bureau_balance_csv p1 = bureau_balance_csv p2 →
  previous_application_csv p1 = previous_application_csv p2 →
  installments_payments_csv p1 = installments_payments_csv p2 →
  preprocess_bureau_data p1 = preprocess_bureau_data p2
  ∧ preprocess_previous_applications p1 = preprocess_previous_applications p2
  ∧ preprocess_installments p1 = preprocess_installments p2.
Proof.
  intros Hb Hbb Hp Hi.
  unfold preprocess_bureau_data, preprocess_previous_applications,
    preprocess_installments.
  by rewrite Hb, Hbb, Hp, Hi.
Qed.

Lemma load_same_file p1 p2 is_train :
  application_file p1 is_train = application_file p2 is_train →
  load_application_data p1 is_train = load_application_data p2 is_train.
Proof.
  unfold application_file, load_application_data. by destruct is_train; intros ->.
Qed.

(** ** The columns of an aggregation *)

Lemma groupby_agg_body df by_ spec g :
  groupby_agg df by_ spec = Ok g →
  Forall2 (λ (cfn : string * aggfn) (lc : (string * string) * column),
             lc.1 = (cfn.1, aggfn_name cfn.2)
             ∧ ∃ c, get_column cfn.1 df = Ok c
                    ∧ agg_column cfn.2 c (frame_keys by_ df)
                        (group_keys (frame_keys by_ df)) = Ok lc.2)
          (agg_specs spec) (body g).
Proof.
  unfold groupby_agg. intros H. inv_bind H as kc Hkc. inv_bind H as cols Hcols.
  injection H as <-. simpl. rewrite (frame_keys_get _ _ _ Hkc).
  apply mapR_Ok in Hcols. unfold agg_specs.
  induction Hcols as [|cf col spec' cols' Hcf _ IH]; simpl; [constructor|].
  apply Forall2_app; [|exact IH].
  inv_bind Hcf as c Hc. apply mapR_Ok in Hcf.
  induction Hcf as [|fn lc fns lcs Hfn _ IH']; simpl; constructor; [|done].
  inv_bind Hfn as a Ha. injection Hfn as <-. simpl. eauto.
Qed.

Lemma groupby_agg_column df by_ spec g i col fn :
  groupby_agg df by_ spec = Ok g →
  agg_specs spec !! i = Some (col, fn) →
  ∃ c a, get_column col df = Ok c
         ∧ agg_column fn c (frame_keys by_ df) (group_keys (frame_keys by_ df)) = Ok a
         ∧ body g !! i = Some ((col, aggfn_name fn), a).
Proof.
  intros Hg Hi.
  destruct (Forall2_lookup_l _ _ _ _ _ (groupby_agg_body _ _ _ _ Hg) Hi)
    as ([l a] & Hb & Hl & c & Hc & Ha).
  simpl in *. subst l. by exists c, a.
Qed.

Lemma groupby_agg_labels df by_ spec g :
  groupby_agg df by_ spec = Ok g →
  (body g).*1 = (λ cfn, (cfn.1, aggfn_name cfn.2)) <$> agg_specs spec.
Proof.
  intros Hg. pose proof (groupby_agg_body _ _ _ _ Hg) as Hb. revert Hb.
  generalize (agg_specs spec) (body g). intros l1 l2 Hb.
  induction Hb as [|cfn lc ? ? [Hl _] _ IH]; [done|].
  rewrite !fmap_cons. by f_equal.
Qed.

Lemma labels_reset_index_relabel {L} (f : L → string) (g : Grouped L) :
  labels (reset_index (relabel f g)) = index_name g :: (f <$> (body g).*1).
Proof.
  unfold labels. simpl. f_equal. rewrite <-!list_fmap_compose.
  by apply list_fmap_ext.
Qed.

Lemma columns_reset_index_relabel {L} (f : L → string) (g : Grouped L) i l a :
  body g !! i = Some (l, a) →
  columns (reset_index (relabel f g)) !! S i = Some (f l, a).
Proof. intros Hi. simpl. by rewrite list_lookup_fmap, Hi. Qed.

(** ** Labels and positions *)

Lemma assoc_lookup {A} (l : list (string * A)) i n a :
  NoDup l.*1 → l !! i = Some (n, a) → assoc n l = Some a.
Proof.
  revert i. induction l as [|[m b] l IH]; intros i Hnd Hi; [done|].
  apply NoDup_cons in Hnd as [Hm Hnd]. simpl in *.
  destruct i as [|i]; simpl in Hi.
  - injection Hi as -> ->. by rewrite decide_True.
  - rewrite decide_False; [by apply IH with i|].
    intros ->. apply Hm. apply list_elem_of_fmap. exists (n, a).
    split; [done|]. by apply list_elem_of_lookup_2 with i.
Qed.

Lemma get_column_lookup df i n c :
  NoDup (labels df) → columns df !! i = Some (n, c) → get_column n df = Ok c.
Proof. intros Hnd Hi. apply get_column_Ok. by apply assoc_lookup with i. Qed.

Lemma set_assoc_fresh {A} n (a : A) l :
  n ∉ l.*1 → set_assoc n a l = (l ++ [(n, a)])%list.
Proof.
  induction l as [|[m b] l IH]; simpl; intros Hn; [done|].
  apply not_elem_of_cons in Hn as [Hne Hn].
  rewrite decide_False by done. by rewrite IH.
Qed.

Lemma set_assoc_last {A} n (a b : A) l :
  n ∉ l.*1 → set_assoc n a (l ++ [(n, b)]) = (l ++ [(n, a)])%list.
Proof.
  induction l as [|[m c] l IH]; simpl; intros Hn.
  - by rewrite decide_True.
  - apply not_elem_of_cons in Hn as [Hne Hn].
    rewrite decide_False by done. by rewrite IH.
Qed.

Lemma columns_set_column_fresh n c c' df :
  n ∉ labels df →
  columns (set_column n c' (set_column n c df)) = (columns df ++ [(n, c')])%list.
Proof.
  intros Hn. unfold labels in Hn. unfold set_column. simpl.
  rewrite (set_assoc_fresh n c (columns df)) by done. by rewrite set_assoc_last.
Qed.

Lemma suffixed_cases on other suffix name :
  kept_or_suffixed name suffix (suffixed on other suffix name).
Proof.
  unfold kept_or_suffixed, suffixed. destruct (bool_decide _); auto.
Qed.

Lemma agg_column_Count c ks gk :
  agg_column Count c ks gk
  = Ok (Int64 ((λ k, count_true (negb <$> group_values ks (col_isna c) k)) <$> gk)).
Proof. by destruct c. Qed.

(** ** What can raise which error *)

Lemma bind_Raise {A B} (m : result A) (f : A → result B) e :
  m ≫= f = Raise e → m = Raise e ∨ ∃ a, m = Ok a ∧ f a = Raise e.
Proof.
  destruct m as [a|e']; simpl; intros H; [right; eauto | left; congruence].
Qed.

Lemma fmap_Raise {A B} (m : result A) (f : A → B) e :
  f <$> m = Raise e → m = Raise e.
Proof. destruct m; simpl; congruence. Qed.

Lemma read_csv_Raise file name e :
  read_csv file name = Raise e → e = FileNotFoundError name ∧ file = None.
Proof. destruct file; simpl; [done|]. by intros [= <-]. Qed.

(** Splits a failed sequence of binds into the step that failed. *)
Ltac inv_raise H :=
  repeat lazymatch type of H with
  | fmap _ _ = Raise _ => apply fmap_Raise in H
  | mbind _ _ = Raise _ => apply bind_Raise in H as [H|(? & _ & H)]
  end.

Create HintDb raises.

Lemma get_column_raises name df e :
  get_column name df = Raise e → ¬ is_file_error e.
Proof. unfold get_column. destruct (assoc _ _); [done|]. intros [= <-]; exact id. Qed.

Lemma as_floats_raises c e : as_floats c = Raise e → ¬ is_file_error e.
Proof.
  destruct c as [xs|xs|xs|[|x xs]|xs]; simpl; try done; intros [= <-]; exact id.
Qed.

#[local] Hint Resolve get_column_raises as_floats_raises : raises.

Lemma agg_column_raises fn c ks gk e :
  agg_column fn c ks gk = Raise e → ¬ is_file_error e.
Proof.
  destruct fn, c; simpl; try done; try destruct (bool_decide (gk = []));
    try done; intros [= <-]; exact id.
Qed.

Lemma mapR_raises {A B} (f : A → result B) l e :
  mapR f l = Raise e → ∃ x, x ∈ l ∧ f x = Raise e.
Proof.
  induction l as [|x l IH]; simpl; [done|]. intros H.
  apply bind_Raise in H as [H|(y & _ & H)].
  - exists x. split; [left|done].
  - apply bind_Raise in H as [H|(ys & _ & H)]; [|done].
    destruct (IH H) as (x' & Hx' & Hf). exists x'. split; [by right|done].
Qed.

#[local] Hint Resolve agg_column_raises : raises.

Lemma groupby_agg_raises df by_ spec e :
  groupby_agg df by_ spec = Raise e → ¬ is_file_error e.
Proof.
  unfold groupby_agg. intros H.
  apply bind_Raise in H as [H|(kc & _ & H)]; [eauto with raises|].
  apply bind_Raise in H as [H|(cols & _ & H)]; [|done].
  apply mapR_raises in H as (cf & _ & H).
  apply bind_Raise in H as [H|(c & _ & H)]; [eauto with raises|].
  apply mapR_raises in H as (fn & _ & H).
  apply bind_Raise in H as [H|(a & _ & H)]; [eauto with raises|done].
Qed.

Lemma groupby_mean_raises df by_ e :
  groupby_mean df by_ = Raise e → ¬ is_file_error e.
Proof.
  unfold groupby_mean. intros H.
  apply bind_Raise in H as [H|(kc & _ & H)]; [eauto with raises|].
  apply bind_Raise in H as [H|(cols & _ & H)]; [|done].
  apply mapR_raises in H as (nc & _ & H).
  apply bind_Raise in H as [H|(a & _ & H)]; [eauto with raises|done].
Qed.

Lemma col_div_raises a b e : col_div a b = Raise e → ¬ is_file_error e.
Proof.
  unfold col_div. intros H. inv_raise H; eauto with raises; done.
Qed.

Lemma col_sub_raises a b e : col_sub a b = Raise e → ¬ is_file_error e.
Proof.
  unfold col_sub. intros H.
  destruct a, b; try (injection H as <-; exact id); try discriminate H;
    inv_raise H; eauto with raises; done.
Qed.

Lemma col_eq_zero_raises c e : col_eq_zero c = Raise e → ¬ is_file_error e.
Proof. destruct c; simpl; try done; intros [= <-]; exact id. Qed.

Lemma get_dummies_raises df col e :
  get_dummies df col = Raise e → ¬ is_file_error e.
Proof.
  unfold get_dummies. intros H.
  apply bind_Raise in H as [H|(c & _ & H)]; [eauto with raises|].
  apply bind_Raise in H as [H|(d & _ & H)]; [|done].
  destruct c as [xs|xs|xs|xs|xs]; try (injection H as <-; exact id); [done|].
  destruct (forallb _ xs); [done | injection H as <-; exact id].
Qed.

Lemma select_columns_raises names df e :
  select_columns names df = Raise e → ¬ is_file_error e.
Proof.
  unfold select_columns. intros H.
  apply bind_Raise in H as [H|(cs & _ & H)]; [|done].
  apply mapR_raises in H as (n & _ & H).
  apply bind_Raise in H as [H|(c & _ & H)]; [eauto with raises|done].
Qed.

Lemma drop_column_raises name df e :
  drop_column name df = Raise e → ¬ is_file_error e.
Proof. unfold drop_column. destruct (assoc _ _); [done|]. intros [= <-]; exact id. Qed.

Lemma merge_no_file_error l r on e : merge l r on = Raise e → ¬ is_file_error e.
Proof. intros [->|[->| ->]]%merge_raises; exact id. Qed.

Lemma merge_all_features_no_file_error app_df feature_dfs e :
  merge_all_features app_df feature_dfs = Raise e → ¬ is_file_error e.
Proof. intros [->|[->| ->]]%merge_all_features_raises; exact id. Qed.

#[local] Hint Resolve groupby_agg_raises groupby_mean_raises col_div_raises
  col_sub_raises col_eq_zero_raises get_dummies_raises select_columns_raises
  drop_column_raises merge_no_file_error merge_all_features_no_file_error
  : raises.

Lemma preprocess_bureau_data_file_error path name :
  preprocess_bureau_data path = Raise (FileNotFoundError name) →
  (name = "bureau.csv" ∧ bureau_csv path = None)
  ∨ (name = "bureau_balance.csv" ∧ bureau_balance_csv path = None).
Proof.
  unfold preprocess_bureau_data. intros H.
  apply bind_Raise in H as [H|(b & _ & H)].
  { apply read_csv_Raise in H as [[= ->] ?]. by left. }
  apply bind_Raise in H as [H|(bb & _ & H)].
  { apply read_csv_Raise in H as [[= ->] ?]. by right. }
  exfalso. cut (¬ is_file_error (FileNotFoundError name)); [by intros []|].
  inv_raise H; try discriminate H; eauto with raises.
Qed.

Lemma preprocess_previous_applications_file_error path name :
  preprocess_previous_applications path = Raise (FileNotFoundError name) →
  name = "previous_application.csv" ∧ previous_application_csv path = None.
Proof.
  unfold preprocess_previous_applications. intros H.
  apply bind_Raise in H as [H|(b & _ & H)].
  { by apply read_csv_Raise in H as [[= ->] ?]. }
  exfalso. cut (¬ is_file_error (FileNotFoundError name)); [by intros []|].
  inv_raise H; try discriminate H; eauto with raises.
Qed.

Lemma preprocess_installments_file_error path name :
  preprocess_installments path = Raise (FileNotFoundError name) →
  name = "installments_payments.csv" ∧ installments_payments_csv path = None.
Proof.
  unfold preprocess_installments. intros H.
  apply bind_Raise in H as [H|(b & _ & H)].
  { by apply read_csv_Raise in H as [[= ->] ?]. }
  exfalso. cut (¬ is_file_error (FileNotFoundError name)); [by intros []|].
  inv_raise H; try discriminate H; eauto with raises.
Qed.

Lemma load_application_data_Raise path is_train e :
  load_application_data path is_train = Raise e →
  e = FileNotFoundError (application_file_name is_train)
  ∧ application_file path is_train = None.
Proof.
  unfold load_application_data, application_file, application_file_name.
  destruct is_train.
  - destruct (application_train_csv path); simpl; [done|]. by intros [= <-].
  - destruct (application_test_csv path); simpl; [done|]. by intros [= <-].
Qed.

(** * Further results *)

(** ** Files and errors of [prepare_dataset] *)

(** X1. A run of [prepare_dataset] that returns a table has found the
    application file of its mode and the four auxiliary files. *)
Theorem prepare_dataset_reads_five_files :
  ∀ path is_train out,
    prepare_dataset path is_train = Ok out →
    is_Some (application_file path is_train)
    ∧ is_Some (bureau_csv path)
    ∧ is_Some (bureau_balance_csv path)
    ∧ is_Some (previous_application_csv path)
    ∧ is_Some (installments_payments_csv path).
Proof.
  intros path is_train out H.
  destruct (prepare_dataset_Ok _ _ _ H)
    as (app_df & b & p & i & full & Happ & Hb & Hp & Hi & _).
  apply load_application_data_Ok in Happ.
  destruct (preprocess_bureau_data_files _ _ Hb) as [Hb1 Hb2].
  destruct (feature_tables_grouped path) as (_ & Gp & Gi).
  destruct (Gp _ Hp) as (? & Hp' & _), (Gi _ Hi) as (? & Hi' & _).
  split_and!; try done; by eexists.
Qed.

Lemma prepare_dataset_reads_five_files_witness :
  ∃ out, prepare_dataset Sample.directory false = Ok out
    ∧ is_Some (application_test_csv Sample.directory)
    ∧ is_Some (bureau_balance_csv Sample.directory).
Proof.
  destruct (prepare_dataset Sample.directory false) as [out|e] eqn:E;
    [|vm_compute in E; discriminate E].
  exists out. split; [reflexivity|].
  destruct (prepare_dataset_reads_five_files Sample.directory false out E)
    as (Ha & _ & Hbb & _).
  split; [exact Ha | exact Hbb].
Defined.

(** X2. Without the application file of its mode [prepare_dataset]
    raises [FileNotFoundError] for that file, whatever the other files
    hold, and before any of them is looked at. *)
Theorem prepare_dataset_without_application_file :
  ∀ path is_train,
    application_file path is_train = None →
    prepare_dataset path is_train
    = Raise (FileNotFoundError (application_file_name is_train)).
Proof.
  intros path is_train Hnone. unfold prepare_dataset.
  by rewrite (load_application_data_absent _ _ Hnone).
Qed.

Lemma prepare_dataset_without_application_file_witness :
  prepare_dataset directory_without_test false
  = Raise (FileNotFoundError "application_test.csv").
Proof.
  exact (prepare_dataset_without_application_file directory_without_test false
           eq_refl).
Defined.

(** X3. The file a [FileNotFoundError] of [prepare_dataset] names is one
    of the five files of the run, and it is absent: no other step of
    the pipeline raises this error. *)
Theorem file_error_names_an_absent_file :
  ∀ path is_train name,
    prepare_dataset path is_train = Raise (FileNotFoundError name) →
    (name = application_file_name is_train
     ∧ application_file path is_train = None)
    ∨ (name = "bureau.csv" ∧ bureau_csv path = None)
    ∨ (name = "bureau_balance.csv" ∧ bureau_balance_csv path = None)
    ∨ (name = "previous_application.csv" ∧ previous_application_csv path = None)
    ∨ (name = "installments_payments.csv"
       ∧ installments_payments_csv path = None).
Proof.
  intros path is_train name H. unfold prepare_dataset in H.
  apply bind_Raise in H as [H|(app_df & _ & H)].
  { apply load_application_data_Raise in H as [[= ->] ?]. by left. }
  apply bind_Raise in H as [H|(b & _ & H)].
  { apply preprocess_bureau_data_file_error in H as [?|?]; auto. }
  apply bind_Raise in H as [H|(p & _ & H)].
  { apply preprocess_previous_applications_file_error in H. auto. }
  apply bind_Raise in H as [H|(i & _ & H)].
  { apply preprocess_installments_file_error in H. auto 6. }
  apply bind_Raise in H as [H|(full & _ & H)]; [|done].
  by apply merge_all_features_no_file_error in H.
Qed.

Lemma file_error_names_an_absent_file_witness :
  prepare_dataset directory_without_test false
  = Raise (FileNotFoundError "application_test.csv")
  ∧ application_test_csv directory_without_test = None.
Proof.
  split; [reflexivity|].
  destruct (file_error_names_an_absent_file directory_without_test false
              "application_test.csv" eq_refl)
    as [[_ Ha]|[[Hn _]|[[Hn _]|[[Hn _]|[Hn _]]]]];
    [exact Ha | discriminate Hn..].
Defined.

(** X4. [prepare_dataset] reads the application file of its mode and
    the four auxiliary files, and nothing else: on two directories that
    agree on these it does the same.  Preparing the training table
    does not depend on the test file, nor the other way round. *)
Theorem prepare_dataset_reads_only_its_mode :
  ∀ p1 p2 is_train,
    application_file p1 is_train = application_file p2 is_train →
    bureau_csv p1 = bureau_csv p2 →
    bureau_balance_csv p1 = bureau_balance_csv p2 →
    previous_application_csv p1 = previous_application_csv p2 →
    installments_payments_csv p1 = installments_payments_csv p2 →
    prepare_dataset p1 is_train = prepare_dataset p2 is_train.
Proof.
  intros p1 p2 is_train Ha Hb Hbb Hp Hi. unfold prepare_dataset.
  destruct (aggregators_same_files p1 p2 Hb Hbb Hp Hi) as (-> & -> & ->).
  by rewrite (load_same_file p1 p2 is_train Ha).
Qed.

Lemma prepare_dataset_reads_only_its_mode_witness :
  application_test_csv Sample.directory
  ≠ application_test_csv directory_without_test
  ∧ prepare_dataset Sample.directory true
    = prepare_dataset directory_without_test true.
Proof.
  split; [discriminate|].
  exact (prepare_dataset_reads_only_its_mode Sample.directory
           directory_without_test true eq_refl eq_refl eq_refl eq_refl eq_refl).
Defined.

(** ** What the merge does to the columns *)

(** X5. When no feature table has a client identifier twice, as the
    join compares them, the merged table starts with the columns of
    the application table, in their order: every column other than the
    key is there cell for cell (the key column is the one the join may
    convert, when the key columns of the two sides are of different
    kinds); the key column keeps its label, and so does every column
    whose label no feature table uses. *)
Theorem merge_all_features_keeps_application_columns :
  ∀ app_df feature_dfs out j name c,
    wf_frame app_df →
    Forall (λ f, NoDup (frame_join_keys "SK_ID_CURR" f app_df)) feature_dfs →
    merge_all_features app_df feature_dfs = Ok out →
    columns app_df !! j = Some (name, c) →
    ∃ name' c',
      columns out !! j = Some (name', c')
      ∧ (name ≠ "SK_ID_CURR" → c' = c)
      ∧ (name = "SK_ID_CURR" → name' = "SK_ID_CURR")
      ∧ (Forall (λ f, name ∉ labels f) feature_dfs → name' = name).
Proof.
  intros app_df feature_dfs out j name c Hwf Hnd H Hj.
  destruct (merge_all_features_columns _ _ _ _ _ _ Hwf Hnd H Hj)
    as (name' & Hout & Hkey & Hsame).
  by exists name', c.
Qed.

Lemma merge_all_features_keeps_application_columns_witness :
  ∃ out, merge_all_features Sample.application_train [Sample.scores] = Ok out
    ∧ columns out !! 2%nat
      = Some ("CODE_GENDER", Object [Sample.str "M"; Sample.str "F"; Sample.str "M"]).
Proof.
  assert (NoDup (frame_join_keys "SK_ID_CURR" Sample.scores
                   Sample.application_train)) as Hnd.
  { apply (bool_decide_unpack _). vm_compute. exact I. }
  assert (wf_frame Sample.application_train) as Hwf by (repeat constructor).
  destruct (merge_all_features Sample.application_train [Sample.scores])
    as [out|e] eqn:E; [|vm_compute in E; discriminate E].
  exists out. split; [reflexivity|].
  destruct (merge_all_features_keeps_application_columns
              Sample.application_train [Sample.scores] out 2%nat "CODE_GENDER"
              (Object [Sample.str "M"; Sample.str "F"; Sample.str "M"])
              Hwf (Forall_cons_2 _ _ _ Hnd (Forall_nil_2 _)) E eq_refl)
    as (name' & c' & Hj & Hc & _ & Hsame).
  rewrite Hj. rewrite (Hc ltac:(discriminate)). rewrite Hsame; [reflexivity|].
  apply Forall_cons_2; [|apply Forall_nil_2].
  apply (bool_decide_unpack _). vm_compute. exact I.
Defined.

(** X6. A client of the application table whose identifier, as the join
    compares it, is on no row of the first feature table gets a missing
    value in every column this table adds, and the later merges leave
    these columns as they are. *)
Theorem unmatched_client_gets_missing_features :
  ∀ app_df f fs out i k j,
    wf_frame app_df →
    Forall (λ f, NoDup (frame_join_keys "SK_ID_CURR" f app_df)) (f :: fs) →
    merge_all_features app_df (f :: fs) = Ok out →
    frame_join_keys "SK_ID_CURR" app_df f !! i = Some k →
    k ∉ frame_join_keys "SK_ID_CURR" f app_df →
    (length (columns app_df) ≤ j)%nat →
    (j < length (columns app_df)
         + length (filter (λ nc, nc.1 ≠ "SK_ID_CURR") (columns f)))%nat →
    ∃ name c, columns out !! j = Some (name, c) ∧ col_isna c !! i = Some true.
Proof.
  intros app_df f fs out i k j Hwf [Hf Hfs]%Forall_cons H Hi Hk Hge Hlt.
  simpl in H. inv_bind H as m Hm.
  pose proof (unique_features_merge _ _ _ _ Hwf Hf Hm Hfs) as Hfs'.
  pose proof (merge_unique_columns _ _ _ _ Hwf Hf Hm) as Hcols.
  destruct (lookup_lt_is_Some_2
              (filter (λ nc, nc.1 ≠ "SK_ID_CURR") (columns f))
              (j - length (columns app_df))) as [[n0 c0] Hn0]; [lia|].
  set (idx := lookup_rows (frame_join_keys "SK_ID_CURR" app_df f)
                          (frame_join_keys "SK_ID_CURR" f app_df)) in *.
  assert (columns m !! j
          = Some (suffixed "SK_ID_CURR" (labels app_df) "_y" n0, take_col c0 idx))
    as Hmj.
  { rewrite Hcols, lookup_app_r by (by rewrite length_fmap).
    by rewrite length_fmap, list_lookup_fmap, Hn0. }
  destruct (merge_all_features_columns _ _ _ _ _ _ (merge_wf _ _ _ _ Hm) Hfs' H Hmj)
    as (name' & Hout & _).
  exists name', (take_col c0 idx). split; [done|].
  apply col_isna_take_missing. by apply lookup_rows_absent with k.
Qed.

Lemma unmatched_client_gets_missing_features_witness :
  ∃ out, merge_all_features Sample.application_train [Sample.scores] = Ok out
    ∧ ∃ name c, columns out !! 4%nat = Some (name, c)
                ∧ col_isna c !! 1%nat = Some true.
Proof.
  assert (NoDup (frame_join_keys "SK_ID_CURR" Sample.scores
                   Sample.application_train)) as Hnd.
  { apply (bool_decide_unpack _). vm_compute. exact I. }
  assert (wf_frame Sample.application_train) as Hwf by (repeat constructor).
  destruct (merge_all_features Sample.application_train [Sample.scores])
    as [out|e] eqn:E; [|vm_compute in E; discriminate E].
  exists out. split; [reflexivity|].
  refine (unmatched_client_gets_missing_features
            Sample.application_train Sample.scores [] out 1%nat (KNum 1 1) 4%nat
            Hwf (Forall_cons_2 _ _ _ Hnd (Forall_nil_2 _)) E eq_refl _ _ _).
  - apply (bool_decide_unpack _). vm_compute. exact I.
  - vm_compute. lia.
  - vm_compute. lia.
Defined.

(** ** What the final cleaning keeps *)

(** X7. The final cleaning changes cells only: the cleaned frame has
    the labels of its argument, in their order, as many rows, and in
    every column as many cells as before. *)
Theorem preprocess_final_keeps_shape :
  ∀ df is_train,
    labels (preprocess_final df is_train) = labels df
    ∧ nrows (preprocess_final df is_train) = nrows df
    ∧ (λ nc, col_len nc.2) <$> columns (preprocess_final df is_train)
      = (λ nc, col_len nc.2) <$> columns df.
Proof.
  intros df is_train. split_and!.
  - apply labels_preprocess_final.
  - apply nrows_preprocess_final.
  - rewrite columns_preprocess_final, <-list_fmap_compose.
    apply list_fmap_ext. intros i [n c] _. simpl. apply col_len_clean_column.
Qed.

(** X8. The final cleaning leaves a column as it is when there is
    nothing to do on it: a numeric column without a missing cell (an
    identifier or the target, say), a column of booleans, and a column
    of objects that does not hold exactly two distinct values. *)
Theorem preprocess_final_leaves_settled_columns :
  ∀ df is_train j name c,
    columns df !! j = Some (name, c) →
    settled c →
    columns (preprocess_final df is_train) !! j = Some (name, c).
Proof.
  intros df is_train j name c Hj Hc.
  rewrite columns_preprocess_final, list_lookup_fmap, Hj. simpl.
  by rewrite clean_column_settled.
Qed.

Lemma preprocess_final_leaves_settled_columns_witness :
  columns (preprocess_final Sample.application_test false) !! 1%nat
  = Some ("CODE_GENDER", Object [Sample.str "F"; Sample.str "F"]).
Proof.
  refine (preprocess_final_leaves_settled_columns Sample.application_test false
            1%nat "CODE_GENDER" (Object [Sample.str "F"; Sample.str "F"])
            eq_refl _).
  vm_compute. discriminate.
Defined.

(** X9. The table [prepare_dataset] returns is well formed; when the
    identifiers of the auxiliary files are compared exactly with those
    of the application table, it starts with the columns of the
    application table, one for one and in their order: each of them
    other than the key is the column of the file after the final
    cleaning, with none of its rows moved, provided its median is a
    number that the half of its sum with itself gives back, and the
    client identifier keeps the label SK_ID_CURR. *)
Theorem prepare_dataset_application_columns :
  ∀ path is_train app_df out j name c,
    prepare_dataset path is_train = Ok out →
    application_file path is_train = Some app_df →
    wf_frame app_df →
    columns app_df !! j = Some (name, c) →
    wf_frame out
    ∧ (identifiers_compared_exactly app_df path →
       ∃ name' c',
         columns out !! j = Some (name', c')
         ∧ (name ≠ "SK_ID_CURR" → settles (col_median c) → c' = clean_column c)
         ∧ (name = "SK_ID_CURR" → name' = "SK_ID_CURR")).
Proof.
  intros path is_train app_df out j name c H Hfile Hwf Hj.
  apply load_application_data_Ok in Hfile. split.
  - destruct (prepare_dataset_Ok _ _ _ H)
      as (app & b & p & i & full & _ & _ & _ & _ & Hfull & -> & _).
    apply wf_preprocess_final. by apply merge_all_features_wf in Hfull.
  - intros Hexact.
    destruct (prepare_dataset_features _ _ _ _ Hfile Hexact H)
      as (b & p & i & full & _ & _ & _ & Hfull & -> & Hnd).
    destruct (merge_all_features_columns _ _ _ _ _ _ Hwf Hnd Hfull Hj)
      as (name' & Hout & Hkey & _).
    exists name', (clean_column c). split; [|done].
    by rewrite columns_preprocess_final, list_lookup_fmap, Hout.
Qed.

Lemma prepare_dataset_application_columns_witness :
  ∃ out, prepare_dataset float_directory true = Ok out
    ∧ wf_frame out
    ∧ ∃ name', columns out !! 1%nat = Some (name', Int64 [0; 1]).
Proof.
  assert (wf_frame float_application) as Hwf by (repeat constructor).
  assert (identifiers_compared_exactly float_application float_directory)
    as Hexact.
  { intros ids _ _ df c Hdf Hc.
    apply elem_of_cons in Hdf as [[= ->]|Hdf];
      [|apply elem_of_cons in Hdf as [[= ->]|Hdf];
        [|apply elem_of_cons in Hdf as [[= ->]|Hdf];
          [|by apply elem_of_nil in Hdf]]];
      injection Hc as <-; simpl; repeat constructor; vm_compute; reflexivity. }
  destruct (prepare_dataset float_directory true) as [out|e] eqn:E;
    [|vm_compute in E; discriminate E].
  exists out. split; [reflexivity|].
  destruct (prepare_dataset_application_columns float_directory true
              float_application out 1%nat "TARGET" (Int64 [0; 1])
              E eq_refl Hwf eq_refl) as (Hout & Hcols).
  destruct (Hcols Hexact) as (name' & c' & Hj & Hc & _).
  split; [exact Hout|]. exists name'.
  rewrite Hj. rewrite (Hc ltac:(discriminate) eq_refl). reflexivity.
Defined.

(** ** The script *)

(** X10. A run of the script writes train_clean.csv and test_clean.csv
    and touches no other file of the processed directory, however it
    ends. *)
Theorem main_writes_only_its_two_files :
  ∀ raw processed_dir name,
    name ≠ "train_clean.csv" → name ≠ "test_clean.csv" →
    processed (main raw processed_dir) !! name = processed_dir !! name.
Proof.
  intros raw dir name Htrain Htest. unfold main.
  destruct (prepare_dataset raw true); [|done].
  destruct (prepare_dataset raw false); simpl.
  - by rewrite !lookup_insert_ne.
  - by rewrite lookup_insert_ne.
Qed.

Lemma main_writes_only_its_two_files_witness :
  processed (main Sample.directory earlier_outputs) !! "notes.csv"
  = Some Sample.scores.
Proof.
  rewrite (main_writes_only_its_two_files Sample.directory earlier_outputs
             "notes.csv"); [reflexivity | discriminate | discriminate].
Defined.

(** X11. A step that fails leaves its file as it was: when
    [prepare_dataset] raises on the training data the run writes no
    file at all, and when it raises on the test data the run does not
    write test_clean.csv, so that the file of an earlier run, if any,
    is still there. *)
Theorem main_failure_leaves_partial_output :
  ∀ raw processed_dir e,
    (prepare_dataset raw true = Raise e →
     processed (main raw processed_dir) = processed_dir)
    ∧ (prepare_dataset raw false = Raise e →
       processed (main raw processed_dir) !! "test_clean.csv"
       = processed_dir !! "test_clean.csv").
Proof.
  intros raw dir e. unfold main. split.
  - by intros ->.
  - intros ->. destruct (prepare_dataset raw true) as [train|e1]; simpl; [|done].
    by rewrite lookup_insert_ne.
Qed.

Lemma main_failure_leaves_partial_output_witness :
  processed (main directory_without_train earlier_outputs) = earlier_outputs
  ∧ processed (main directory_without_test earlier_outputs) !! "test_clean.csv"
    = Some Sample.application_test.
Proof.
  split.
  - exact (proj1 (main_failure_leaves_partial_output directory_without_train
                    earlier_outputs (FileNotFoundError "application_train.csv"))
             eq_refl).
  - rewrite (proj2 (main_failure_leaves_partial_output directory_without_test
                      earlier_outputs (FileNotFoundError "application_test.csv"))
               eq_refl).
    reflexivity.
Defined.

(** X12. A run that ends without an exception has written both files:
    each holds the table [prepare_dataset] returns in its mode, and the
    three progress lines were printed; the table has one row for each
    row of the application file it was made from when the identifiers
    of the auxiliary files are compared exactly with those of that
    file. *)
Theorem main_success_writes_both_tables :
  ∀ raw processed_dir,
    raised (main raw processed_dir) = None →
    ∃ train_data test_data,
      prepare_dataset raw true = Ok train_data
      ∧ prepare_dataset raw false = Ok test_data
      ∧ processed (main raw processed_dir)
        = <["test_clean.csv" := test_data]>
            (<["train_clean.csv" := train_data]> processed_dir)
      ∧ stdout (main raw processed_dir)
        = ["Preparing training data..."; "Preparing test data...";
           "✅ Data preparation completed and saved."]
      ∧ (∀ app_df, application_train_csv raw = Some app_df → wf_frame app_df →
                   identifiers_compared_exactly app_df raw →
                   nrows train_data = nrows app_df)
      ∧ (∀ app_df, application_test_csv raw = Some app_df → wf_frame app_df →
                   identifiers_compared_exactly app_df raw →
                   nrows test_data = nrows app_df).
Proof.
  intros raw dir. unfold main.
  destruct (prepare_dataset raw true) as [train|e1] eqn:E1; simpl; [|done].
  destruct (prepare_dataset raw false) as [test|e2] eqn:E2; simpl; [|done].
  intros _. exists train, test. split_and!; try done.
  - intros app Happ Hwf Hexact.
    apply (prepare_dataset_rows raw true); [done| |done|done].
    by apply load_application_data_Ok.
  - intros app Happ Hwf Hexact.
    apply (prepare_dataset_rows raw false); [done| |done|done].
    by apply load_application_data_Ok.
Qed.

Lemma main_success_writes_both_tables_witness :
  raised (main Sample.directory earlier_outputs) = None
  ∧ ∃ train_data test_data,
      processed (main Sample.directory earlier_outputs)
      = <["test_clean.csv" := test_data]>
          (<["train_clean.csv" := train_data]> earlier_outputs)
      ∧ nrows train_data = 3%nat ∧ nrows test_data = 2%nat.
Proof.
  assert (raised (main Sample.directory earlier_outputs) = None) as Hr
    by (vm_compute; reflexivity).
  split; [exact Hr|].
  destruct (main_success_writes_both_tables Sample.directory earlier_outputs Hr)
    as (train & test & _ & _ & Hp & _ & Htrain & Htest).
  exists train, test. split; [exact Hp|]. split.
  - apply (Htrain Sample.application_train eq_refl); [repeat constructor|].
    intros ids [= <-] Hfl. discriminate Hfl.
  - apply (Htest Sample.application_test eq_refl); [repeat constructor|].
    intros ids [= <-] Hfl. discriminate Hfl.
Defined.

(** ** The columns of the feature tables *)

Lemma labels_grouped (f : string * string → string) df by_ spec g :
  groupby_agg df by_ spec = Ok g →
  labels (reset_index (relabel f g))
  = by_ :: ((λ cfn, f (cfn.1, aggfn_name cfn.2)) <$> agg_specs spec).
Proof.
  intros Hg. rewrite labels_reset_index_relabel.
  rewrite (groupby_agg_labels _ _ _ _ Hg), <-list_fmap_compose.
  by destruct (groupby_agg_index _ _ _ _ Hg) as [-> _].
Qed.

Lemma column_grouped (f : string * string → string) df by_ spec g i col fn :
  groupby_agg df by_ spec = Ok g →
  NoDup (by_ :: ((λ cfn, f (cfn.1, aggfn_name cfn.2)) <$> agg_specs spec)) →
  agg_specs spec !! i = Some (col, fn) →
  ∃ c a, get_column col df = Ok c
         ∧ agg_column fn c (frame_keys by_ df) (group_keys (frame_keys by_ df)) = Ok a
         ∧ columns (reset_index (relabel f g)) !! S i
           = Some (f (col, aggfn_name fn), a)
         ∧ get_column (f (col, aggfn_name fn)) (reset_index (relabel f g)) = Ok a.
Proof.
  intros Hg Hnd Hi.
  destruct (groupby_agg_column _ _ _ _ _ _ _ Hg Hi) as (c & a & Hc & Ha & Hb).
  exists c, a. split_and!; try done.
  - by apply columns_reset_index_relabel.
  - apply get_column_lookup with (S i).
    + by rewrite (labels_grouped _ _ _ _ _ Hg).
    + by apply columns_reset_index_relabel.
Qed.

Lemma col_div_Ok a b ratio :
  col_div a b = Ok ratio →
  ∃ xs ys, as_floats a = Ok xs ∧ as_floats b = Ok ys
           ∧ ratio = zip_with F64.div xs ys.
Proof.
  unfold col_div. intros H. inv_bind H as xs Hxs. inv_bind H as ys Hys.
  injection H as <-. by exists xs, ys.
Qed.

Lemma col_div_length df n1 n2 a b ratio :
  wf_frame df → get_column n1 df = Ok a → get_column n2 df = Ok b →
  col_div a b = Ok ratio → length ratio = nrows df.
Proof.
  intros Hwf Ha Hb (xs & ys & Hxs & Hys & ->)%col_div_Ok.
  rewrite length_zip_with, (as_floats_length _ _ Hxs), (as_floats_length _ _ Hys).
  rewrite (wf_frame_keys _ _ _ Hwf Ha), (wf_frame_keys _ _ _ Hwf Hb). lia.
Qed.

Lemma labels_app_columns df cols extra :
  columns df = (cols ++ extra)%list → labels df = (cols.*1 ++ extra.*1)%list.
Proof. unfold labels. intros ->. by rewrite fmap_app. Qed.

Lemma previous_applications_columns path ft :
  preprocess_previous_applications path = Ok ft →
  ∃ prev g ratios,
    previous_application_csv path = Some prev
    ∧ groupby_agg prev "SK_ID_CURR" previous_application_spec = Ok g
    ∧ columns ft
      = (columns (reset_index (relabel previous_application_label g))
         ++ [("PREV_CREDIT_TO_APPLICATION_RATIO", NullableFloat64 ratios)])%list
    ∧ nrows ft = nrows (reset_index (relabel previous_application_label g))
    ∧ length ratios = nrows ft.
Proof.
  unfold preprocess_previous_applications. intros H.
  inv_bind H as prev Hprev. apply read_csv_Ok in Hprev.
  inv_bind H as g Hg.
  change (groupby_agg prev "SK_ID_CURR" previous_application_spec = Ok g) in Hg.
  pose proof (groupby_agg_wf previous_application_label _ _ _ _ Hg) as Hwf.
  pose proof (labels_grouped previous_application_label _ _ _ _ Hg) as Hl.
  inv_bind H as credit Hcredit. inv_bind H as application Happ.
  inv_bind H as ratio Hratio. injection H as <-.
  exists prev, g, (astype_Float64 (replace_inf ratio)).
  split; [exact Hprev|]. split; [exact Hg|]. split; [|split].
  - apply columns_set_column_fresh.
    rewrite Hl. apply (bool_decide_unpack _). vm_compute. exact I.
  - reflexivity.
  - rewrite !nrows_set_column. unfold astype_Float64, replace_inf.
    rewrite !length_fmap.
    exact (col_div_length _ _ _ _ _ _ Hwf Hcredit Happ Hratio).
Qed.

Lemma previous_applications_wf path ft :
  preprocess_previous_applications path = Ok ft → wf_frame ft.
Proof.
  intros (prev & g & ratios & _ & Hg & Hc & Hn & Hr)%previous_applications_columns.
  pose proof (groupby_agg_wf previous_application_label _ _ _ _ Hg) as Hwf.
  unfold wf_frame in *. rewrite Hc, Hn. apply Forall_app. split; [done|].
  constructor; [|constructor]. simpl. by rewrite Hr, Hn.
Qed.

Lemma installments_columns path ft :
  preprocess_installments path = Ok ft →
  ∃ inst paid zero df g,
    installments_payments_csv path = Some inst
    ∧ get_column "AMT_PAYMENT" inst = Ok paid
    ∧ col_eq_zero paid = Ok zero
    ∧ frame_keys "SK_ID_CURR" df = frame_keys "SK_ID_CURR" inst
    ∧ get_column "MISSED_PAYMENT" df
      = Ok (Boolean (zip_with orb (col_isna paid) zero))
    ∧ groupby_agg df "SK_ID_CURR" installments_spec = Ok g
    ∧ ft = reset_index (relabel installments_label g).
Proof.
  unfold preprocess_installments. intros H.
  inv_bind H as inst Hinst. apply read_csv_Ok in Hinst.
  inv_bind H as entry Hentry. inv_bind H as instalment Hinstalment.
  inv_bind H as delay Hdelay. inv_bind H as paid0 Hpaid0.
  inv_bind H as due Hdue. inv_bind H as ratio Hratio.
  inv_bind H as paid Hpaid. inv_bind H as zero Hzero.
  inv_bind H as g Hg. injection H as <-.
  rewrite !get_set_column_ne in Hpaid by done.
  match type of Hg with
  | groupby_agg ?d _ _ = _ => exists inst, paid, zero, d, g
  end.
  split_and!; try done.
  - by rewrite !frame_keys_set_column by done.
  - apply get_set_column_eq.
Qed.

Lemma previous_applications_labels path ft :
  preprocess_previous_applications path = Ok ft →
  labels ft
  = ["SK_ID_CURR";
     "PREV_AMT_APPLICATION_MEAN"; "PREV_AMT_APPLICATION_SUM";
     "PREV_AMT_CREDIT_MEAN"; "PREV_AMT_CREDIT_SUM";
     "PREV_AMT_DOWN_PAYMENT_MEAN"; "PREV_AMT_ANNUITY_MEAN";
     "PREV_CNT_PAYMENT_MEAN"; "PREV_DAYS_DECISION_MEAN";
     "PREV_SK_ID_PREV_COUNT"; "PREV_CREDIT_TO_APPLICATION_RATIO"].
Proof.
  intros H.
  destruct (previous_applications_columns _ _ H)
    as (prev & g & ratios & _ & Hg & Hc & _).
  rewrite (labels_app_columns _ _ _ Hc).
  change (columns (reset_index (relabel previous_application_label g))).*1
    with (labels (reset_index (relabel previous_application_label g))).
  by rewrite (labels_grouped _ _ _ _ _ Hg).
Qed.

(** X13. The table of the previous applications has these eleven
    columns, in this order, and one cell per row in each. *)
Theorem previous_applications_schema :
  ∀ path ft,
    preprocess_previous_applications path = Ok ft →
    labels ft
    = ["SK_ID_CURR";
       "PREV_AMT_APPLICATION_MEAN"; "PREV_AMT_APPLICATION_SUM";
       "PREV_AMT_CREDIT_MEAN"; "PREV_AMT_CREDIT_SUM";
       "PREV_AMT_DOWN_PAYMENT_MEAN"; "PREV_AMT_ANNUITY_MEAN";
       "PREV_CNT_PAYMENT_MEAN"; "PREV_DAYS_DECISION_MEAN";
       "PREV_SK_ID_PREV_COUNT"; "PREV_CREDIT_TO_APPLICATION_RATIO"]
    ∧ wf_frame ft.
Proof.
  intros path ft H. split.
  - by apply previous_applications_labels with path.
  - by apply previous_applications_wf with path.
Qed.

Lemma previous_applications_schema_witness :
  ∃ ft, preprocess_previous_applications Sample.directory = Ok ft
    ∧ length (labels ft) = 11%nat ∧ wf_frame ft.
Proof.
  destruct (preprocess_previous_applications Sample.directory) as [ft|e] eqn:E;
    [|vm_compute in E; discriminate E].
  exists ft. split; [reflexivity|].
  destruct (previous_applications_schema Sample.directory ft E) as [Hl Hwf].
  split; [rewrite Hl; reflexivity | exact Hwf].
Defined.

(** X14. The table of the installments has these six columns, in this
    order, and one cell per row in each. *)
Theorem installments_schema :
  ∀ path ft,
    preprocess_installments path = Ok ft →
    labels ft
    = ["SK_ID_CURR";
       "INSTALL_PAYMENT_DELAY_MEAN"; "INSTALL_PAYMENT_DELAY_MAX";
       "INSTALL_PAYMENT_RATIO_MEAN"; "INSTALL_MISSED_PAYMENT_SUM";
       "INSTALL_AMT_PAYMENT_SUM"]
    ∧ wf_frame ft.
Proof.
  intros path ft H.
  destruct (installments_columns _ _ H)
    as (inst & paid & zero & df & g & _ & _ & _ & _ & _ & Hg & ->).
  split.
  - by rewrite (labels_grouped _ _ _ _ _ Hg).
  - by apply groupby_agg_wf with df "SK_ID_CURR" installments_spec.
Qed.

Lemma installments_schema_witness :
  ∃ ft, preprocess_installments Sample.directory = Ok ft
    ∧ length (labels ft) = 6%nat ∧ wf_frame ft.
Proof.
  destruct (preprocess_installments Sample.directory) as [ft|e] eqn:E;
    [|vm_compute in E; discriminate E].
  exists ft. split; [reflexivity|].
  destruct (installments_schema Sample.directory ft E) as [Hl Hwf].
  split; [rewrite Hl; reflexivity | exact Hwf].
Defined.

(** ** Counting the rows of a group *)

Lemma count_true_group ks bs k :
  count_true (group_values ks bs k) = Z.of_nat (rows_where ks bs k true).
Proof.
  unfold count_true, group_values, rows_where. f_equal.
  induction (zip ks bs) as [|[k0 b] ps IH]; [done|].
  rewrite !filter_cons. simpl.
  destruct (decide (k0 = k)) as [->|Hne]; [destruct b|].
  - rewrite decide_True by done. rewrite fmap_cons, filter_cons_True by done.
    simpl. by rewrite IH.
  - rewrite decide_False by (by intros [_ ?]).
    by rewrite fmap_cons, filter_cons_False.
  - by rewrite decide_False by (by intros [? _]).
Qed.

Lemma count_false_group ks bs k :
  count_true (negb <$> group_values ks bs k) = Z.of_nat (rows_where ks bs k false).
Proof.
  unfold count_true, group_values, rows_where. f_equal.
  induction (zip ks bs) as [|[k0 b] ps IH]; [done|].
  rewrite !filter_cons. simpl.
  destruct (decide (k0 = k)) as [->|Hne]; [destruct b|].
  - rewrite decide_False by (by intros [_ ?]).
    by rewrite !fmap_cons, filter_cons_False.
  - rewrite decide_True by done. rewrite !fmap_cons, filter_cons_True by done.
    simpl. by rewrite IH.
  - by rewrite decide_False by (by intros [? _]).
Qed.

Lemma sum_list_indicator (k0 : key) (l : list key) (P : Prop) `{!Decision P} :
  NoDup l →
  sum_list ((λ k, if decide (k0 = k ∧ P) then 1%nat else 0%nat) <$> l)
  = if decide (k0 ∈ l ∧ P) then 1%nat else 0%nat.
Proof.
  induction l as [|k l IH]; intros Hnd.
  - destruct (decide (k0 ∈ [] ∧ P)) as [[Hin _]|]; [by apply elem_of_nil in Hin|done].
  - apply NoDup_cons in Hnd as [Hk Hnd]. rewrite fmap_cons. simpl sum_list.
    rewrite (IH Hnd).
    destruct (decide (k0 = k ∧ P)) as [[-> HP]|Hn1];
      destruct (decide (_ ∈ l ∧ P)) as [[Hin' HP']|Hn2];
      destruct (decide (_ ∈ k :: l ∧ P)) as [[Hin HP'']|Hn3]; simpl; try done;
      exfalso.
    + apply Hn3. split; [left|done].
    + apply Hn3. split; [by right|done].
    + apply elem_of_cons in Hin as [->|Hin]; [by apply Hn1 | by apply Hn2].
Qed.

Lemma sum_list_fmap_add {A} (f g : A → nat) l :
  sum_list ((λ x, f x + g x)%nat <$> l)
  = (sum_list (f <$> l) + sum_list (g <$> l))%nat.
Proof. induction l as [|x l IH]; csimpl; [done|]. rewrite IH. lia. Qed.

Lemma sum_list_zero {A} (l : list A) : sum_list ((λ _, 0%nat) <$> l) = 0%nat.
Proof. by induction l. Qed.

Lemma sum_rows_where (ps : list (key * bool)) (b : bool) (l : list key) :
  NoDup l →
  sum_list ((λ k, length (filter (λ p, p.1 = k ∧ p.2 = b) ps)) <$> l)
  = length (filter (λ p, p.1 ∈ l ∧ p.2 = b) ps).
Proof.
  intros Hnd. induction ps as [|[k0 b0] ps IH].
  - apply sum_list_zero.
  - transitivity
      (sum_list ((λ k, (if decide (k0 = k ∧ b0 = b) then 1 else 0)
                       + length (filter (λ p, p.1 = k ∧ p.2 = b) ps))%nat <$> l)).
    + apply (f_equal sum_list), list_fmap_ext. intros _ k _.
      rewrite filter_cons. simpl. by destruct (decide (k0 = k ∧ b0 = b)).
    + rewrite sum_list_fmap_add, IH, sum_list_indicator by done.
      rewrite (filter_cons _ (k0, b0)). simpl.
      by destruct (decide (k0 ∈ l ∧ b0 = b)).
Qed.

Lemma filter_zip_group_keys ks (bs : list bool) b :
  filter (λ p, p.1 ∈ group_keys ks ∧ p.2 = b) (zip ks bs)
  = filter (λ p, p.1 ≠ KMissing ∧ p.2 = b) (zip ks bs).
Proof.
  assert (Forall (λ p, p.1 ∈ ks) (zip ks bs)) as Hin.
  { apply Forall_forall. intros [k x] Hp. simpl.
    apply list_elem_of_lookup in Hp as [i Hi].
    apply lookup_zip_with_Some in Hi as (k' & x' & [= -> ->] & Hk & _).
    by apply list_elem_of_lookup_2 with i. }
  induction Hin as [|p ps Hk _ IH]; [done|]. destruct p as [k x].
  rewrite !filter_cons, IH. simpl in *.
  destruct (decide (k ∈ group_keys ks ∧ x = b)) as [[Hg Hx]|Hn];
    destruct (decide (k ≠ KMissing ∧ x = b)) as [[Hm Hb]|Hn']; try done; exfalso.
  - apply Hn'. split; [|done]. by apply elem_of_group_keys in Hg as [_ ?].
  - apply Hn. split; [|done]. by apply elem_of_group_keys.
Qed.

Lemma sum_rows_where_groups ks bs b :
  sum_list ((λ k, rows_where ks bs k b) <$> group_keys ks)
  = keyed_rows_where ks bs b.
Proof.
  unfold rows_where, keyed_rows_where.
  rewrite sum_rows_where by apply group_keys_NoDup.
  by rewrite filter_zip_group_keys.
Qed.

Lemma foldr_add_of_nat (ns : list nat) :
  foldr Z.add 0 (Z.of_nat <$> ns) = Z.of_nat (sum_list ns).
Proof. induction ns as [|n ns IH]; csimpl; [done|]. rewrite IH. lia. Qed.

(** ** The engineered columns *)

(** X15. In the table of the previous applications the cell of
    PREV_CREDIT_TO_APPLICATION_RATIO is, row by row, the float64
    quotient of the credit sum by the application sum when this
    quotient is a finite number, and the missing marker when it is an
    infinity or NaN. *)
Theorem prev_ratio_is_the_finite_quotient :
  ∀ path ft,
    preprocess_previous_applications path = Ok ft →
    ∃ credit application credits sums ratios,
      get_column "PREV_AMT_CREDIT_SUM" ft = Ok credit
      ∧ get_column "PREV_AMT_APPLICATION_SUM" ft = Ok application
      ∧ as_floats credit = Ok credits
      ∧ as_floats application = Ok sums
      ∧ get_column "PREV_CREDIT_TO_APPLICATION_RATIO" ft
        = Ok (NullableFloat64 ratios)
      ∧ length ratios = nrows ft
      ∧ ∀ i x s, credits !! i = Some x → sums !! i = Some s →
          ratios !! i
          = Some (if F64.is_inf (F64.div x s) || F64.is_nan (F64.div x s)
                  then None else Some (F64.div x s)).
Proof.
  intros path ft H.
  destruct (previous_applications_ratio _ _ H)
    as (credit & application & credits & sums & ratios
        & Hc & Ha & Hcs & Hss & Hr & Hlc & Hls & ->).
  exists credit, application, credits, sums. eexists.
  split_and!; try done.
  - unfold astype_Float64, replace_inf.
    rewrite !length_fmap, length_zip_with. lia.
  - intros i x s Hx Hs. apply astype_replace_inf_at.
    by rewrite lookup_zip_with, Hx, Hs.
Qed.

Lemma prev_ratio_is_the_finite_quotient_witness :
  ∃ ft ratios,
    preprocess_previous_applications Sample.directory = Ok ft
    ∧ get_column "PREV_CREDIT_TO_APPLICATION_RATIO" ft
      = Ok (NullableFloat64 ratios)
    ∧ ratios !! 0%nat = Some (Some (F64.div (Sample.num 180) (Sample.num 200))).
Proof.
  destruct (preprocess_previous_applications Sample.directory) as [ft|e] eqn:E;
    [|vm_compute in E; discriminate E].
  destruct (prev_ratio_is_the_finite_quotient Sample.directory ft E)
    as (credit & application & credits & sums & ratios
        & Hc & Ha & Hcs & Hss & Hr & _ & Hq).
  exists ft, ratios. split; [reflexivity|]. split; [exact Hr|].
  assert (get_column "PREV_AMT_CREDIT_SUM" ft
          = Ok (Float64 [Sample.num 180; Sample.num 50])) as Hc'.
  { vm_compute in E. injection E as <-. vm_compute. reflexivity. }
  assert (get_column "PREV_AMT_APPLICATION_SUM" ft
          = Ok (Float64 [Sample.num 200; F64.zero])) as Ha'.
  { vm_compute in E. injection E as <-. vm_compute. reflexivity. }
  rewrite Hc' in Hc. injection Hc as <-. injection Hcs as <-.
  rewrite Ha' in Ha. injection Ha as <-. injection Hss as <-.
  exact (Hq 0%nat (Sample.num 180) (Sample.num 200) eq_refl eq_refl).
Defined.

(** X16. In the table of the installments, INSTALL_MISSED_PAYMENT_SUM
    is for each client the number of its installment records whose
    AMT_PAYMENT is missing or zero. *)
Theorem installments_missed_payment_count :
  ∀ path ft,
    preprocess_installments path = Ok ft →
    ∃ inst paid zero counts,
      installments_payments_csv path = Some inst
      ∧ get_column "AMT_PAYMENT" inst = Ok paid
      ∧ col_eq_zero paid = Ok zero
      ∧ get_column "INSTALL_MISSED_PAYMENT_SUM" ft = Ok (Int64 counts)
      ∧ length counts = nrows ft
      ∧ ∀ i k, frame_keys "SK_ID_CURR" ft !! i = Some k →
          counts !! i
          = Some (Z.of_nat (rows_where (frame_keys "SK_ID_CURR" inst)
                                       (zip_with orb (col_isna paid) zero)
                                       k true)).
Proof.
  intros path ft H.
  destruct (installments_columns _ _ H)
    as (inst & paid & zero & df & g & Hinst & Hpaid & Hzero & Hks & Hmissed
        & Hg & Hft).
  destruct (installments_grouped _ _ _ Hinst H) as [Hkeys Hrows].
  destruct (column_grouped installments_label _ _ _ _ 3%nat
              "MISSED_PAYMENT" Sum Hg) as (c & a & Hc & Ha & _ & Hget).
  { apply (bool_decide_unpack _). vm_compute. exact I. }
  { reflexivity. }
  rewrite Hmissed in Hc. injection Hc as <-. simpl in Ha. injection Ha as <-.
  rewrite Hks in Hget. rewrite <-Hft in Hget.
  exists inst, paid, zero. eexists. split_and!; try done.
  - by rewrite length_fmap, Hrows, Hkeys.
  - intros i k Hi. rewrite Hkeys in Hi.
    by rewrite list_lookup_fmap, Hi, <-count_true_group.
Qed.

Lemma installments_missed_payment_count_witness :
  ∃ ft counts,
    preprocess_installments Sample.directory = Ok ft
    ∧ get_column "INSTALL_MISSED_PAYMENT_SUM" ft = Ok (Int64 counts)
    ∧ counts !! 0%nat = Some 1.
Proof.
  destruct (preprocess_installments Sample.directory) as [ft|e] eqn:E;
    [|vm_compute in E; discriminate E].
  destruct (installments_missed_payment_count Sample.directory ft E)
    as (inst & paid & zero & counts & Hinst & Hpaid & Hzero & Hget & _ & Hcount).
  exists ft, counts. split; [reflexivity|]. split; [exact Hget|].
  injection Hinst as <-. injection Hpaid as <-. injection Hzero as <-.
  rewrite (Hcount 0%nat (KNum 1 0)).
  - reflexivity.
  - vm_compute in E. injection E as <-. reflexivity.
Defined.

(** X17. The counts of PREV_SK_ID_PREV_COUNT add up to the number of
    previous applications that have a client identifier and an
    application identifier: no such record is lost or counted twice. *)
Theorem previous_applications_count_conservation :
  ∀ path ft,
    preprocess_previous_applications path = Ok ft →
    ∃ prev ids counts,
      previous_application_csv path = Some prev
      ∧ get_column "SK_ID_PREV" prev = Ok ids
      ∧ get_column "PREV_SK_ID_PREV_COUNT" ft = Ok (Int64 counts)
      ∧ foldr Z.add 0 counts
        = Z.of_nat (keyed_rows_where (frame_keys "SK_ID_CURR" prev)
                                     (col_isna ids) false).
Proof.
  intros path ft H.
  pose proof (previous_applications_labels _ _ H) as Hlabels.
  destruct (previous_applications_columns _ _ H)
    as (prev & g & ratios & Hprev & Hg & Hcols & _).
  destruct (column_grouped previous_application_label _ _ _ _ 8%nat
              "SK_ID_PREV" Count Hg) as (ids & a & Hids & Ha & Hj & _).
  { apply (bool_decide_unpack _). vm_compute. exact I. }
  { reflexivity. }
  rewrite agg_column_Count in Ha. injection Ha as <-.
  exists prev, ids. eexists. split_and!; [done|done| |].
  - apply get_column_lookup with 9%nat.
    + rewrite Hlabels. apply (bool_decide_unpack _). vm_compute. exact I.
    + rewrite Hcols, lookup_app_l; [exact Hj|].
      by apply lookup_lt_Some in Hj.
  - rewrite <-sum_rows_where_groups, <-foldr_add_of_nat, <-list_fmap_compose.
    f_equal. apply list_fmap_ext. intros _ k _. simpl.
    apply count_false_group.
Qed.

Lemma previous_applications_count_conservation_witness :
  ∃ ft counts,
    preprocess_previous_applications Sample.directory = Ok ft
    ∧ get_column "PREV_SK_ID_PREV_COUNT" ft = Ok (Int64 counts)
    ∧ foldr Z.add 0 counts = 2.
Proof.
  destruct (preprocess_previous_applications Sample.directory) as [ft|e] eqn:E;
    [|vm_compute in E; discriminate E].
  destruct (previous_applications_count_conservation Sample.directory ft E)
    as (prev & ids & counts & Hprev & Hids & Hget & Hsum).
  exists ft, counts. split; [reflexivity|]. split; [exact Hget|].
  injection Hprev as <-. injection Hids as <-. rewrite Hsum. reflexivity.
Defined.

(** ** The ratio of the bureau table *)

Lemma bureau_columns path ft :
  preprocess_bureau_data path = Ok ft →
  ∃ g credit debt credits debts bb_final,
    let bureau_agg := reset_index (relabel bureau_label g) in
    columns bureau_agg !! 2%nat = Some ("AMT_CREDIT_SUM_sum", credit)
    ∧ columns bureau_agg !! 4%nat = Some ("AMT_CREDIT_SUM_DEBT_sum", debt)
    ∧ length (columns bureau_agg) = 7%nat
    ∧ wf_frame bureau_agg
    ∧ as_floats credit = Ok credits
    ∧ as_floats debt = Ok debts
    ∧ length (zip_with F64.div debts credits) = nrows bureau_agg
    ∧ NoDup (frame_join_keys "SK_ID_CURR" bb_final
               (mkFrame (nrows bureau_agg)
                  (columns bureau_agg
                   ++ [("DEBT_CREDIT_RATIO",
                        Float64 (fillna_floats F64.zero
                                   (zip_with F64.div debts credits)))])))
    ∧ merge (mkFrame (nrows bureau_agg)
               (columns bureau_agg
                ++ [("DEBT_CREDIT_RATIO",
                     Float64 (fillna_floats F64.zero
                                (zip_with F64.div debts credits)))]))
            bb_final "SK_ID_CURR" = Ok ft.
Proof.
  unfold preprocess_bureau_data. intros H.
  inv_bind H as bureau Hbureau. inv_bind H as bb Hbb.
  inv_bind H as g Hg.
  change (groupby_agg bureau "SK_ID_CURR" bureau_spec = Ok g) in Hg.
  pose proof (groupby_agg_wf bureau_label _ _ _ _ Hg) as Hwf.
  pose proof (labels_grouped bureau_label _ _ _ _ Hg) as Hl.
  assert (NoDup ("SK_ID_CURR"
                 :: ((λ cfn, bureau_label (cfn.1, aggfn_name cfn.2))
                       <$> agg_specs bureau_spec))) as Hnd.
  { apply (bool_decide_unpack _). vm_compute. exact I. }
  inv_bind H as debt Hdebt. inv_bind H as credit Hcredit.
  inv_bind H as ratio Hratio.
  destruct (column_grouped bureau_label _ _ _ _ 1%nat "AMT_CREDIT_SUM" Sum
              Hg Hnd eq_refl) as (c1 & a1 & _ & _ & Hj1 & Hget1).
  destruct (column_grouped bureau_label _ _ _ _ 3%nat "AMT_CREDIT_SUM_DEBT" Sum
              Hg Hnd eq_refl) as (c3 & a3 & _ & _ & Hj3 & Hget3).
  pose proof (eq_trans (eq_sym Hcredit) Hget1) as [= ->].
  pose proof (eq_trans (eq_sym Hdebt) Hget3) as [= ->].
  pose proof (col_div_length _ _ _ _ _ _ Hwf Hdebt Hcredit Hratio) as Hlen.
  destruct (col_div_Ok _ _ _ Hratio) as (debts & credits & Hdebts & Hcredits & ->).
  inv_bind H as bb_onehot E1. inv_bind H as bb_agg E2. inv_bind H as ids E3.
  inv_bind H as bureau_bb E4. inv_bind H as dropped E5. clear E1 E2.
  inv_bind H as bb_final E6. inv_bind E6 as gm Hgm. subst bb_final.
  apply read_csv_Ok in Hbureau.
  exists g, a1, a3, credits, debts, (reset_index gm). cbv zeta.
  split; [exact Hj1|]. split; [exact Hj3|]. split.
  { apply (f_equal length) in Hl. unfold labels in Hl.
    rewrite length_fmap in Hl. exact Hl. }
  split; [exact Hwf|]. split; [exact Hcredits|]. split; [exact Hdebts|].
  split; [exact Hlen|]. split.
  { destruct (reset_index_relabel bureau_label g "SK_ID_CURR"
                (proj1 (groupby_agg_index _ _ _ _ Hg))) as (rest & Hc & _).
    eapply (bureau_balance_join_keys _ _ _ _ _ _ _ _ _ _ Hg E3 E4 E5 Hgm).
    cbn [columns]. rewrite Hc. reflexivity. }
  rewrite <-H. f_equal. unfold set_column. cbn [nrows columns]. f_equal.
  symmetry.
  refine (columns_set_column_fresh "DEBT_CREDIT_RATIO" _ _
            (reset_index (relabel bureau_label g)) _).
  rewrite Hl. apply (bool_decide_unpack _). vm_compute. exact I.
Qed.

(** X18. In the table of the bureau records the eighth column is
    DEBT_CREDIT_RATIO (with the suffix of the merge when the balance
    table has a column of that name): row by row the float64 quotient
    of the debt sum in the fifth column by the credit sum in the third,
    with 0 where this quotient is NaN.  No cell of it is missing. *)
Theorem bureau_debt_credit_ratio_never_missing :
  ∀ path ft,
    preprocess_bureau_data path = Ok ft →
    ∃ n_credit n_debt n_ratio credit debt credits debts,
      columns ft !! 2%nat = Some (n_credit, credit)
      ∧ kept_or_suffixed "AMT_CREDIT_SUM_sum" "_x" n_credit
      ∧ columns ft !! 4%nat = Some (n_debt, debt)
      ∧ kept_or_suffixed "AMT_CREDIT_SUM_DEBT_sum" "_x" n_debt
      ∧ as_floats credit = Ok credits
      ∧ as_floats debt = Ok debts
      ∧ columns ft !! 7%nat
        = Some (n_ratio,
                Float64 (fillna_floats F64.zero (zip_with F64.div debts credits)))
      ∧ kept_or_suffixed "DEBT_CREDIT_RATIO" "_x" n_ratio
      ∧ Forall (λ x, F64.is_nan x = false)
               (fillna_floats F64.zero (zip_with F64.div debts credits)).
Proof.
  intros path ft H.
  destruct (bureau_columns _ _ H)
    as (g & credit & debt & credits & debts & bb_final & Hj2 & Hj4 & Hlen & Hwf
        & Hcredits & Hdebts & Hratio & Hnd & Hm).
  set (bureau_agg := reset_index (relabel bureau_label g)) in *.
  clearbody bureau_agg.
  set (ratio := fillna_floats F64.zero (zip_with F64.div debts credits)) in *.
  set (l := mkFrame (nrows bureau_agg)
              (columns bureau_agg ++ [("DEBT_CREDIT_RATIO", Float64 ratio)])) in *.
  assert (wf_frame l) as Hwfl.
  { unfold wf_frame, l. simpl. apply Forall_app. split; [exact Hwf|].
    constructor; [|constructor]. simpl. unfold ratio, fillna_floats.
    by rewrite length_fmap. }
  pose proof (merge_unique_columns _ _ _ _ Hwfl Hnd Hm) as Hcols.
  assert (∀ j name c, columns l !! j = Some (name, c) →
            columns ft !! j
            = Some (suffixed "SK_ID_CURR" (labels bb_final) "_x" name, c))
    as Hleft.
  { intros j name c Hj. rewrite Hcols, lookup_app_l.
    - by rewrite list_lookup_fmap, Hj.
    - rewrite length_fmap. by apply lookup_lt_Some in Hj. }
  eexists _, _, _, credit, debt, credits, debts.
  split; [apply Hleft; unfold l; simpl; by rewrite lookup_app_l by lia|].
  split; [apply suffixed_cases|].
  split; [apply Hleft; unfold l; simpl; by rewrite lookup_app_l by lia|].
  split; [apply suffixed_cases|].
  split; [exact Hcredits|]. split; [exact Hdebts|].
  split; [apply Hleft; unfold l; simpl;
          rewrite lookup_app_r by lia; by rewrite Hlen|].
  split; [apply suffixed_cases|].
  by apply fillna_floats_no_nan.
Qed.

Lemma bureau_debt_credit_ratio_never_missing_witness :
  ∃ ft n_ratio ratio,
    preprocess_bureau_data Sample.directory = Ok ft
    ∧ columns ft !! 7%nat = Some (n_ratio, Float64 ratio)
    ∧ n_ratio = "DEBT_CREDIT_RATIO"
    ∧ Forall (λ x, F64.is_nan x = false) ratio.
Proof.
  destruct (preprocess_bureau_data Sample.directory) as [ft|e] eqn:E;
    [|vm_compute in E; discriminate E].
  destruct (bureau_debt_credit_ratio_never_missing Sample.directory ft E)
    as (n_credit & n_debt & n_ratio & credit & debt & credits & debts
        & _ & _ & _ & _ & _ & _ & Hj & _ & Hno).
  exists ft, n_ratio, (fillna_floats F64.zero (zip_with F64.div debts credits)).
  split; [reflexivity|]. split; [exact Hj|]. split; [|exact Hno].
  vm_compute in E. injection E as <-. vm_compute in Hj.
  injection Hj as <- _. reflexivity.
Defined.

(** ** Rows with a match *)

Lemma positions_from_lookup i0 rk r k :
  NoDup rk → rk !! r = Some k → positions_from i0 rk k = [(i0 + r)%nat].
Proof.
  revert i0 r. induction rk as [|k' rk IH]; intros i0 r Hnd Hr; [done|].
  apply NoDup_cons in Hnd as [Hk' Hnd]. simpl.
  destruct r as [|r]; simpl in Hr.
  - injection Hr as ->. rewrite decide_True by done.
    rewrite positions_from_absent by done. f_equal. lia.
  - rewrite decide_False.
    + rewrite (IH (S i0) r Hnd Hr). f_equal. lia.
    + intros ->. apply Hk'. by apply list_elem_of_lookup_2 with r.
Qed.

Lemma lookup_rows_matched lk rk i r k :
  NoDup rk → lk !! i = Some k → rk !! r = Some k →
  lookup_rows lk rk !! i = Some (Some r).
Proof.
  intros Hnd Hi Hr. unfold lookup_rows. rewrite list_lookup_fmap, Hi. simpl.
  unfold positions. by rewrite (positions_from_lookup 0 rk r k Hnd Hr).
Qed.

Lemma mapM_cell_at_lookup {A} (xs ys : list A) idx i r :
  mapM (cell_at xs) idx = Some ys → idx !! i = Some (Some r) →
  ys !! i = xs !! r.
Proof.
  intros Hm Hi. apply mapM_Some in Hm.
  destruct (Forall2_lookup_l _ _ _ _ _ Hm Hi) as (y & Hy & Hc).
  simpl in Hc. by rewrite Hy, Hc.
Qed.

Lemma take_col_same_cell c0 idx i r :
  idx !! i = Some (Some r) → (r < col_len c0)%nat →
  same_cell c0 r (take_col c0 idx) i.
Proof.
  intros Hi Hr. destruct c0 as [xs|xs|xs|xs|xs]; simpl in *;
    destruct (lookup_lt_is_Some_2 xs r Hr) as [x Hx].
  - exists x. rewrite list_lookup_fmap, Hi. simpl. by rewrite Hx.
  - destruct (mapM (cell_at xs) idx) as [ys|] eqn:Hm; simpl.
    + exists x. by rewrite (mapM_cell_at_lookup _ _ _ _ _ Hm Hi).
    + exists x. rewrite list_lookup_fmap, Hi. simpl. by rewrite Hx.
  - destruct (mapM (cell_at xs) idx) as [ys|] eqn:Hm; simpl.
    + exists x. by rewrite (mapM_cell_at_lookup _ _ _ _ _ Hm Hi).
    + exists x. rewrite list_lookup_fmap, Hi. simpl. by rewrite Hx.
  - exists x. rewrite list_lookup_fmap, Hi. simpl. by rewrite Hx.
  - exists x. rewrite list_lookup_fmap, Hi. simpl. by rewrite Hx.
Qed.

Lemma col_len_filter_column (df : DataFrame) (P : string * column → Prop)
    `{!∀ nc, Decision (P nc)} j n c :
  wf_frame df → filter P (columns df) !! j = Some (n, c) → col_len c = nrows df.
Proof.
  intros Hwf Hj. apply list_elem_of_lookup_2 in Hj.
  apply list_elem_of_filter in Hj as [_ Hin].
  unfold wf_frame in Hwf. rewrite Forall_forall in Hwf. by apply (Hwf (n, c)).
Qed.

(** X19. A client of the application table whose identifier, as the
    join compares it, is on a row of the first feature table finds, in
    every column this table adds, the cell of that row (as a float64 or
    an object where the column had to be promoted to hold missing
    values for other clients), and the later merges leave these columns
    as they are. *)
Theorem matched_client_gets_its_features :
  ∀ app_df f fs out i r k j,
    wf_frame app_df → wf_frame f →
    Forall (λ f, NoDup (frame_join_keys "SK_ID_CURR" f app_df)) (f :: fs) →
    merge_all_features app_df (f :: fs) = Ok out →
    frame_join_keys "SK_ID_CURR" app_df f !! i = Some k →
    frame_join_keys "SK_ID_CURR" f app_df !! r = Some k →
    (length (columns app_df) ≤ j)%nat →
    ∀ name0 c0,
      filter (λ nc, nc.1 ≠ "SK_ID_CURR") (columns f)
        !! (j - length (columns app_df))%nat = Some (name0, c0) →
      ∃ name c, columns out !! j = Some (name, c) ∧ same_cell c0 r c i.
Proof.
  intros app_df f fs out i r k j Hwf Hwff [Hf Hfs]%Forall_cons H Hi Hr Hge
    name0 c0 Hn0.
  simpl in H. inv_bind H as m Hm.
  pose proof (unique_features_merge _ _ _ _ Hwf Hf Hm Hfs) as Hfs'.
  pose proof (merge_unique_columns _ _ _ _ Hwf Hf Hm) as Hcols.
  set (idx := lookup_rows (frame_join_keys "SK_ID_CURR" app_df f)
                          (frame_join_keys "SK_ID_CURR" f app_df)) in *.
  assert (columns m !! j
          = Some (suffixed "SK_ID_CURR" (labels app_df) "_y" name0,
                  take_col c0 idx)) as Hmj.
  { rewrite Hcols, lookup_app_r by (by rewrite length_fmap).
    by rewrite length_fmap, list_lookup_fmap, Hn0. }
  destruct (merge_all_features_columns _ _ _ _ _ _ (merge_wf _ _ _ _ Hm) Hfs' H Hmj)
    as (name' & Hout & _ & _).
  exists name', (take_col c0 idx). split; [done|].
  apply take_col_same_cell.
  - by apply lookup_rows_matched with k.
  - rewrite (col_len_filter_column _ _ _ _ _ Hwff Hn0).
    apply merge_Ok in Hm as (lk & rk & Hlk & Hrk & _).
    rewrite (frame_join_keys_get _ _ _ _ _ Hrk Hlk) in Hr.
    apply lookup_lt_Some in Hr. rewrite join_keys_length in Hr.
    by rewrite <-(wf_frame_keys _ _ _ Hwff Hrk).
Qed.

Lemma matched_client_gets_its_features_witness :
  ∃ out, merge_all_features Sample.application_train [Sample.scores] = Ok out
    ∧ ∃ name c, columns out !! 4%nat = Some (name, c)
                ∧ same_cell (Float64 [Sample.num 7; Sample.num 9]) 0 c 2.
Proof.
  assert (NoDup (frame_join_keys "SK_ID_CURR" Sample.scores
                   Sample.application_train)) as Hnd.
  { apply (bool_decide_unpack _). vm_compute. exact I. }
  assert (wf_frame Sample.application_train) as Hwf by (repeat constructor).
  assert (wf_frame Sample.scores) as Hwff by (repeat constructor).
  destruct (merge_all_features Sample.application_train [Sample.scores])
    as [out|e] eqn:E; [|vm_compute in E; discriminate E].
  exists out. split; [reflexivity|].
  refine (matched_client_gets_its_features
            Sample.application_train Sample.scores [] out 2%nat 0%nat
            (key_of_Z 3) 4%nat
            Hwf Hwff (Forall_cons_2 _ _ _ Hnd (Forall_nil_2 _)) E eq_refl eq_refl
            _ "SCORE" (Float64 [Sample.num 7; Sample.num 9]) eq_refl).
  vm_compute. lia.
Defined.
